(** * Resource lifetime, progressive loading and adaptive quality

    A shallow embedding of three services of the 3D digital-twin front end:

    - [ResourceManagerService] (imported as services/resourceManager): the
      reference-counted resource registry with its disposal queue;
    - [ProgressiveLoaderService] (services/progressiveLoader.ts): priority
      classification, size-bounded chunking and the bounded loading loop;
    - [RenderOptimizerService] (imported as services/renderOptimizer): LOD
      construction, frustum culling and the adaptive quality step.

    and of three services around them: the change detection of
    [StatusUpdateService] (services/statusUpdateService.ts), the retry and
    scheduling logic of [PollingService] (services/pollingService), and the
    [PerformanceMonitorService] (services/performanceMonitor.ts) the
    optimizer reads its frame rate from.

    The three.js objects the services share (meshes, geometries, materials,
    scene nodes) live in one heap addressed by object identity, so that a
    mesh reached through a chunk, through the scene graph and through the
    registry is one and the same cell.

    Conventions.  A JavaScript [number] holding a count, a byte size or a
    timestamp is a [Z]; one holding a ratio or a frame rate is a [Q] (exact
    rationals).  Where the rounding of IEEE doubles decides what the code
    does the number is a binary64 float with the processor's operations:
    coordinates and distances, [BufferAttribute.count], the triangle count
    and the arithmetic of [simplifyGeometry].  A call that throws returns
    [None].
    [Date.now()], [Math.random()], [window.devicePixelRatio], the metrics
    sample and the outcome of the frustum test are inputs of the operations
    that read them.  Logging is left out; [dispose()] of a three.js object
    is taken not to throw. *)

From stdpp Require Import base gmap list strings pretty sorting.
From Stdlib Require Import ZArith QArith Qround Qabs Lia Lqa.
From Stdlib Require Floats Uint63.
Close Scope Q_scope.

(** ** JavaScript containers *)

Module Js.

(** [Set<string>]: insertion-ordered, no duplicates. *)
Definition Set_add (x : string) (s : list string) : list string :=
  if decide (x ∈ s) then s else s ++ [x].

Definition Set_delete (x : string) (s : list string) : list string :=
  filter (λ y, y ≠ x) s.

Definition Set_size (s : list string) : Z := Z.of_nat (length s).

(** [Map<K, V>] where iteration order matters: insertion-ordered
    association list; [set] on a present key updates it in place. *)
Fixpoint Map_set `{EqDecision K} {V} (k : K) (v : V) (m : list (K * V)) : list (K * V) :=
  match m with
  | [] => [(k, v)]
  | (k', v') :: rest =>
      if decide (k' = k) then (k, v) :: rest else (k', v') :: Map_set k v rest
  end.

Definition Map_values {K V} (m : list (K * V)) : list V := snd <$> m.

(** [String.prototype.includes]. *)
Fixpoint includes (s needle : string) : bool :=
  String.prefix needle s ||
  match s with
  | EmptyString => false
  | String _ rest => includes rest needle
  end.

(** [String.prototype.toLowerCase] on ASCII letters. *)
Definition lower_ascii (c : Ascii.ascii) : Ascii.ascii :=
  let n := Ascii.nat_of_ascii c in
  if (65 <=? n)%nat && (n <=? 90)%nat then Ascii.ascii_of_nat (n + 32) else c.

Fixpoint toLowerCase (s : string) : string :=
  match s with
  | EmptyString => EmptyString
  | String c rest => String (lower_ascii c) (toLowerCase rest)
  end.

(** [Math.max] and [Math.min] on rationals. *)
Definition Qlt_bool (a b : Q) : bool := negb (Qle_bool b a).
Definition Math_max (a b : Q) : Q := if Qle_bool a b then b else a.
Definition Math_min (a b : Q) : Q := if Qle_bool a b then a else b.

(** A [number] as the IEEE double it is. *)
Definition number := PrimFloat.float.

(** The double of an integer (exact below 2^53 in absolute value). *)
Definition of_Z (z : Z) : number :=
  if (z <? 0)%Z then PrimFloat.opp (PrimFloat.of_uint63 (Uint63.of_Z (- z)))
  else PrimFloat.of_uint63 (Uint63.of_Z z).

Definition of_nat (n : nat) : number := of_Z (Z.of_nat n).

(** The decimal literal [n/d] for integers [n] and [d] a power of ten: the
    double nearest to the quotient. *)
Definition decimal (n d : Z) : number := PrimFloat.div (of_Z n) (of_Z d).

(** [a > b] and [a < b] on doubles (false when either is NaN). *)
Definition gt (a b : number) : bool := PrimFloat.ltb b a.
Definition lt (a b : number) : bool := PrimFloat.ltb a b.

(** [Math.floor]: a double [m * 2^e] with [e >= 0] is an integer already;
    otherwise its floor is below 2^53 in absolute value.  Zeros,
    infinities and NaN are returned as they are. *)
Definition Math_floor (x : number) : number :=
  match FloatOps.Prim2SF x with
  | SpecFloat.S754_finite s m e =>
      if (0 <=? e)%Z then x
      else of_Z ((if s then Z.neg m else Z.pos m) / 2 ^ (- e))
  | _ => x
  end.

(** The value of a double that holds an integer. *)
Inductive Integer :=
| Finite (z : Z)
| PlusInfinity
| MinusInfinity
| NaN.

Definition integer_value (x : number) : Integer :=
  match FloatOps.Prim2SF x with
  | SpecFloat.S754_zero _ => Finite 0
  | SpecFloat.S754_finite s m e =>
      Finite (if (0 <=? e)%Z then (if s then Z.neg m else Z.pos m) * 2 ^ e
              else (if s then Z.neg m else Z.pos m) / 2 ^ (- e))
  | SpecFloat.S754_infinity false => PlusInfinity
  | SpecFloat.S754_infinity true => MinusInfinity
  | SpecFloat.S754_nan => NaN
  end.

End Js.

(** ** three.js objects *)

Module Three.

(** Object identity. *)
Definition ref := nat.

Record Vector3 := mkVector3 { vx : Js.number; vy : Js.number; vz : Js.number }.

(** [new THREE.Vector3(x, y, z)] on integer coordinates. *)
Definition vector3 (x y z : Z) : Vector3 :=
  mkVector3 (Js.of_Z x) (Js.of_Z y) (Js.of_Z z).

Definition distanceToSquared (a b : Vector3) : Js.number :=
  let dx := PrimFloat.sub (vx a) (vx b) in
  let dy := PrimFloat.sub (vy a) (vy b) in
  let dz := PrimFloat.sub (vz a) (vz b) in
  PrimFloat.add (PrimFloat.add (PrimFloat.mul dx dx) (PrimFloat.mul dy dy))
                (PrimFloat.mul dz dz).

(** [a.distanceTo(b)]: [Math.sqrt] of the squared distance, each
    operation rounded as the processor rounds it. *)
Definition distanceTo (a b : Vector3) : Js.number :=
  PrimFloat.sqrt (distanceToSquared a b).

(** A typed-array backed attribute.  [isBufferAttribute] is the outcome of
    [instanceof THREE.BufferAttribute] (false for interleaved ones). *)
Record BufferAttribute := mkBufferAttribute {
  isBufferAttribute : bool;
  array : list Z;
  itemSize : nat;
  bytesPerElement : nat
}.

(** [attribute.count]: [array.length / itemSize], a division of doubles
    (not rounded to an integer; infinite or NaN for an item size of 0). *)
Definition count (a : BufferAttribute) : Js.number :=
  PrimFloat.div (Js.of_nat (length (array a))) (Js.of_nat (itemSize a)).

(** [i < attribute.count] for an integer [i]: for an array of less than
    2^53 elements the rounded quotient lies on the same side of [i] as the
    exact one. *)
Definition below_count (a : BufferAttribute) (i : nat) : bool :=
  (i * itemSize a <? length (array a))%nat.

Definition byteLength (a : BufferAttribute) : Z :=
  Z.of_nat (length (array a) * bytesPerElement a).

(** [attribute.getX(i)] *)
Definition getX (a : BufferAttribute) (i : nat) : Z :=
  nth (i * itemSize a) (array a) 0%Z.

Record BufferGeometry := mkBufferGeometry {
  geo_uuid : string;
  attributes : list (string * BufferAttribute);
  index : option BufferAttribute;
  geo_disposed : nat          (* number of dispose() calls received *)
}.

Record Material := mkMaterial {
  mat_uuid : string;
  isMeshStandardMaterial : bool;
  color : Z;
  transparent : bool;
  opacity : Q;
  mat_disposed : nat
}.

Record Texture := mkTexture {
  image : option (Z * Z);     (* width, height *)
  tex_disposed : nat
}.

(** [mesh.material]: absent, one material, or an array of them. *)
Inductive MaterialSlot :=
| NoMaterial
| OneMaterial (m : ref)
| MaterialArray (ms : list ref).

Inductive Object3DKind :=
| KMesh (geometry : option ref) (material : MaterialSlot)
| KScene
| KLight
| KCamera
| KLOD (levels : list (ref * Q))
| KGroup.

Record Object3D := mkObject3D {
  uuid : string;
  name : string;
  position : Vector3;
  visible : bool;
  parent : option ref;
  children : list ref;
  userData_isLOD : bool;
  kind : Object3DKind
}.

Inductive HeapObject :=
| HGeometry (g : BufferGeometry)
| HMaterial (m : Material)
| HTexture (t : Texture)
| HObject3D (o : Object3D).

Record Heap := mkHeap {
  cells : gmap nat HeapObject;
  next : nat
}.

Definition empty_heap : Heap := mkHeap ∅ 0.

Definition deref (h : Heap) (r : ref) : option HeapObject := cells h !! r.

Definition store (r : ref) (o : HeapObject) (h : Heap) : Heap :=
  mkHeap (<[r := o]> (cells h)) (next h).

(** The identity the next [new ...] will get: one that is not in use. *)
Definition fresh (h : Heap) : ref :=
  Nat.max (next h) (S (foldr Nat.max 0 (fst <$> map_to_list (cells h)))).

Definition alloc (o : HeapObject) (h : Heap) : ref * Heap :=
  let r := fresh h in
  (r, mkHeap (<[r := o]> (cells h)) (S r)).

Definition getObject3D (h : Heap) (r : ref) : option Object3D :=
  match deref h r with
  | Some (HObject3D o) => Some o
  | _ => None
  end.

Definition isMesh (h : Heap) (r : ref) : bool :=
  match getObject3D h r with
  | Some o => match kind o with KMesh _ _ => true | _ => false end
  | None => false
  end.

Definition isLight (h : Heap) (r : ref) : bool :=
  match getObject3D h r with
  | Some o => match kind o with KLight => true | _ => false end
  | None => false
  end.

Definition isScene (h : Heap) (r : ref) : bool :=
  match getObject3D h r with
  | Some o => match kind o with KScene => true | _ => false end
  | None => false
  end.

Definition set_visible (v : bool) (o : Object3D) : Object3D :=
  mkObject3D (uuid o) (name o) (position o) v (parent o) (children o)
             (userData_isLOD o) (kind o).

Definition set_parent (p : option ref) (o : Object3D) : Object3D :=
  mkObject3D (uuid o) (name o) (position o) (visible o) p (children o)
             (userData_isLOD o) (kind o).

Definition set_children (cs : list ref) (o : Object3D) : Object3D :=
  mkObject3D (uuid o) (name o) (position o) (visible o) (parent o) cs
             (userData_isLOD o) (kind o).

Definition set_kind (k : Object3DKind) (o : Object3D) : Object3D :=
  mkObject3D (uuid o) (name o) (position o) (visible o) (parent o) (children o)
             (userData_isLOD o) k.

Definition update3D (f : Object3D → Object3D) (r : ref) (h : Heap) : Heap :=
  match getObject3D h r with
  | Some o => store r (HObject3D (f o)) h
  | None => h
  end.

(** [object.visible = v] *)
Definition assign_visible (r : ref) (v : bool) (h : Heap) : Heap :=
  update3D (set_visible v) r h.

Definition is_visible (h : Heap) (r : ref) : option bool :=
  visible <$> getObject3D h r.

(** [x.dispose()] on a geometry, material or texture. *)
Definition dispose (r : ref) (h : Heap) : Heap :=
  match deref h r with
  | Some (HGeometry g) =>
      store r (HGeometry (mkBufferGeometry (geo_uuid g) (attributes g) (index g)
                                           (S (geo_disposed g)))) h
  | Some (HMaterial m) =>
      store r (HMaterial (mkMaterial (mat_uuid m) (isMeshStandardMaterial m) (color m)
                                     (transparent m) (opacity m) (S (mat_disposed m)))) h
  | Some (HTexture t) =>
      store r (HTexture (mkTexture (image t) (S (tex_disposed t)))) h
  | _ => h
  end.

(** How often [dispose()] was called on the object. *)
Definition disposed (h : Heap) (r : ref) : nat :=
  match deref h r with
  | Some (HGeometry g) => geo_disposed g
  | Some (HMaterial m) => mat_disposed m
  | Some (HTexture t) => tex_disposed t
  | _ => 0
  end.

(** [children.splice(children.indexOf(child), 1)] *)
Fixpoint splice_out (child : ref) (cs : list ref) : list ref :=
  match cs with
  | [] => []
  | c :: rest => if decide (c = child) then rest else c :: splice_out child rest
  end.

(** [parent.remove(child)] *)
Definition remove (p child : ref) (h : Heap) : Heap :=
  match getObject3D h p with
  | Some po =>
      if decide (child ∈ children po) then
        let h1 := update3D (set_parent None) child h in
        update3D (set_children (splice_out child (children po))) p h1
      else h
  | None => h
  end.

(** [parent.add(child)]: an object has at most one parent. *)
Definition add (p child : ref) (h : Heap) : Heap :=
  if decide (p = child) then h
  else
    match getObject3D h child with
    | Some co =>
        let h1 := match parent co with
                  | Some old => remove old child h
                  | None => h
                  end in
        let h2 := update3D (set_parent (Some p)) child h1 in
        update3D (λ po, set_children (children po ++ [child]) po) p h2
    | None => h
    end.

(** [object.clear()] *)
Definition clear (r : ref) (h : Heap) : Heap :=
  match getObject3D h r with
  | Some o =>
      let h1 := foldl (λ acc c, update3D (set_parent None) c acc) h (children o) in
      update3D (set_children []) r h1
  | None => h
  end.

(** [object.traverse(cb)] visits the object, then its descendants, in
    pre-order.  The recursion follows heap references, so it is bounded by
    [fuel]; a scene graph is a tree and its depth is at most the number of
    cells. *)
Fixpoint traverse_fuel (fuel : nat) (h : Heap) (r : ref) : list ref :=
  match fuel with
  | O => []
  | S f =>
      match getObject3D h r with
      | Some o => r :: flat_map (traverse_fuel f h) (children o)
      | None => []
      end
  end.

Definition traverse (h : Heap) (r : ref) : list ref :=
  traverse_fuel (S (size (cells h))) h r.

End Three.

(** ** State of the three services *)

(** [ResourceInfo['type']] *)
Inductive ResourceType := T_geometry | T_material | T_texture | T_mesh | T_scene.

#[global] Instance ResourceType_eq_dec : EqDecision ResourceType.
Proof. solve_decision. Defined.

Definition type_name (t : ResourceType) : string :=
  match t with
  | T_geometry => "geometry"
  | T_material => "material"
  | T_texture => "texture"
  | T_mesh => "mesh"
  | T_scene => "scene"
  end.

Record ResourceInfo := mkResourceInfo {
  id : string;
  type : ResourceType;
  size : Z;
  createdAt : Z;
  lastUsed : Z;
  refCount : Z
}.

Record DisposalOptions := mkDisposalOptions {
  force : option bool;
  maxAge : option Z;
  minRefCount : option Z
}.

Definition no_options : DisposalOptions := mkDisposalOptions None None None.

Record ResourceManagerService := mkResourceManagerService {
  resources : gmap string ResourceInfo;
  resourceObjects : gmap string Three.ref;
  disposalQueue : list string;
  (* the live interval timer: its period and the options of its callback *)
  autoCleanupInterval : option (Z * DisposalOptions);
  isAutoCleanupEnabled : bool
}.

Inductive LoadingPriority := CRITICAL | HIGH | MEDIUM | LOW.

#[global] Instance LoadingPriority_eq_dec : EqDecision LoadingPriority.
Proof. solve_decision. Defined.

(** The numeric value of the enum member. *)
Definition priority_value (p : LoadingPriority) : Z :=
  match p with
  | CRITICAL => 0
  | HIGH => 1
  | MEDIUM => 2
  | LOW => 3
  end.

Record LoadingChunk := mkLoadingChunk {
  chunk_id : string;
  priority : LoadingPriority;
  meshes : list Three.ref;
  estimatedSize : Z;
  loaded : bool
}.

Record ProgressiveLoadingOptions := mkProgressiveLoadingOptions {
  maxConcurrentChunks : Z;
  chunkSizeLimit : Z;
  priorityDelayMs : Z;
  enablePreloading : bool;
  distanceBasedLoading : bool
}.

Record ProgressiveLoaderService := mkProgressiveLoaderService {
  loadingQueue : list LoadingChunk;
  activeLoads : list string;
  loadedChunks : list (string * LoadingChunk);
  loader_camera : option Three.ref;
  loader_scene : option Three.ref;
  options : ProgressiveLoadingOptions
}.

Record WebGLRenderer := mkWebGLRenderer {
  pixelRatio : Q;
  shadowMap_enabled : bool
}.

Record OptimizationSettings := mkOptimizationSettings {
  enableLOD : bool;
  enableFrustumCulling : bool;
  enableOcclusionCulling : bool;
  maxDrawCalls : Z;
  targetFPS : Q;
  adaptiveQuality : bool
}.

Record LODConfig := mkLODConfig {
  distances : list Q;
  geometryReductions : list Js.number;
  materialSimplifications : list bool
}.

Record RenderOptimizerService := mkRenderOptimizerService {
  renderer : option WebGLRenderer;
  optimizer_scene : option Three.ref;
  optimizer_camera : option Three.ref;
  lodObjects : list (Three.ref * Three.ref);   (* Map keyed by mesh identity *)
  settings : OptimizationSettings
}.

(** The module-level singletons together with the object heap and the
    [loadChunk] calls suspended in their stagger delay. *)
Record World := mkWorld {
  heap : Three.Heap;
  resourceManager : ResourceManagerService;
  progressiveLoader : ProgressiveLoaderService;
  pendingLoads : list LoadingChunk;
  renderOptimizer : RenderOptimizerService
}.

Definition with_heap (h : Three.Heap) (w : World) : World :=
  mkWorld h (resourceManager w) (progressiveLoader w) (pendingLoads w) (renderOptimizer w).

Definition with_resourceManager (s : ResourceManagerService) (w : World) : World :=
  mkWorld (heap w) s (progressiveLoader w) (pendingLoads w) (renderOptimizer w).

Definition with_progressiveLoader (s : ProgressiveLoaderService) (w : World) : World :=
  mkWorld (heap w) (resourceManager w) s (pendingLoads w) (renderOptimizer w).

Definition with_pendingLoads (p : list LoadingChunk) (w : World) : World :=
  mkWorld (heap w) (resourceManager w) (progressiveLoader w) p (renderOptimizer w).

Definition with_renderOptimizer (s : RenderOptimizerService) (w : World) : World :=
  mkWorld (heap w) (resourceManager w) (progressiveLoader w) (pendingLoads w) s.

Definition new_ResourceManagerService : ResourceManagerService :=
  mkResourceManagerService ∅ ∅ [] None false.

Definition new_ProgressiveLoaderService : ProgressiveLoaderService :=
  mkProgressiveLoaderService [] [] [] None None
    (mkProgressiveLoadingOptions 3 (5 * 1024 * 1024) 100 true true).

Definition new_RenderOptimizerService : RenderOptimizerService :=
  mkRenderOptimizerService None None None []
    (mkOptimizationSettings true true false 100 30%Q true).

Definition defaultLODConfig : LODConfig :=
  mkLODConfig [0%Q; 20%Q; 50%Q; 100%Q]
              [Js.of_Z 0; Js.decimal 5 10; Js.decimal 75 100; Js.decimal 9 10]
              [false; false; true; true].

(** The singletons as the modules create them, over a given heap. *)
Definition initial_world (h : Three.Heap) : World :=
  mkWorld h new_ResourceManagerService new_ProgressiveLoaderService []
          new_RenderOptimizerService.

(** ** ResourceManagerService *)

Module ResourceManager.

Definition sum_Z (l : list Z) : Z := foldr Z.add 0%Z l.

(** [estimateResourceSize] *)
Definition estimateResourceSize (h : Three.Heap) (resource : Three.ref)
           (t : ResourceType) : Z :=
  match t with
  | T_geometry =>
      match Three.deref h resource with
      | Some (Three.HGeometry g) =>
          let attrs :=
            sum_Z ((λ a, if Three.isBufferAttribute a then Three.byteLength a else 0%Z)
                     <$> (snd <$> Three.attributes g)) in
          match Three.index g with
          | Some i => (attrs + Three.byteLength i)%Z
          | None => attrs
          end
      | _ => 0%Z
      end
  | T_texture =>
      match Three.deref h resource with
      | Some (Three.HTexture t) =>
          match Three.image t with
          | Some (width, height) =>
              let width := if decide (width = 0%Z) then 512%Z else width in
              let height := if decide (height = 0%Z) then 512%Z else height in
              (width * height * 4)%Z
          | None => 0%Z
          end
      | _ => 0%Z
      end
  | T_material => 1024%Z
  | T_mesh => 512%Z
  | T_scene => 256%Z
  end.

(** [generateResourceId]: [now] is [Date.now()], [rnd] the nine base-36
    digits drawn from [Math.random()]. *)
Definition generateResourceId (t : ResourceType) (now : Z) (rnd : string) : string :=
  type_name t +:+ "_" +:+ pretty now +:+ "_" +:+ rnd.

Definition set_rm (f : ResourceManagerService → ResourceManagerService) (w : World) : World :=
  with_resourceManager (f (resourceManager w)) w.

(** [registerResource(resource, type, id?)]: [id || generateResourceId(type)],
    so an absent or empty [id] is replaced by a generated one. *)
Definition registerResource (resource : Three.ref) (t : ResourceType)
           (oid : option string) (now : Z) (rnd : string) (w : World) : string * World :=
  let resourceId :=
    match oid with
    | Some i => if decide (i = "") then generateResourceId t now rnd else i
    | None => generateResourceId t now rnd
    end in
  let info := mkResourceInfo resourceId t (estimateResourceSize (heap w) resource t)
                             now now 1 in
  let s := resourceManager w in
  (resourceId,
   with_resourceManager
     (mkResourceManagerService (<[resourceId := info]> (resources s))
                               (<[resourceId := resource]> (resourceObjects s))
                               (disposalQueue s)
                               (autoCleanupInterval s) (isAutoCleanupEnabled s)) w).

Definition set_resources (m : gmap string ResourceInfo) (s : ResourceManagerService)
  : ResourceManagerService :=
  mkResourceManagerService m (resourceObjects s) (disposalQueue s)
                           (autoCleanupInterval s) (isAutoCleanupEnabled s).

Definition set_disposalQueue (q : list string) (s : ResourceManagerService)
  : ResourceManagerService :=
  mkResourceManagerService (resources s) (resourceObjects s) q
                           (autoCleanupInterval s) (isAutoCleanupEnabled s).

(** [addReference] *)
Definition addReference (resourceId : string) (now : Z) (w : World) : World :=
  let s := resourceManager w in
  match resources s !! resourceId with
  | Some info =>
      let info' := mkResourceInfo (id info) (type info) (size info) (createdAt info)
                                  now (refCount info + 1) in
      with_resourceManager (set_resources (<[resourceId := info']> (resources s)) s) w
  | None => w
  end.

(** [removeReference] *)
Definition removeReference (resourceId : string) (w : World) : World :=
  let s := resourceManager w in
  match resources s !! resourceId with
  | Some info =>
      let rc := Z.max 0 (refCount info - 1) in
      let info' := mkResourceInfo (id info) (type info) (size info) (createdAt info)
                                  (lastUsed info) rc in
      let s1 := set_resources (<[resourceId := info']> (resources s)) s in
      let s2 := if decide (rc = 0%Z)
                then set_disposalQueue (Js.Set_add resourceId (disposalQueue s1)) s1
                else s1 in
      with_resourceManager s2 w
  | None => w
  end.

(** [touchResource] *)
Definition touchResource (resourceId : string) (now : Z) (w : World) : World :=
  let s := resourceManager w in
  match resources s !! resourceId with
  | Some info =>
      let info' := mkResourceInfo (id info) (type info) (size info) (createdAt info)
                                  now (refCount info) in
      with_resourceManager (set_resources (<[resourceId := info']> (resources s)) s) w
  | None => w
  end.

(** [disposeMesh] *)
Definition disposeMesh (m : Three.ref) (h : Three.Heap) : Three.Heap :=
  match Three.getObject3D h m with
  | Some o =>
      match Three.kind o with
      | Three.KMesh geometry material =>
          let h1 := match geometry with
                    | Some g => Three.dispose g h
                    | None => h
                    end in
          let h2 := match material with
                    | Three.NoMaterial => h1
                    | Three.OneMaterial r => Three.dispose r h1
                    | Three.MaterialArray rs => foldl (λ acc r, Three.dispose r acc) h1 rs
                    end in
          match Three.parent o with
          | Some p => Three.remove p m h2
          | None => h2
          end
      | _ => h
      end
  | None => h
  end.

(** [disposeScene]: the objects are collected first, then handled in
    reverse order (children before parents), then the scene is cleared. *)
Definition disposeScene (s : Three.ref) (h : Three.Heap) : Three.Heap :=
  let objectsToDispose := Three.traverse h s in
  let h1 :=
    foldl (λ acc object,
             if Three.isMesh acc object then disposeMesh object acc
             else if Three.isLight acc object then
               match Three.getObject3D acc object with
               | Some o => match Three.parent o with
                           | Some p => Three.remove p object acc
                           | None => acc
                           end
               | None => acc
               end
             else acc)
          h (reverse objectsToDispose) in
  Three.clear s h1.

(** [disposeResource(resourceId, force = false)] *)
Definition disposeResource (resourceId : string) (force : bool) (w : World) : bool * World :=
  let s := resourceManager w in
  match resources s !! resourceId, resourceObjects s !! resourceId with
  | Some info, Some resource =>
      if negb force && bool_decide (0 < refCount info)%Z then (false, w)
      else
        let h := heap w in
        let h' :=
          match type info with
          | T_geometry =>
              match Three.deref h resource with
              | Some (Three.HGeometry _) => Three.dispose resource h
              | _ => h
              end
          | T_material =>
              match Three.deref h resource with
              | Some (Three.HMaterial _) => Three.dispose resource h
              | _ => h
              end
          | T_texture =>
              match Three.deref h resource with
              | Some (Three.HTexture _) => Three.dispose resource h
              | _ => h
              end
          | T_mesh =>
              if Three.isMesh h resource then disposeMesh resource h else h
          | T_scene =>
              if Three.isScene h resource then disposeScene resource h else h
          end in
        (true,
         with_heap h'
           (with_resourceManager
              (mkResourceManagerService (delete resourceId (resources s))
                                        (delete resourceId (resourceObjects s))
                                        (Js.Set_delete resourceId (disposalQueue s))
                                        (autoCleanupInterval s) (isAutoCleanupEnabled s)) w))
  | _, _ => (false, w)
  end.

(** The loop shared by [processDisposalQueue], [cleanup] and [disposeAll]:
    call [disposeResource] on each id in turn and count the successes. *)
Definition disposeEach (ids : list string) (force : bool) (w : World) : Z * World :=
  foldl (λ acc resourceId,
           let '(ok, w') := disposeResource resourceId force (snd acc) in
           ((if ok then fst acc + 1 else fst acc)%Z, w'))
        (0%Z, w) ids.

(** [processDisposalQueue]: iterating the [Set] while [disposeResource]
    deletes the id being visited reaches every queued id once. *)
Definition processDisposalQueue (w : World) : Z * World :=
  disposeEach (disposalQueue (resourceManager w)) false w.

(** [cleanup(options = {})] *)
Definition cleanup (opts : DisposalOptions) (now : Z) (w : World) : Z * World :=
  let force := default false (force opts) in
  let maxAge := default (5 * 60 * 1000)%Z (maxAge opts) in
  let minRefCount := default 0%Z (minRefCount opts) in
  let toDispose :=
    fst <$> filter (λ entry : string * ResourceInfo,
                      let info := snd entry in
                      let age := (now - lastUsed info)%Z in
                      force = true ∨ ((refCount info ≤ minRefCount)%Z ∧ (maxAge < age)%Z))
                   (map_to_list (resources (resourceManager w))) in
  disposeEach toDispose force w.

(** [disableAutoCleanup] *)
Definition disableAutoCleanup (w : World) : World :=
  let s := resourceManager w in
  with_resourceManager
    (mkResourceManagerService (resources s) (resourceObjects s) (disposalQueue s)
                              None false) w.

(** [enableAutoCleanup(intervalMs = 60000, options = {})] *)
Definition enableAutoCleanup (intervalMs : Z) (opts : DisposalOptions) (w : World) : World :=
  let w1 := if isAutoCleanupEnabled (resourceManager w) then disableAutoCleanup w else w in
  let s := resourceManager w1 in
  with_resourceManager
    (mkResourceManagerService (resources s) (resourceObjects s) (disposalQueue s)
                              (Some (intervalMs, opts)) true) w1.

(** The callback handed to [setInterval], run when the timer fires. *)
Definition autoCleanupTick (now : Z) (w : World) : World :=
  match autoCleanupInterval (resourceManager w) with
  | Some (_, opts) => snd (processDisposalQueue (snd (cleanup opts now w)))
  | None => w
  end.

Record ResourceStats := mkResourceStats {
  totalResources : Z;
  totalSize : Z;
  byType : ResourceType → option (Z * Z);      (* count, size *)
  queuedForDisposal : Z
}.

(** [getResourceStats] *)
Definition getResourceStats (w : World) : ResourceStats :=
  let s := resourceManager w in
  let infos := snd <$> map_to_list (resources s) in
  mkResourceStats
    (Z.of_nat (base.size (resources s)))
    (sum_Z (size <$> infos))
    (λ t, let of_t := filter (λ info, type info = t) infos in
          if decide (of_t = []) then None
          else Some (Z.of_nat (length of_t), sum_Z (size <$> of_t)))
    (Js.Set_size (disposalQueue s)).

(** [getResourceInfo] *)
Definition getResourceInfo (resourceId : string) (w : World) : option ResourceInfo :=
  resources (resourceManager w) !! resourceId.

(** [getResourcesByType] *)
Definition getResourcesByType (t : ResourceType) (w : World) : list ResourceInfo :=
  filter (λ info, type info = t) (snd <$> map_to_list (resources (resourceManager w))).

(** [getStaleResources(maxAge = 5 * 60 * 1000)] *)
Definition getStaleResources (maxAge : Z) (now : Z) (w : World) : list ResourceInfo :=
  filter (λ info, (maxAge < now - lastUsed info)%Z)
         (snd <$> map_to_list (resources (resourceManager w))).

(** [disposeAll] *)
Definition disposeAll (w : World) : World :=
  snd (disposeEach (fst <$> map_to_list (resources (resourceManager w))) true w).

(** [dispose]: tear the manager itself down. *)
Definition dispose (w : World) : World :=
  let w1 := disposeAll (disableAutoCleanup w) in
  let s := resourceManager w1 in
  with_resourceManager
    (mkResourceManagerService ∅ ∅ [] (autoCleanupInterval s) (isAutoCleanupEnabled s)) w1.

(** *** Calls on the manager, and runs of them *)

Inductive Call :=
| call_registerResource (resource : Three.ref) (t : ResourceType) (oid : option string)
                        (now : Z) (rnd : string)
| call_addReference (resourceId : string) (now : Z)
| call_removeReference (resourceId : string)
| call_touchResource (resourceId : string) (now : Z)
| call_disposeResource (resourceId : string) (force : bool)
| call_processDisposalQueue
| call_cleanup (opts : DisposalOptions) (now : Z)
| call_enableAutoCleanup (intervalMs : Z) (opts : DisposalOptions)
| call_disableAutoCleanup
| call_autoCleanupTick (now : Z)
| call_disposeAll
| call_dispose
(* anything the rest of the program does to the scene objects in between *)
| other_heap_update (f : Three.Heap → Three.Heap).

Definition exec (c : Call) (w : World) : World :=
  match c with
  | call_registerResource resource t oid now rnd =>
      snd (registerResource resource t oid now rnd w)
  | call_addReference resourceId now => addReference resourceId now w
  | call_removeReference resourceId => removeReference resourceId w
  | call_touchResource resourceId now => touchResource resourceId now w
  | call_disposeResource resourceId force => snd (disposeResource resourceId force w)
  | call_processDisposalQueue => snd (processDisposalQueue w)
  | call_cleanup opts now => snd (cleanup opts now w)
  | call_enableAutoCleanup intervalMs opts => enableAutoCleanup intervalMs opts w
  | call_disableAutoCleanup => disableAutoCleanup w
  | call_autoCleanupTick now => autoCleanupTick now w
  | call_disposeAll => disposeAll w
  | call_dispose => dispose w
  | other_heap_update f => with_heap (f (heap w)) w
  end.

Definition run (cs : list Call) (w : World) : World :=
  foldl (λ acc c, exec c acc) w cs.

End ResourceManager.

(** ** ProgressiveLoaderService *)

Module ProgressiveLoader.

Definition set_loader (f : ProgressiveLoaderService → ProgressiveLoaderService)
           (w : World) : World :=
  with_progressiveLoader (f (progressiveLoader w)) w.

Definition set_loadingQueue (q : list LoadingChunk) (s : ProgressiveLoaderService) :=
  mkProgressiveLoaderService q (activeLoads s) (loadedChunks s) (loader_camera s)
                             (loader_scene s) (options s).

Definition set_activeLoads (a : list string) (s : ProgressiveLoaderService) :=
  mkProgressiveLoaderService (loadingQueue s) a (loadedChunks s) (loader_camera s)
                             (loader_scene s) (options s).

Definition set_loadedChunks (l : list (string * LoadingChunk)) (s : ProgressiveLoaderService) :=
  mkProgressiveLoaderService (loadingQueue s) (activeLoads s) l (loader_camera s)
                             (loader_scene s) (options s).

(** [initialize(scene, camera)] *)
Definition initialize (scene camera : Three.ref) (w : World) : World :=
  set_loader (λ s, mkProgressiveLoaderService (loadingQueue s) (activeLoads s)
                     (loadedChunks s) (Some camera) (Some scene) (options s)) w.

(** [updateOptions]: the new options as merged by the caller. *)
Definition updateOptions (o : ProgressiveLoadingOptions) (w : World) : World :=
  set_loader (λ s, mkProgressiveLoaderService (loadingQueue s) (activeLoads s)
                     (loadedChunks s) (loader_camera s) (loader_scene s) o) w.

(** [getTriangleCount]: [count / 3] is a division of doubles.  The
    geometry is read without a guard: for a mesh that has none,
    [geometry.index] throws a TypeError. *)
Definition getTriangleCount (h : Three.Heap) (mesh : Three.ref) : option Js.number :=
  match Three.getObject3D h mesh with
  | Some o =>
      match Three.kind o with
      | Three.KMesh (Some g) _ =>
          match Three.deref h g with
          | Some (Three.HGeometry geometry) =>
              match Three.index geometry with
              | Some i => Some (PrimFloat.div (Three.count i) (Js.of_Z 3))
              | None =>
                  match snd <$> list_find (λ a, fst a = "position")
                                          (Three.attributes geometry) with
                  | Some (_, position) =>
                      Some (PrimFloat.div (Three.count position) (Js.of_Z 3))
                  | None => Some (Js.of_Z 0)
                  end
              end
          | _ => None
          end
      | _ => None
      end
  | None => None
  end.

(** [determineMeshPriority]: the name decides first; only a name without
    any keyword makes the triangle count be read. *)
Definition determineMeshPriority (h : Three.Heap) (mesh : Three.ref)
  : option LoadingPriority :=
  let name := Js.toLowerCase (default "" (Three.name <$> Three.getObject3D h mesh)) in
  if Js.includes name "structure" || Js.includes name "foundation" || Js.includes name "core"
  then Some CRITICAL
  else if Js.includes name "panel" || Js.includes name "facade" || Js.includes name "wall"
  then Some HIGH
  else if Js.includes name "detail" || Js.includes name "trim" || Js.includes name "fixture"
  then Some MEDIUM
  else
    match getTriangleCount h mesh with
    | Some triangleCount =>
        if Js.gt triangleCount (Js.of_Z 10000) then Some HIGH
        else if Js.gt triangleCount (Js.of_Z 1000) then Some MEDIUM
        else Some LOW
    | None => None
    end.

(** [groupMeshesByPriority]: each group keeps the order of [meshes]; the
    call throws when [determineMeshPriority] throws for one of them. *)
Definition groupMeshesByPriority (h : Three.Heap) (meshes : list Three.ref)
  : option (LoadingPriority → list Three.ref) :=
  if decide (Forall (λ mesh, is_Some (determineMeshPriority h mesh)) meshes)
  then Some (λ p, filter (λ mesh, determineMeshPriority h mesh = Some p) meshes)
  else None.

(** [estimateMeshSize] *)
Definition estimateMeshSize (h : Three.Heap) (mesh : Three.ref) : Z :=
  let geometrySize :=
    match Three.getObject3D h mesh with
    | Some o =>
        match Three.kind o with
        | Three.KMesh (Some g) _ =>
            match Three.deref h g with
            | Some (Three.HGeometry geometry) =>
                let attrs :=
                  ResourceManager.sum_Z
                    ((λ a, if Three.isBufferAttribute a then Three.byteLength a else 0%Z)
                       <$> (snd <$> Three.attributes geometry)) in
                match Three.index geometry with
                | Some i => (attrs + Three.byteLength i)%Z
                | None => attrs
                end
            | _ => 0%Z
            end
        | _ => 0%Z
        end
    | None => 0%Z
    end in
  (geometrySize + 1024)%Z.

(** [createChunk]: [stamp] stands for the [${Date.now()}_${random}] tail of
    the id. *)
Definition createChunk (meshes : list Three.ref) (p : LoadingPriority) (size : Z)
           (stamp : string) : LoadingChunk :=
  mkLoadingChunk ("chunk_" +:+ pretty (priority_value p) +:+ "_" +:+ stamp)
                 p meshes size false.

(** The variables of the loop in [createChunksFromMeshes]. *)
Record Chunking := mkChunking {
  chunks : list LoadingChunk;
  currentChunk : list Three.ref;
  currentSize : Z
}.

(** One iteration of [meshes.forEach] in [createChunksFromMeshes]; the
    k-th chunk created gets the tail [stamp k]. *)
Definition chunk_step (limit : Z) (p : LoadingPriority) (stamp : nat → string)
           (meshSize : Three.ref → Z) (st : Chunking) (mesh : Three.ref) : Chunking :=
  let st1 :=
    if bool_decide (limit < currentSize st + meshSize mesh)%Z
       && bool_decide (0 < length (currentChunk st))%nat
    then mkChunking (chunks st ++ [createChunk (currentChunk st) p (currentSize st)
                                               (stamp (length (chunks st)))])
                    [] 0%Z
    else st in
  mkChunking (chunks st1) (currentChunk st1 ++ [mesh]) (currentSize st1 + meshSize mesh)%Z.

(** [createChunksFromMeshes], parameterised by the size estimate. *)
Definition createChunksWith (limit : Z) (p : LoadingPriority) (stamp : nat → string)
           (meshSize : Three.ref → Z) (meshes : list Three.ref) : list LoadingChunk :=
  let st := foldl (chunk_step limit p stamp meshSize) (mkChunking [] [] 0%Z) meshes in
  if bool_decide (0 < length (currentChunk st))%nat
  then chunks st ++ [createChunk (currentChunk st) p (currentSize st)
                                 (stamp (length (chunks st)))]
  else chunks st.

(** [createChunksFromMeshes] *)
Definition createChunksFromMeshes (w : World) (stamp : nat → string)
           (meshes : list Three.ref) (p : LoadingPriority) : list LoadingChunk :=
  createChunksWith (chunkSizeLimit (options (progressiveLoader w))) p stamp
                   (estimateMeshSize (heap w)) meshes.

(** [analyzeAndChunkModel]: [Object.entries] lists the integer-like keys
    of the groups in ascending order.  [stamp p k] is the tail of the id
    of the k-th chunk of priority [p]. *)
Definition analyzeAndChunkModel (w : World) (stamp : LoadingPriority → nat → string)
           (scene : Three.ref) : option (list LoadingChunk) :=
  let meshes := filter (λ object, Three.isMesh (heap w) object = true)
                       (Three.traverse (heap w) scene) in
  match groupMeshesByPriority (heap w) meshes with
  | Some priorityGroups =>
      Some (flat_map (λ p, createChunksFromMeshes w (stamp p) (priorityGroups p) p)
                     [CRITICAL; HIGH; MEDIUM; LOW])
  | None => None
  end.

(** [chunks.sort((a, b) => a.priority - b.priority)]: the sort is stable. *)
Fixpoint insert_by_priority (c : LoadingChunk) (l : list LoadingChunk) : list LoadingChunk :=
  match l with
  | [] => [c]
  | d :: rest =>
      if bool_decide (priority_value (priority c) < priority_value (priority d))%Z
      then c :: d :: rest
      else d :: insert_by_priority c rest
  end.

Definition sort_by_priority (l : list LoadingChunk) : list LoadingChunk :=
  foldl (λ acc c, insert_by_priority c acc) [] l.

(** [loadModelProgressively] up to the point where the loop starts: the
    model has been loaded (its scene is in the heap), is analysed and
    chunked, and the sorted chunks become the loading queue.  When the
    analysis throws the call rethrows before the queue is assigned: the
    result is [None] and the world stays as it was. *)
Definition loadModelProgressively_prepare (stamp : LoadingPriority → nat → string)
           (scene : Three.ref) (w : World) : option World :=
  match analyzeAndChunkModel w stamp scene with
  | Some chunks => Some (set_loader (set_loadingQueue (sort_by_priority chunks)) w)
  | None => None
  end.

(** The body of the first [forEach] of [loadChunk], for one mesh. *)
Definition register_mesh (now : Z) (mesh : Three.ref) (w : World) : World :=
  let w1 := with_heap (Three.assign_visible mesh false (heap w)) w in
  match Three.getObject3D (heap w1) mesh with
  | Some o =>
      let w2 := snd (ResourceManager.registerResource
                       mesh T_mesh (Some ("mesh_" +:+ Three.uuid o)) now "" w1) in
      match Three.kind o with
      | Three.KMesh geometry material =>
          let w3 :=
            match geometry with
            | Some g =>
                match Three.deref (heap w2) g with
                | Some (Three.HGeometry geo) =>
                    snd (ResourceManager.registerResource
                           g T_geometry (Some ("geo_" +:+ Three.geo_uuid geo)) now "" w2)
                | _ => w2
                end
            | None => w2
            end in
          let materials :=
            match material with
            | Three.NoMaterial => []
            | Three.OneMaterial m => [m]
            | Three.MaterialArray ms => ms
            end in
          foldl (λ acc im,
                   snd (ResourceManager.registerResource
                          (snd im) T_material
                          (Some ("mat_" +:+ Three.uuid o +:+ "_" +:+ pretty (fst im)))
                          now "" acc))
                w3 (imap (λ i m, (i, m)) materials)
      | _ => w2
      end
  | None => w1
  end.

(** [loadChunk] up to its [await]: the chunk joins the active set, its
    meshes are hidden and registered. *)
Definition loadChunk_begin (chunk : LoadingChunk) (now : Z) (w : World) : World :=
  let w1 := set_loader (λ s, set_activeLoads (Js.Set_add (chunk_id chunk) (activeLoads s)) s) w in
  foldl (λ acc mesh, register_mesh now mesh acc) w1 (meshes chunk).

(** [chunk.priority * this.options.priorityDelayMs] *)
Definition delay (chunk : LoadingChunk) (w : World) : Z :=
  (priority_value (priority chunk) * priorityDelayMs (options (progressiveLoader w)))%Z.

(** [loadChunk] after the delay: the meshes are shown, the chunk is marked
    loaded and stored, and (in [finally]) it leaves the active set. *)
Definition loadChunk_finish (chunk : LoadingChunk) (w : World) : World :=
  let h := foldl (λ acc mesh, Three.assign_visible mesh true acc) (heap w) (meshes chunk) in
  let chunk' := mkLoadingChunk (chunk_id chunk) (priority chunk) (meshes chunk)
                               (estimatedSize chunk) true in
  set_loader (λ s, set_activeLoads (Js.Set_delete (chunk_id chunk) (activeLoads s))
                     (set_loadedChunks (Js.Map_set (chunk_id chunk) chunk' (loadedChunks s)) s))
             (with_heap h w).

(** [loadChunk] as far as it runs before returning its promise: with a
    positive delay it is suspended, otherwise it runs to its end. *)
Definition loadChunk (chunk : LoadingChunk) (now : Z) (w : World) : World :=
  let w1 := loadChunk_begin chunk now w in
  if bool_decide (0 < delay chunk w1)%Z
  then with_pendingLoads (pendingLoads w1 ++ [chunk]) w1
  else loadChunk_finish chunk w1.

(** [reset] *)
Definition reset (w : World) : World :=
  set_loader (λ s, mkProgressiveLoaderService [] [] [] (loader_camera s) (loader_scene s)
                                              (options s)) w.

(** The schedule in which every chunk finishes before the next one is
    started. *)
Fixpoint load_in_turn (queue : list LoadingChunk) (now : Z) (w : World) : World :=
  match queue with
  | [] => w
  | chunk :: rest =>
      let w1 := loadChunk_begin chunk now (set_loader (set_loadingQueue rest) w) in
      load_in_turn rest now (loadChunk_finish chunk w1)
  end.

(** *** The loading loop as a transition system

    [processLoadingQueue] interleaves with the suspended [loadChunk] calls
    at every [await].  Its executions are the paths of [step]: the inner
    loop starts the chunk at the head of the queue while the active set is
    below the cap; a started chunk finishes at any later time (at once,
    when it has no delay); the outer loop reports progress.  [reset] and a
    new queue may arrive from outside at any time. *)

Inductive Event :=
| ev_start (chunk : LoadingChunk)
| ev_finish (chunk : LoadingChunk)
| ev_progress (loadedCount totalChunks : Z)
| ev_reset
| ev_queue (chunks : list LoadingChunk).

(** The inner loop's body: [loadingQueue.shift()] and the call of
    [loadChunk], which runs up to its [await] and is then suspended. *)
Definition start_chunk (chunk : LoadingChunk) (rest : list LoadingChunk) (now : Z)
           (w : World) : World :=
  let w1 := loadChunk_begin chunk now (set_loader (set_loadingQueue rest) w) in
  with_pendingLoads (pendingLoads w1 ++ [chunk]) w1.

Inductive step : World → Event → World → Prop :=
| step_start w chunk rest now :
    loadingQueue (progressiveLoader w) = chunk :: rest →
    (Js.Set_size (activeLoads (progressiveLoader w))
     < maxConcurrentChunks (options (progressiveLoader w)))%Z →
    step w (ev_start chunk) (start_chunk chunk rest now w)
| step_finish w chunk before after :
    pendingLoads w = before ++ chunk :: after →
    step w (ev_finish chunk) (loadChunk_finish chunk (with_pendingLoads (before ++ after) w))
| step_progress w totalChunks :
    step w (ev_progress (Z.of_nat (length (loadedChunks (progressiveLoader w)))) totalChunks) w
| step_reset w :
    step w ev_reset (reset w)
| step_queue w chunks :
    step w (ev_queue chunks) (set_loader (set_loadingQueue chunks) w).

(** Executions: the events in the order they happen. *)
Inductive steps : World → list Event → World → Prop :=
| steps_nil w : steps w [] w
| steps_cons w1 w2 w3 ev evs :
    step w1 ev w2 → steps w2 evs w3 → steps w1 (ev :: evs) w3.

(** The chunks activated by an execution, in activation order. *)
Definition started (evs : list Event) : list LoadingChunk :=
  flat_map (λ ev, match ev with ev_start c => [c] | _ => [] end) evs.

(** An execution of the loop alone: nothing arrives from outside. *)
Definition loop_only (evs : list Event) : Prop :=
  Forall (λ ev, match ev with ev_reset | ev_queue _ => False | _ => True end) evs.

(** The decision [updateDistanceBasedLoading] takes for one mesh. *)
Definition shown_at (p : LoadingPriority) (cameraPosition meshPosition : Three.Vector3) : bool :=
  let distance := Three.distanceTo cameraPosition meshPosition in
  if bool_decide (priority_value MEDIUM ≤ priority_value p)%Z
     && Js.gt distance (Js.of_Z 100)
  then false
  else if bool_decide (priority_value LOW ≤ priority_value p)%Z
          && Js.gt distance (Js.of_Z 50)
  then false
  else true.

(** [updateDistanceBasedLoading] *)
Definition updateDistanceBasedLoading (w : World) : World :=
  let s := progressiveLoader w in
  match distanceBasedLoading (options s), loader_camera s, loader_scene s with
  | true, Some camera, Some _ =>
      match Three.getObject3D (heap w) camera with
      | Some cam =>
          let cameraPosition := Three.position cam in
          let h :=
            foldl (λ acc chunk,
                     foldl (λ acc' mesh,
                              match Three.getObject3D acc' mesh with
                              | Some o =>
                                  Three.assign_visible
                                    mesh (shown_at (priority chunk) cameraPosition
                                                   (Three.position o)) acc'
                              | None => acc'
                              end)
                           acc (meshes chunk))
                  (heap w) (Js.Map_values (loadedChunks s)) in
          with_heap h w
      | None => w
      end
  | _, _, _ => w
  end.

Record LoadingStats := mkLoadingStats {
  totalChunks : Z;
  loadedChunksCount : Z;
  activeLoadsCount : Z;
  queuedChunks : Z;
  totalSize : Z;
  loadedSize : Z
}.

(** [getLoadingStats] *)
Definition getLoadingStats (w : World) : LoadingStats :=
  let s := progressiveLoader w in
  let loadedSize :=
    ResourceManager.sum_Z (estimatedSize <$> Js.Map_values (loadedChunks s)) in
  mkLoadingStats
    (Z.of_nat (length (loadedChunks s)) + Z.of_nat (length (loadingQueue s))
     + Js.Set_size (activeLoads s))%Z
    (Z.of_nat (length (loadedChunks s)))
    (Js.Set_size (activeLoads s))
    (Z.of_nat (length (loadingQueue s)))
    (loadedSize + ResourceManager.sum_Z (estimatedSize <$> loadingQueue s))%Z
    loadedSize.

End ProgressiveLoader.

(** ** RenderOptimizerService *)

Module RenderOptimizer.

Definition set_optimizer (f : RenderOptimizerService → RenderOptimizerService)
           (w : World) : World :=
  with_renderOptimizer (f (renderOptimizer w)) w.

Definition set_renderer (r : option WebGLRenderer) (s : RenderOptimizerService) :=
  mkRenderOptimizerService r (optimizer_scene s) (optimizer_camera s) (lodObjects s)
                           (settings s).

Definition set_lodObjects (l : list (Three.ref * Three.ref)) (s : RenderOptimizerService) :=
  mkRenderOptimizerService (renderer s) (optimizer_scene s) (optimizer_camera s) l
                           (settings s).

(** [Math.min(window.devicePixelRatio, 2)] *)
Definition maxPixelRatio (devicePixelRatio : Q) : Q := Js.Math_min devicePixelRatio 2.

(** [setupRendererOptimizations] *)
Definition setupRendererOptimizations (devicePixelRatio : Q) (w : World) : World :=
  match renderer (renderOptimizer w) with
  | Some _ =>
      set_optimizer (set_renderer (Some (mkWebGLRenderer (maxPixelRatio devicePixelRatio) true))) w
  | None => w
  end.

(** [initialize(renderer, scene, camera)] *)
Definition initialize (r : WebGLRenderer) (scene camera : Three.ref)
           (devicePixelRatio : Q) (w : World) : World :=
  setupRendererOptimizations devicePixelRatio
    (set_optimizer (λ s, mkRenderOptimizerService (Some r) (Some scene) (Some camera)
                           (lodObjects s) (settings s)) w).

(** [updateSettings]: the new settings as merged by the caller. *)
Definition updateSettings (o : OptimizationSettings) (w : World) : World :=
  set_optimizer (λ s, mkRenderOptimizerService (renderer s) (optimizer_scene s)
                        (optimizer_camera s) (lodObjects s) o) w.

(** [geometry.clone()]: a new geometry with the same buffers' contents. *)
Definition clone_geometry (new_uuid : Three.ref → string) (geo : Three.BufferGeometry)
           (h : Three.Heap) : Three.ref * Three.Heap :=
  Three.alloc (Three.HGeometry
                 (Three.mkBufferGeometry (new_uuid (Three.fresh h)) (Three.attributes geo)
                                         (Three.index geo) 0)) h.

(** The indices [0, step, 2 step, ...] for which [below] holds, up to the
    first for which it does not. *)
Fixpoint every_nth (fuel : nat) (i step : nat) (below : nat → bool) : list nat :=
  match fuel with
  | O => []
  | S f => if below i then i :: every_nth f (i + step) step below else []
  end.

(** The step of the loop of [simplifyGeometry],
    [Math.max(1, Math.floor(count / targetCount))] with
    [targetCount = Math.floor(count * (1 - reduction))], computed on
    doubles.  [Math.max] compares two integers, exactly.  [None] is a step
    of [+Infinity] or [NaN] (a target of zero, or no count at all). *)
Definition decimate_step (count reduction : Js.number) : option nat :=
  let targetCount :=
    Js.Math_floor (PrimFloat.mul count (PrimFloat.sub (Js.of_Z 1) reduction)) in
  match Js.integer_value (Js.Math_floor (PrimFloat.div count targetCount)) with
  | Js.Finite z => Some (Z.to_nat (Z.max 1 z))
  | Js.MinusInfinity => Some 1
  | Js.PlusInfinity | Js.NaN => None
  end.

(** The loop of [simplifyGeometry]: the kept index values.  With a finite
    step the loop visits [0, step, 2 step, ...] while [i < count]; with an
    infinite or undefined one the test fails after the first turn. *)
Definition decimate (indices : Three.BufferAttribute) (reduction : Js.number) : list Z :=
  match decimate_step (Three.count indices) reduction with
  | Some step =>
      Three.getX indices
        <$> every_nth (length (Three.array indices)) 0 step (Three.below_count indices)
  | None =>
      if Three.below_count indices 0 then [Three.getX indices 0] else []
  end.

(** [geometry.setIndex(number[])]: 32-bit indices when a value needs them. *)
Definition index_of_array (values : list Z) : Three.BufferAttribute :=
  Three.mkBufferAttribute true values 1
    (if existsb (λ v, bool_decide (65535 ≤ v)%Z) values then 4 else 2).

(** [computeVertexNormals]: a geometry with positions gets a normal
    attribute of the same shape (its values are not modelled). *)
Definition computeVertexNormals (attrs : list (string * Three.BufferAttribute))
  : list (string * Three.BufferAttribute) :=
  match snd <$> list_find (λ a, fst a = "position") attrs with
  | Some (_, position) =>
      let normal := Three.mkBufferAttribute true
                      (replicate (length (Three.array position) / Three.itemSize position * 3)
                                 0%Z) 3 4 in
      Js.Map_set "normal" normal attrs
  | None => attrs
  end.

(** [simplifyGeometry] *)
Definition simplifyGeometry (new_uuid : Three.ref → string) (geometry : Three.ref)
           (reduction : Js.number) (h : Three.Heap) : Three.ref * Three.Heap :=
  match Three.deref h geometry with
  | Some (Three.HGeometry geo) =>
      match list_find (λ a, fst a = "position") (Three.attributes geo), Three.index geo with
      | Some _, Some indices =>
          let newIndices := decimate indices reduction in
          Three.alloc
            (Three.HGeometry
               (Three.mkBufferGeometry (new_uuid (Three.fresh h))
                                       (computeVertexNormals (Three.attributes geo))
                                       (Some (index_of_array newIndices)) 0)) h
      | _, _ => (geometry, h)
      end
  | _ => (geometry, h)
  end.

(** [new THREE.MeshBasicMaterial(...)] *)
Definition new_MeshBasicMaterial (new_uuid : Three.ref → string) (color : Z)
           (transparent : bool) (opacity : Q) (h : Three.Heap) : Three.ref * Three.Heap :=
  Three.alloc (Three.HMaterial
                 (Three.mkMaterial (new_uuid (Three.fresh h)) false color transparent
                                   opacity 0)) h.

(** [simplifyMaterial]: [None] stands for [undefined] (the first entry of
    an empty array). *)
Definition simplifyMaterial (new_uuid : Three.ref → string) (material : Three.MaterialSlot)
           (h : Three.Heap) : option Three.ref * Three.Heap :=
  let material :=
    match material with
    | Three.NoMaterial => None
    | Three.OneMaterial m => Some m
    | Three.MaterialArray ms => head ms
    end in
  match material with
  | Some m =>
      match Three.deref h m with
      | Some (Three.HMaterial mat) =>
          if Three.isMeshStandardMaterial mat then
            let '(m', h') := new_MeshBasicMaterial new_uuid (Three.color mat)
                               (Three.transparent mat) (Three.opacity mat) h in
            (Some m', h')
          else (Some m, h)
      | _ => (Some m, h)
      end
  | None => (None, h)
  end.

(** [new THREE.Mesh(geometry, material)] with [userData.isLOD = true]; a
    missing material is replaced by a default basic material. *)
Definition new_Mesh (new_uuid : Three.ref → string) (geometry : Three.ref)
           (material : Three.MaterialSlot) (h : Three.Heap) : Three.ref * Three.Heap :=
  let '(material, h1) :=
    match material with
    | Three.NoMaterial =>
        let '(m, h') := new_MeshBasicMaterial new_uuid 16777215 false 1 h in
        (Three.OneMaterial m, h')
    | _ => (material, h)
    end in
  Three.alloc (Three.HObject3D
                 (Three.mkObject3D (new_uuid (Three.fresh h1)) "" (Three.vector3 0 0 0) true
                                   None [] true (Three.KMesh (Some geometry) material))) h1.

(** [createSimplifiedMesh]: [None] when the construction throws (a mesh
    without geometry cannot be cloned). *)
Definition createSimplifiedMesh (new_uuid : Three.ref → string) (originalMesh : Three.ref)
           (geometryReduction : Js.number) (simplify : bool) (h : Three.Heap)
  : option Three.ref * Three.Heap :=
  match Three.getObject3D h originalMesh with
  | Some o =>
      match Three.kind o with
      | Three.KMesh (Some g) material =>
          match Three.deref h g with
          | Some (Three.HGeometry geo) =>
              let '(geometry, h1) := clone_geometry new_uuid geo h in
              let '(geometry, h2) :=
                if Js.gt geometryReduction (Js.of_Z 0)
                then simplifyGeometry new_uuid geometry geometryReduction h1
                else (geometry, h1) in
              let '(material, h3) :=
                if simplify then
                  let '(m, h') := simplifyMaterial new_uuid material h2 in
                  (match m with Some m => Three.OneMaterial m | None => Three.NoMaterial end, h')
                else (material, h2) in
              let '(simplifiedMesh, h4) := new_Mesh new_uuid geometry material h3 in
              (Some simplifiedMesh, h4)
          | _ => (None, h)
          end
      | _ => (None, h)
      end
  | None => (None, h)
  end.

(** [lod.addLevel(object, distance)]: the levels stay sorted by distance
    and the object becomes a child of the LOD. *)
Fixpoint insert_level (object : Three.ref) (distance : Q) (levels : list (Three.ref * Q))
  : list (Three.ref * Q) :=
  match levels with
  | [] => [(object, distance)]
  | (o, d) :: rest =>
      if Js.Qlt_bool distance d then (object, distance) :: (o, d) :: rest
      else (o, d) :: insert_level object distance rest
  end.

Definition addLevel (lod object : Three.ref) (distance : Q) (h : Three.Heap) : Three.Heap :=
  let h1 :=
    Three.update3D (λ l, match Three.kind l with
                         | Three.KLOD levels =>
                             Three.set_kind (Three.KLOD (insert_level object (Qabs distance) levels)) l
                         | _ => l
                         end) lod h in
  Three.add lod object h1.

(** The levels of a LOD object. *)
Definition levels_of (h : Three.Heap) (lod : Three.ref) : list (Three.ref * Q) :=
  match Three.getObject3D h lod with
  | Some l => match Three.kind l with Three.KLOD levels => levels | _ => [] end
  | None => []
  end.

(** [createLODForMesh(mesh, config)] *)
Definition createLODForMesh (new_uuid : Three.ref → string) (mesh : Three.ref)
           (config : LODConfig) (w : World) : Three.ref * World :=
  let h := heap w in
  let '(lod, h0) :=
    Three.alloc (Three.HObject3D
                   (Three.mkObject3D (new_uuid (Three.fresh h)) "" (Three.vector3 0 0 0)
                                     true None [] false (Three.KLOD []))) h in
  let h1 := addLevel lod mesh (nth 0 (distances config) 0%Q) h0 in
  let h2 :=
    foldl (λ acc i,
             let '(simplifiedMesh, acc') :=
               createSimplifiedMesh new_uuid mesh
                                    (nth i (geometryReductions config) (Js.of_Z 0))
                                    (nth i (materialSimplifications config) false) acc in
             match simplifiedMesh with
             | Some m => addLevel lod m (nth i (distances config) 0%Q) acc'
             | None => acc'
             end)
          h1 (seq 1 (length (distances config) - 1)) in
  (lod,
   set_optimizer (λ s, set_lodObjects (Js.Map_set mesh lod (lodObjects s)) s) (with_heap h2 w)).

(** [applyLODToScene(config)] *)
Definition applyLODToScene (new_uuid : Three.ref → string) (config : LODConfig)
           (w : World) : World :=
  match optimizer_scene (renderOptimizer w) with
  | Some scene =>
      let meshes :=
        filter (λ object,
                  (Three.isMesh (heap w) object
                   && negb (default false
                              (Three.userData_isLOD <$> Three.getObject3D (heap w) object)))
                  = true)
               (Three.traverse (heap w) scene) in
      foldl (λ acc mesh,
               let '(lod, acc1) := createLODForMesh new_uuid mesh config acc in
               match Three.getObject3D (heap acc1) mesh with
               | Some o =>
                   match Three.parent o with
                   | Some p =>
                       with_heap (Three.remove p mesh (Three.add p lod (heap acc1))) acc1
                   | None => acc1
                   end
               | None => acc1
               end)
            w meshes
  | None => w
  end.

(** [performFrustumCulling]: [intersectsObject] is the outcome of the
    frustum test of the current camera for each object. *)
Definition performFrustumCulling (intersectsObject : Three.ref → bool) (w : World) : World :=
  match optimizer_camera (renderOptimizer w), optimizer_scene (renderOptimizer w) with
  | Some _, Some scene =>
      let h :=
        foldl (λ acc object,
                 if Three.isMesh acc object
                 then Three.assign_visible object (intersectsObject object) acc
                 else acc)
              (heap w) (Three.traverse (heap w) scene) in
      with_heap h w
  | _, _ => w
  end.

(** [reduceQuality] *)
Definition reduceQuality (w : World) : World :=
  match renderer (renderOptimizer w) with
  | Some r =>
      let currentPixelRatio := pixelRatio r in
      let ratio :=
        if Js.Qlt_bool 1 currentPixelRatio
        then Js.Math_max 1 (currentPixelRatio * (8 # 10))%Q
        else currentPixelRatio in
      let shadows := if shadowMap_enabled r then false else shadowMap_enabled r in
      set_optimizer (set_renderer (Some (mkWebGLRenderer ratio shadows))) w
  | None => w
  end.

(** [increaseQuality] *)
Definition increaseQuality (devicePixelRatio : Q) (w : World) : World :=
  match renderer (renderOptimizer w) with
  | Some r =>
      let maxPixelRatio := maxPixelRatio devicePixelRatio in
      let currentPixelRatio := pixelRatio r in
      let ratio :=
        if Js.Qlt_bool currentPixelRatio maxPixelRatio
        then Js.Math_min maxPixelRatio (currentPixelRatio * (11 # 10))%Q
        else currentPixelRatio in
      let shadows := if negb (shadowMap_enabled r) then true else shadowMap_enabled r in
      set_optimizer (set_renderer (Some (mkWebGLRenderer ratio shadows))) w
  | None => w
  end.

(** [adaptiveOptimization]: [metrics] is what
    [performanceMonitor.getCurrentMetrics()] returns, reduced to its
    [renderingStats.fps]. *)
Definition adaptiveOptimization (metrics : option Q) (devicePixelRatio : Q) (w : World)
  : World :=
  if negb (adaptiveQuality (settings (renderOptimizer w))) then w
  else
    match metrics with
    | None => w
    | Some fps =>
        let targetFPS := targetFPS (settings (renderOptimizer w)) in
        if Js.Qlt_bool fps (targetFPS * (8 # 10))%Q then reduceQuality w
        else if Js.Qlt_bool (targetFPS * (12 # 10))%Q fps then increaseQuality devicePixelRatio w
        else w
    end.

(** [optimizeScene] *)
Definition optimizeScene (new_uuid : Three.ref → string)
           (intersectsObject : Three.ref → bool) (metrics : option Q)
           (devicePixelRatio : Q) (w : World) : World :=
  let w1 := if enableLOD (settings (renderOptimizer w))
            then applyLODToScene new_uuid defaultLODConfig w else w in
  let w2 := if enableFrustumCulling (settings (renderOptimizer w1))
            then performFrustumCulling intersectsObject w1 else w1 in
  adaptiveOptimization metrics devicePixelRatio w2.

Record OptimizationStats := mkOptimizationStats {
  stats_lodObjects : Z;
  visibleObjects : Z;
  totalObjects : Z;
  currentPixelRatio : Q
}.

(** [getOptimizationStats] *)
Definition getOptimizationStats (w : World) : OptimizationStats :=
  let s := renderOptimizer w in
  let meshes :=
    match optimizer_scene s with
    | Some scene => filter (λ object, Three.isMesh (heap w) object = true)
                           (Three.traverse (heap w) scene)
    | None => []
    end in
  mkOptimizationStats
    (Z.of_nat (length (lodObjects s)))
    (Z.of_nat (length (filter (λ object, Three.is_visible (heap w) object = Some true) meshes)))
    (Z.of_nat (length meshes))
    (match renderer s with
     | Some r => if Qeq_bool (pixelRatio r) 0 then 1%Q else pixelRatio r
     | None => 1%Q
     end).

(** [reset] *)
Definition reset (devicePixelRatio : Q) (w : World) : World :=
  let w1 := set_optimizer (set_lodObjects []) w in
  let w2 :=
    match renderer (renderOptimizer w1) with
    | Some _ =>
        set_optimizer
          (set_renderer (Some (mkWebGLRenderer (maxPixelRatio devicePixelRatio) true))) w1
    | None => w1
    end in
  match optimizer_scene (renderOptimizer w2) with
  | Some scene =>
      with_heap (foldl (λ acc object, Three.assign_visible object true acc)
                       (heap w2) (Three.traverse (heap w2) scene)) w2
  | None => w2
  end.

(** [dispose] *)
Definition dispose (devicePixelRatio : Q) (w : World) : World :=
  set_optimizer (λ s, mkRenderOptimizerService None None None (lodObjects s) (settings s))
                (reset devicePixelRatio w).

End RenderOptimizer.

(** ** StatusUpdateService

    The change detection of the status service: the panels of the last
    applied poll are kept in [previousStatusMap]; a new poll is compared
    with it.  The colour changes themselves are made by the material
    service and are no part of this state. *)

Module StatusUpdate.

(** [Map.prototype.get] on an insertion-ordered map. *)
Fixpoint Map_get `{EqDecision K} {V} (k : K) (m : list (K * V)) : option V :=
  match m with
  | [] => None
  | (k', v) :: rest => if decide (k' = k) then Some v else Map_get k rest
  end.

(** [Map.prototype.has] *)
Definition Map_has `{EqDecision K} {V} (k : K) (m : list (K * V)) : bool :=
  bool_decide (is_Some (Map_get k m)).

Inductive StatusType := INSTALLED | PENDING | ISSUE | NOT_STARTED.

#[global] Instance StatusType_eq_dec : EqDecision StatusType.
Proof. solve_decision. Defined.

(** [StatusType | null | undefined] *)
Inductive MaybeStatus := a_status (s : StatusType) | js_null | js_undefined.

#[global] Instance MaybeStatus_eq_dec : EqDecision MaybeStatus.
Proof. solve_decision. Defined.

(** Dates are kept as timestamps. *)
Record PanelStatus := mkPanelStatus {
  panel_id : string;
  status : StatusType;
  installDate : option Z;
  notes : option string;
  lastUpdated : Z
}.

Record StatusChange := mkStatusChange {
  panelId : string;
  oldStatus : MaybeStatus;
  newStatus : MaybeStatus;
  change_mesh : option Three.ref
}.

Record StatusUpdateService := mkStatusUpdateService {
  previousStatusMap : list (string * PanelStatus);
  meshPanelMappings : list (Three.ref * string);
  updateInProgress : bool
}.

Definition new_StatusUpdateService : StatusUpdateService :=
  mkStatusUpdateService [] [] false.

(** [setMeshPanelMappings] *)
Definition setMeshPanelMappings (mappings : list (Three.ref * string))
           (s : StatusUpdateService) : StatusUpdateService :=
  mkStatusUpdateService (previousStatusMap s) mappings (updateInProgress s).

(** [newPanelData.forEach(panel => map.set(panel.id, panel))] on a new map. *)
Definition status_map (newPanelData : list PanelStatus) : list (string * PanelStatus) :=
  foldl (λ m panel, Js.Map_set (panel_id panel) panel m) [] newPanelData.

(** [this.meshPanelMappings.find(m => m.panelId === panelId)?.mesh] *)
Definition find_mesh (s : StatusUpdateService) (panelId : string) : option Three.ref :=
  fst <$> find (λ m, bool_decide (snd m = panelId)) (meshPanelMappings s).

(** [this.previousStatusMap.get(panelId)?.status] *)
Definition previous_status (s : StatusUpdateService) (panelId : string) : MaybeStatus :=
  match Map_get panelId (previousStatusMap s) with
  | Some oldPanel => a_status (status oldPanel)
  | None => js_undefined
  end.

(** [detectChanges] *)
Definition detectChanges (newPanelData : list PanelStatus) (s : StatusUpdateService)
  : list StatusChange :=
  let newStatusMap := status_map newPanelData in
  let changed :=
    omap (λ entry,
            let panelId := fst entry in
            let oldStatus := previous_status s panelId in
            let newStatus := a_status (status (snd entry)) in
            if decide (oldStatus = newStatus) then None
            else Some (mkStatusChange panelId oldStatus newStatus (find_mesh s panelId)))
         newStatusMap in
  let removed :=
    omap (λ entry,
            let panelId := fst entry in
            if Map_has panelId newStatusMap then None
            else Some (mkStatusChange panelId (a_status (status (snd entry))) js_null
                                      (find_mesh s panelId)))
         (previousStatusMap s) in
  changed ++ removed.

(** [updatePreviousStatusMap] *)
Definition updatePreviousStatusMap (newPanelData : list PanelStatus)
           (s : StatusUpdateService) : StatusUpdateService :=
  mkStatusUpdateService (status_map newPanelData) (meshPanelMappings s) (updateInProgress s).

(** [getUpdateStats] *)
Record UpdateStats := mkUpdateStats {
  totalMeshes : Z;
  trackedPanels : Z;
  stats_updateInProgress : bool
}.

Definition getUpdateStats (s : StatusUpdateService) : UpdateStats :=
  mkUpdateStats (Z.of_nat (length (meshPanelMappings s)))
                (Z.of_nat (length (previousStatusMap s)))
                (updateInProgress s).

(** [reset] *)
Definition reset (s : StatusUpdateService) : StatusUpdateService :=
  mkStatusUpdateService [] [] false.

(** [getCurrentStatus]: [None] is [null]. *)
Definition getCurrentStatus (panelId : string) (s : StatusUpdateService)
  : option PanelStatus :=
  Map_get panelId (previousStatusMap s).

(** [hasStatusChanged] *)
Definition hasStatusChanged (panelId : string) (newStatus : MaybeStatus)
           (s : StatusUpdateService) : bool :=
  bool_decide (previous_status s panelId ≠ newStatus).

End StatusUpdate.

(** ** PollingService

    The service with the part of the browser it talks to: the window's
    pending timeouts, the requests to the status API that have not settled
    yet, and the callbacks it has invoked.  A timeout firing, a request
    settling and the window's events arrive from outside, one at a time;
    each handler runs to its end before the next one starts.  Callbacks
    and the error recovery service are taken to return normally and not to
    call back into the service.  Delays are exact rationals, the retry
    count and [maxRetries] integers. *)

Module Polling.

Record PollingConfig := mkPollingConfig {
  interval : Q;
  maxRetries : Z;
  backoffMultiplier : Q;
  maxBackoffDelay : Q;
  reducedInterval : Q
}.

(** The defaults of the constructor. *)
Definition defaultConfig : PollingConfig := mkPollingConfig 30000 5 2 300000 120000.

(** What a pending timeout runs when it fires: the callback set by
    [scheduleNextPoll] or the one set by [scheduleRetry]. *)
Inductive TimerKind := poll_timer | retry_timer.

#[global] Instance TimerKind_eq_dec : EqDecision TimerKind.
Proof. solve_decision. Defined.

Record Timer := mkTimer {
  timer_id : nat;
  timer_kind : TimerKind;
  timer_delay : Q
}.

(** An invocation of one of [callbacks]. *)
Inductive Callback :=
| onData
| onError
| onRetry (attempt : Z) (delay : Q).

Record State := mkState {
  config : PollingConfig;
  intervalId : option nat;
  retryTimeoutId : option nat;
  currentRetryCount : Z;
  isActive : bool;
  isTabVisible : bool;
  projectId : option string;
  timers : list Timer;          (* the window's pending timeouts *)
  next_timer_id : nat;
  inFlight : nat;               (* API requests not yet settled *)
  calls : list Callback         (* callbacks invoked so far, oldest first *)
}.

(** [new PollingService(config)] *)
Definition new_PollingService (c : PollingConfig) : State :=
  mkState c None None 0 false true None [] 1 0 [].

Definition set_intervalId (v : option nat) (s : State) : State :=
  mkState (config s) v (retryTimeoutId s) (currentRetryCount s) (isActive s)
          (isTabVisible s) (projectId s) (timers s) (next_timer_id s) (inFlight s) (calls s).

Definition set_retryTimeoutId (v : option nat) (s : State) : State :=
  mkState (config s) (intervalId s) v (currentRetryCount s) (isActive s)
          (isTabVisible s) (projectId s) (timers s) (next_timer_id s) (inFlight s) (calls s).

Definition set_currentRetryCount (v : Z) (s : State) : State :=
  mkState (config s) (intervalId s) (retryTimeoutId s) v (isActive s)
          (isTabVisible s) (projectId s) (timers s) (next_timer_id s) (inFlight s) (calls s).

Definition set_isActive (v : bool) (s : State) : State :=
  mkState (config s) (intervalId s) (retryTimeoutId s) (currentRetryCount s) v
          (isTabVisible s) (projectId s) (timers s) (next_timer_id s) (inFlight s) (calls s).

Definition set_isTabVisible (v : bool) (s : State) : State :=
  mkState (config s) (intervalId s) (retryTimeoutId s) (currentRetryCount s) (isActive s)
          v (projectId s) (timers s) (next_timer_id s) (inFlight s) (calls s).

Definition set_projectId (v : option string) (s : State) : State :=
  mkState (config s) (intervalId s) (retryTimeoutId s) (currentRetryCount s) (isActive s)
          (isTabVisible s) v (timers s) (next_timer_id s) (inFlight s) (calls s).

Definition set_timers (v : list Timer) (s : State) : State :=
  mkState (config s) (intervalId s) (retryTimeoutId s) (currentRetryCount s) (isActive s)
          (isTabVisible s) (projectId s) v (next_timer_id s) (inFlight s) (calls s).

Definition set_inFlight (v : nat) (s : State) : State :=
  mkState (config s) (intervalId s) (retryTimeoutId s) (currentRetryCount s) (isActive s)
          (isTabVisible s) (projectId s) (timers s) (next_timer_id s) v (calls s).

(** [this.callbacks.<c>(...)] *)
Definition call (c : Callback) (s : State) : State :=
  mkState (config s) (intervalId s) (retryTimeoutId s) (currentRetryCount s) (isActive s)
          (isTabVisible s) (projectId s) (timers s) (next_timer_id s) (inFlight s)
          (calls s ++ [c]).

(** [window.setTimeout(callback, delay)]: a new id. *)
Definition setTimeout (k : TimerKind) (delay : Q) (s : State) : nat * State :=
  let id := next_timer_id s in
  (id,
   mkState (config s) (intervalId s) (retryTimeoutId s) (currentRetryCount s) (isActive s)
           (isTabVisible s) (projectId s) (timers s ++ [mkTimer id k delay]) (S id)
           (inFlight s) (calls s)).

(** [clearTimeout(id)]: nothing happens when the timeout has fired. *)
Definition clearTimeout (id : nat) (s : State) : State :=
  set_timers (filter (λ t, timer_id t ≠ id) (timers s)) s.

(** [clearTimers] *)
Definition clearTimers (s : State) : State :=
  let s1 := match intervalId s with
            | Some id => set_intervalId None (clearTimeout id s)
            | None => s
            end in
  match retryTimeoutId s1 with
  | Some id => set_retryTimeoutId None (clearTimeout id s1)
  | None => s1
  end.

(** Truthiness of [projectId : string | null]. *)
Definition truthy (p : option string) : bool :=
  match p with
  | Some id => negb (bool_decide (id = ""))
  | None => false
  end.

(** [fetchData] up to its [await]: the request is sent. *)
Definition fetchData (s : State) : State :=
  if negb (truthy (projectId s)) || negb (isActive s) then s
  else set_inFlight (S (inFlight s)) s.

(** [scheduleNextPoll(useExtendedInterval)] *)
Definition scheduleNextPoll (useExtendedInterval : bool) (s : State) : State :=
  if negb (isActive s) then s
  else
    let s1 := clearTimers s in
    let interval :=
      if useExtendedInterval then maxBackoffDelay (config s1)
      else if negb (isTabVisible s1) then reducedInterval (config s1)
      else interval (config s1) in
    let '(id, s2) := setTimeout poll_timer interval s1 in
    set_intervalId (Some id) s2.

(** The delay of the retry with the given number (1 for the first):
    [min(interval * multiplier ^ (count - 1), maxBackoffDelay)]. *)
Definition backoffDelay (c : PollingConfig) (count : Z) : Q :=
  Js.Math_min (interval c * Qpower (backoffMultiplier c) (count - 1))%Q (maxBackoffDelay c).

(** [scheduleRetry] *)
Definition scheduleRetry (s : State) : State :=
  if negb (isActive s) then s
  else
    let s1 := set_currentRetryCount (currentRetryCount s + 1) s in
    let backoffDelay := backoffDelay (config s1) (currentRetryCount s1) in
    let s2 := call (onRetry (currentRetryCount s1) backoffDelay) s1 in
    let '(id, s3) := setTimeout retry_timer backoffDelay s2 in
    set_retryTimeoutId (Some id) s3.

(** [fetchData] after its [await], the request having succeeded. *)
Definition fetch_resolved (s : State) : State :=
  set_currentRetryCount 0 (call onData s).

(** [fetchData] after its [await], the request having failed: the [catch]
    block. *)
Definition fetch_rejected (s : State) : State :=
  let s1 := call onError s in
  if bool_decide (currentRetryCount s1 < maxRetries (config s1))%Z
  then scheduleRetry s1
  else scheduleNextPoll true (set_currentRetryCount 0 s1).

(** [start(projectId, callbacks)] *)
Definition start (p : string) (s : State) : State :=
  let s1 := set_currentRetryCount 0 (set_isActive true (set_projectId (Some p) s)) in
  scheduleNextPoll false (fetchData s1).

(** [stop] *)
Definition stop (s : State) : State :=
  clearTimers (set_isActive false s).

(** [updateProject] *)
Definition updateProject (p : string) (s : State) : State :=
  if decide (projectId s = Some p) then s
  else
    let s1 := set_currentRetryCount 0 (set_projectId (Some p) s) in
    if isActive s1 then scheduleNextPoll false (fetchData (clearTimers s1)) else s1.

(** [refresh] *)
Definition refresh (s : State) : State :=
  if truthy (projectId s) then fetchData s else s.

(** The callback of the timeout set by [scheduleNextPoll]. *)
Definition poll_fired (s : State) : State :=
  scheduleNextPoll false (fetchData s).

(** The callback of the timeout set by [scheduleRetry]. *)
Definition retry_fired (s : State) : State :=
  let s1 := fetchData s in
  if decide (currentRetryCount s1 = 0%Z) then scheduleNextPoll false s1 else s1.

(** The [visibilitychange] listener; [hidden] is [document.hidden]. *)
Definition handleVisibilityChange (hidden : bool) (s : State) : State :=
  let wasVisible := isTabVisible s in
  let s1 := set_isTabVisible (negb hidden) s in
  if negb (bool_decide (wasVisible = isTabVisible s1)) && isActive s1 then
    let s2 := clearTimers s1 in
    let s3 := if isTabVisible s2 && bool_decide (0 < currentRetryCount s2)%Z
              then fetchData s2 else s2 in
    scheduleNextPoll false s3
  else s1.

(** The [focus] listener. *)
Definition on_focus (s : State) : State :=
  if negb (isTabVisible s) then
    let s1 := set_isTabVisible true s in
    if isActive s1 then
      let s2 := clearTimers s1 in
      let s3 := if bool_decide (0 < currentRetryCount s2)%Z then fetchData s2 else s2 in
      scheduleNextPoll false s3
    else s1
  else s.

(** The [blur] listener. *)
Definition on_blur (s : State) : State :=
  if isTabVisible s then
    let s1 := set_isTabVisible false s in
    if isActive s1 then scheduleNextPoll false (clearTimers s1) else s1
  else s.

(** The [online] listener. *)
Definition on_online (s : State) : State :=
  if isActive s && bool_decide (0 < currentRetryCount s)%Z
  then fetchData (clearTimers s)
  else s.

(** The [offline] listener. *)
Definition on_offline (s : State) : State :=
  if isActive s then call onError s else s.

(** [getStatus] *)
Definition getStatus (s : State) : bool * bool * Z * option string :=
  (isActive s, isTabVisible s, currentRetryCount s, projectId s).

(** What happens to the service: a call of one of its methods, a timeout
    firing, a request settling, an event of the window. *)
Inductive Event :=
| ev_start (p : string)
| ev_stop
| ev_updateProject (p : string)
| ev_refresh
| ev_timer (id : nat)
| ev_resolved
| ev_rejected
| ev_visibilitychange (hidden : bool)
| ev_focus
| ev_blur
| ev_online
| ev_offline.

(** The pending timeout with the given id, and the others. *)
Fixpoint take_timer (id : nat) (ts : list Timer) : option (Timer * list Timer) :=
  match ts with
  | [] => None
  | t :: rest =>
      if decide (timer_id t = id) then Some (t, rest)
      else match take_timer id rest with
           | Some (t', rest') => Some (t', t :: rest')
           | None => None
           end
  end.

(** The effect of an event; [None] when it cannot happen: a timeout that
    is not pending cannot fire, and no request settles when none is in
    flight. *)
Definition exec (ev : Event) (s : State) : option State :=
  match ev with
  | ev_start p => Some (start p s)
  | ev_stop => Some (stop s)
  | ev_updateProject p => Some (updateProject p s)
  | ev_refresh => Some (refresh s)
  | ev_timer id =>
      match take_timer id (timers s) with
      | Some (t, rest) =>
          let s1 := set_timers rest s in
          Some (match timer_kind t with
                | poll_timer => poll_fired s1
                | retry_timer => retry_fired s1
                end)
      | None => None
      end
  | ev_resolved =>
      match inFlight s with
      | S n => Some (fetch_resolved (set_inFlight n s))
      | O => None
      end
  | ev_rejected =>
      match inFlight s with
      | S n => Some (fetch_rejected (set_inFlight n s))
      | O => None
      end
  | ev_visibilitychange hidden => Some (handleVisibilityChange hidden s)
  | ev_focus => Some (on_focus s)
  | ev_blur => Some (on_blur s)
  | ev_online => Some (on_online s)
  | ev_offline => Some (on_offline s)
  end.

(** The events in the order they happen. *)
Fixpoint run (evs : list Event) (s : State) : option State :=
  match evs with
  | [] => Some s
  | ev :: rest =>
      match exec ev s with
      | Some s' => run rest s'
      | None => None
      end
  end.

End Polling.

(** ** PerformanceMonitorService

    The monitor the optimizer reads its frame rate from.  What the
    renderer reports ([renderer.info]) and the clock ([performance.now()])
    are inputs of [collectMetrics]; numbers are exact rationals. *)

Module PerformanceMonitor.

Record MemoryUsage := mkMemoryUsage {
  mem_geometries : Q;
  mem_textures : Q;
  mem_materials : Z;
  totalMB : Q
}.

Record RenderingStats := mkRenderingStats {
  fps : Q;
  frameTime : Q;
  drawCalls : Q;
  triangles : Q
}.

Record SceneStats := mkSceneStats {
  objects : Z;
  scene_meshes : Z;
  lights : Z;
  cameras : Z
}.

Record PerformanceMetrics := mkPerformanceMetrics {
  memoryUsage : MemoryUsage;
  renderingStats : RenderingStats;
  sceneStats : SceneStats;
  timestamp : Q
}.

Record PerformanceThresholds := mkPerformanceThresholds {
  maxMemoryMB : Q;
  minFPS : Q;
  maxFrameTime : Q;
  maxDrawCalls : Q;
  maxTriangles : Q
}.

(** [renderer.info] as read at one moment: [memory.geometries],
    [memory.textures], [render.calls], [render.triangles]. *)
Record RendererInfo := mkRendererInfo {
  info_geometries : Q;
  info_textures : Q;
  info_calls : Q;
  info_triangles : Q
}.

Record State := mkState {
  monitor_renderer : option WebGLRenderer;
  monitor_scene : option Three.ref;
  isMonitoring : bool;
  metrics : list PerformanceMetrics;
  maxMetricsHistory : nat;
  frameTimeHistory : list Q;
  lastFrameTime : Q;
  thresholds : PerformanceThresholds
}.

Definition new_PerformanceMonitorService : State :=
  mkState None None false [] 100 [] 0 (mkPerformanceThresholds 512 30 33 100 100000).

(** [initialize] *)
Definition initialize (r : WebGLRenderer) (scene : Three.ref) (s : State) : State :=
  mkState (Some r) (Some scene) (isMonitoring s) (metrics s) (maxMetricsHistory s)
          (frameTimeHistory s) (lastFrameTime s) (thresholds s).

(** [startMonitoring]: the interval it sets calls [collectMetrics]. *)
Definition startMonitoring (now : Q) (s : State) : State :=
  match isMonitoring s, monitor_renderer s, monitor_scene s with
  | false, Some _, Some _ =>
      mkState (monitor_renderer s) (monitor_scene s) true (metrics s) (maxMetricsHistory s)
              [] now (thresholds s)
  | _, _, _ => s
  end.

(** [stopMonitoring] *)
Definition stopMonitoring (s : State) : State :=
  if isMonitoring s
  then mkState (monitor_renderer s) (monitor_scene s) false (metrics s) (maxMetricsHistory s)
               (frameTimeHistory s) (lastFrameTime s) (thresholds s)
  else s.

(** [Math.round]: to the nearest integer, halves upwards. *)
Definition Math_round (x : Q) : Z := Qfloor (x + (1 # 2))%Q.

(** [Math.round(x * 100) / 100] *)
Definition round2 (x : Q) : Q := (inject_Z (Math_round (x * 100)) / 100)%Q.

Definition sum_Q (l : list Q) : Q := foldl Qplus 0%Q l.

(** The materials of a mesh, as [countMaterials] adds them. *)
Definition materials_of (h : Three.Heap) (object : Three.ref) : list Three.ref :=
  match Three.getObject3D h object with
  | Some o =>
      match Three.kind o with
      | Three.KMesh _ (Three.OneMaterial m) => [m]
      | Three.KMesh _ (Three.MaterialArray ms) => ms
      | _ => []
      end
  | None => []
  end.

(** [countMaterials]: the size of the set of materials of the scene. *)
Definition countMaterials (h : Three.Heap) (s : State) : Z :=
  match monitor_scene s with
  | Some scene =>
      Z.of_nat (length (remove_dups (flat_map (materials_of h) (Three.traverse h scene))))
  | None => 0
  end.

(** [getMemoryUsage] *)
Definition getMemoryUsage (info : RendererInfo) (h : Three.Heap) (s : State) : MemoryUsage :=
  match monitor_renderer s with
  | None => mkMemoryUsage 0 0 0 0
  | Some _ =>
      let geometryMemory := (info_geometries info * (1 # 10))%Q in
      let textureMemory := (info_textures info * 2)%Q in
      let materialMemory := (inject_Z (countMaterials h s) * (1 # 100))%Q in
      let totalMB := (geometryMemory + textureMemory + materialMemory)%Q in
      mkMemoryUsage (info_geometries info) (info_textures info) (countMaterials h s)
                    (round2 totalMB)
  end.

(** [getRenderingStats] *)
Definition getRenderingStats (info : RendererInfo) (currentFrameTime : Q) (s : State)
  : RenderingStats :=
  match monitor_renderer s with
  | None => mkRenderingStats 0 0 0 0
  | Some _ =>
      let avgFrameTime :=
        match frameTimeHistory s with
        | [] => currentFrameTime
        | _ => (sum_Q (frameTimeHistory s) / inject_Z (Z.of_nat (length (frameTimeHistory s))))%Q
        end in
      let fps := if Js.Qlt_bool 0 avgFrameTime
                 then inject_Z (Math_round (1000 / avgFrameTime)) else 0%Q in
      mkRenderingStats fps (round2 avgFrameTime) (info_calls info) (info_triangles info)
  end.

(** [getSceneStats] *)
Definition getSceneStats (h : Three.Heap) (s : State) : SceneStats :=
  match monitor_scene s with
  | None => mkSceneStats 0 0 0 0
  | Some scene =>
      let all := Three.traverse h scene in
      let count (p : Three.ref → bool) := Z.of_nat (length (filter (λ x, p x = true) all)) in
      mkSceneStats
        (Z.of_nat (length all))
        (count (Three.isMesh h))
        (count (Three.isLight h))
        (count (λ x, match Three.getObject3D h x with
                     | Some o => match Three.kind o with Three.KCamera => true | _ => false end
                     | None => false
                     end))
  end.

(** The kinds of issue [checkPerformanceThresholds] reports. *)
Inductive Issue :=
| HighMemoryUsage | LowFPS | HighFrameTime | HighDrawCalls | HighTriangleCount.

(** [checkPerformanceThresholds]: the issues, in the order they are pushed;
    a non-empty list is logged and passed to [onPerformanceIssues]. *)
Definition checkPerformanceThresholds (m : PerformanceMetrics) (s : State) : list Issue :=
  let t := thresholds s in
  (if Js.Qlt_bool (maxMemoryMB t) (totalMB (memoryUsage m)) then [HighMemoryUsage] else [])
  ++ (if Js.Qlt_bool (fps (renderingStats m)) (minFPS t) then [LowFPS] else [])
  ++ (if Js.Qlt_bool (maxFrameTime t) (frameTime (renderingStats m))
      then [HighFrameTime] else [])
  ++ (if Js.Qlt_bool (maxDrawCalls t) (drawCalls (renderingStats m))
      then [HighDrawCalls] else [])
  ++ (if Js.Qlt_bool (maxTriangles t) (triangles (renderingStats m))
      then [HighTriangleCount] else []).

(** [array.push(x)] followed by [array.shift()] when longer than [cap]. *)
Definition push_capped {A} (cap : nat) (x : A) (l : list A) : list A :=
  let l' := l ++ [x] in
  if (cap <? length l')%nat then tail l' else l'.

(** [collectMetrics]: the metrics returned ([None] is [null]), the issues
    reported, and the new state. *)
Definition collectMetrics (now : Q) (info : RendererInfo) (h : Three.Heap) (s : State)
  : option PerformanceMetrics * list Issue * State :=
  match monitor_renderer s, monitor_scene s with
  | Some _, Some _ =>
      let currentTime := now in
      let frameTime := (currentTime - lastFrameTime s)%Q in
      let s1 := mkState (monitor_renderer s) (monitor_scene s) (isMonitoring s) (metrics s)
                        (maxMetricsHistory s) (push_capped 60 frameTime (frameTimeHistory s))
                        currentTime (thresholds s) in
      let m := mkPerformanceMetrics (getMemoryUsage info h s1)
                                    (getRenderingStats info frameTime s1)
                                    (getSceneStats h s1) currentTime in
      let s2 := mkState (monitor_renderer s1) (monitor_scene s1) (isMonitoring s1)
                        (push_capped (maxMetricsHistory s1) m (metrics s1))
                        (maxMetricsHistory s1) (frameTimeHistory s1) (lastFrameTime s1)
                        (thresholds s1) in
      (Some m, checkPerformanceThresholds m s2, s2)
  | _, _ => (None, [], s)
  end.

(** [getCurrentMetrics] *)
Definition getCurrentMetrics (s : State) : option PerformanceMetrics := last (metrics s).

(** [updateThresholds]: the thresholds as merged by the caller. *)
Definition updateThresholds (t : PerformanceThresholds) (s : State) : State :=
  mkState (monitor_renderer s) (monitor_scene s) (isMonitoring s) (metrics s)
          (maxMetricsHistory s) (frameTimeHistory s) (lastFrameTime s) t.

(** [isPerformanceAcceptable] *)
Definition isPerformanceAcceptable (s : State) : bool :=
  match getCurrentMetrics s with
  | None => true
  | Some current =>
      let t := thresholds s in
      Qle_bool (totalMB (memoryUsage current)) (maxMemoryMB t)
      && Qle_bool (minFPS t) (fps (renderingStats current))
      && Qle_bool (frameTime (renderingStats current)) (maxFrameTime t)
      && Qle_bool (drawCalls (renderingStats current)) (maxDrawCalls t)
      && Qle_bool (triangles (renderingStats current)) (maxTriangles t)
  end.

Inductive Status := good | warning | critical.

(** The kinds of issue [getPerformanceSummary] lists. *)
Inductive SummaryIssue := MemoryUsageIssue | FPSIssue.

(** [getPerformanceSummary] *)
Definition getPerformanceSummary (s : State)
  : Status * list SummaryIssue * option PerformanceMetrics :=
  match getCurrentMetrics s with
  | None => (good, [], None)
  | Some current =>
      let t := thresholds s in
      let '(status, issues) :=
        if Js.Qlt_bool (maxMemoryMB t * (8 # 10))%Q (totalMB (memoryUsage current))
        then (if Js.Qlt_bool (maxMemoryMB t) (totalMB (memoryUsage current))
              then critical else warning,
              [MemoryUsageIssue])
        else (good, []) in
      let '(status, issues) :=
        if Js.Qlt_bool (fps (renderingStats current)) (minFPS t * (12 # 10))%Q
        then (if Js.Qlt_bool (fps (renderingStats current)) (minFPS t)
              then critical else warning,
              issues ++ [FPSIssue])
        else (status, issues) in
      (status, issues, Some current)
  end.

(** [reset] *)
Definition reset (now : Q) (s : State) : State :=
  mkState (monitor_renderer s) (monitor_scene s) (isMonitoring s) [] (maxMetricsHistory s)
          [] now (thresholds s).

(** [dispose] *)
Definition dispose (now : Q) (s : State) : State :=
  let s1 := reset now (stopMonitoring s) in
  mkState None None (isMonitoring s1) (metrics s1) (maxMetricsHistory s1)
          (frameTimeHistory s1) (lastFrameTime s1) (thresholds s1).

(** The calls of the monitor's methods. *)
Inductive Call :=
| call_initialize (r : WebGLRenderer) (scene : Three.ref)
| call_startMonitoring (now : Q)
| call_stopMonitoring
| call_collectMetrics (now : Q) (info : RendererInfo) (h : Three.Heap)
| call_updateThresholds (t : PerformanceThresholds)
| call_reset (now : Q)
| call_dispose (now : Q).

Definition exec (c : Call) (s : State) : State :=
  match c with
  | call_initialize r scene => initialize r scene s
  | call_startMonitoring now => startMonitoring now s
  | call_stopMonitoring => stopMonitoring s
  | call_collectMetrics now info h => snd (collectMetrics now info h s)
  | call_updateThresholds t => updateThresholds t s
  | call_reset now => reset now s
  | call_dispose now => dispose now s
  end.

Definition run (cs : list Call) (s : State) : State := foldl (λ acc c, exec c acc) s cs.

End PerformanceMonitor.

(** ** A sample scene

    A scene (object 0) with three meshes (1, 2, 3), each with its own indexed
    geometry (4, 5, 6) and standard material (7, 8, 9), and a camera (10) at
    the origin.  Used to run the services on concrete inputs. *)

Module Sample.

Definition positions : Three.BufferAttribute :=
  Three.mkBufferAttribute true (replicate 9 0%Z) 3 4.

Definition triangle : Three.BufferAttribute :=
  Three.mkBufferAttribute true [0; 1; 2]%Z 1 2.

Definition a_geometry (uuid : string) : Three.HeapObject :=
  Three.HGeometry (Three.mkBufferGeometry uuid [("position", positions)] (Some triangle) 0).

Definition a_material (uuid : string) : Three.HeapObject :=
  Three.HMaterial (Three.mkMaterial uuid true 255 false 1 0).

Definition a_mesh (uuid name : string) (at_x : Z) (geometry material : Three.ref)
  : Three.HeapObject :=
  Three.HObject3D
    (Three.mkObject3D uuid name (Three.vector3 at_x 0 0) true (Some 0%nat) [] false
                      (Three.KMesh (Some geometry) (Three.OneMaterial material))).

(** The scene heap, the meshes attached to the scene in the order
    [children]. *)
Definition scene_heap_with (children : list Three.ref) : Three.Heap :=
  Three.mkHeap
    (list_to_map
       [(0, Three.HObject3D
              (Three.mkObject3D "s" "scene" (Three.vector3 0 0 0) true None children
                                false Three.KScene));
        (1, a_mesh "u1" "foundation-a" 0 4 7);
        (2, a_mesh "u2" "panel-wall-1" 10 5 8);
        (3, a_mesh "u3" "trim-fixture-2" 60 6 9);
        (4, a_geometry "g1"); (5, a_geometry "g2"); (6, a_geometry "g3");
        (7, a_material "m1"); (8, a_material "m2"); (9, a_material "m3");
        (10, Three.HObject3D
               (Three.mkObject3D "c" "camera" (Three.vector3 0 0 0) true None []
                                 false Three.KCamera))])
    11.

Definition scene_heap : Three.Heap := scene_heap_with [1; 2; 3].

Definition world : World := initial_world scene_heap.

(** A scene whose only mesh, named "roof", has no geometry. *)
Definition bare_world : World :=
  initial_world
    (Three.mkHeap
       (list_to_map
          [(0, Three.HObject3D
                 (Three.mkObject3D "s" "scene" (Three.vector3 0 0 0) true None [1]
                                   false Three.KScene));
           (1, Three.HObject3D
                 (Three.mkObject3D "u1" "roof" (Three.vector3 0 0 0) true (Some 0%nat) [] false
                                   (Three.KMesh None (Three.OneMaterial 2))));
           (2, a_material "m1")])
       3).

(** The same scene with the meshes attached in another order. *)
Definition reordered_world : World := initial_world (scene_heap_with [3; 1; 2]).

(** The tail of the id of the k-th chunk of a priority class. *)
Definition stamp (p : LoadingPriority) (k : nat) : string := pretty k.

(** The scene analysed and chunked, the chunks queued. *)
Definition queued (w : World) : World :=
  default w (ProgressiveLoader.loadModelProgressively_prepare stamp 0 w).

(** Both services initialised on the scene, the model chunked and every
    chunk loaded. *)
Definition loaded_world : World :=
  let w1 := RenderOptimizer.initialize (mkWebGLRenderer 1 false) 0 10 2 world in
  let w2 := ProgressiveLoader.initialize 0 10 w1 in
  let w3 := queued w2 in
  ProgressiveLoader.load_in_turn (loadingQueue (progressiveLoader w3)) 1000 w3.

(** The loaded scene with distance-based loading switched off. *)
Definition loaded_distance_off : World :=
  ProgressiveLoader.updateOptions
    (mkProgressiveLoadingOptions 3 (5 * 1024 * 1024) 100 true false) loaded_world.

(** The scene loaded by a loader that was never given a scene and a
    camera. *)
Definition loaded_without_camera : World :=
  let w1 := RenderOptimizer.initialize (mkWebGLRenderer 1 false) 0 10 2 world in
  let w3 := queued w1 in
  ProgressiveLoader.load_in_turn (loadingQueue (progressiveLoader w3)) 1000 w3.

(** The uuid drawn for a new object. *)
Definition new_uuid (r : Three.ref) : string := "n" +:+ pretty r.

End Sample.

(** ** Predicates used in the statements *)

(** The mesh has a geometry to read. *)
Definition has_geometry (h : Three.Heap) (mesh : Three.ref) : Prop :=
  ∃ o g material geometry,
    Three.getObject3D h mesh = Some o
    ∧ Three.kind o = Three.KMesh (Some g) material
    ∧ Three.deref h g = Some (Three.HGeometry geometry).

(** [mesh] is a member of a loaded chunk of priority [p]. *)
Definition loaded_member (w : World) (p : LoadingPriority) (mesh : Three.ref) : Prop :=
  ∃ c, c ∈ Js.Map_values (loadedChunks (progressiveLoader w))
       ∧ priority c = p ∧ loaded c = true ∧ mesh ∈ meshes c.

(** The priorities of the queue [loadModelProgressively] builds, when it
    builds one. *)
Definition queue_priorities (stamp : LoadingPriority → nat → string) (scene : Three.ref)
           (w : World) : option (list LoadingPriority) :=
  match ProgressiveLoader.loadModelProgressively_prepare stamp scene w with
  | Some w' => Some (priority <$> loadingQueue (progressiveLoader w'))
  | None => None
  end.

(** What holds of the registry between any two calls. *)
Record registry_ok (s : ResourceManagerService) : Prop := mk_registry_ok {
  ok_nonneg : ∀ i info, resources s !! i = Some info → (0 ≤ refCount info)%Z;
  ok_zero_queued : ∀ i info,
    resources s !! i = Some info → refCount info = 0%Z → i ∈ disposalQueue s;
  ok_queued_registered : ∀ i, i ∈ disposalQueue s → is_Some (resources s !! i);
  ok_objects : ∀ i, is_Some (resources s !! i) ↔ is_Some (resourceObjects s !! i)
}.

(** The queue loses an id only when the registry loses it. *)
Definition queue_kept (w w' : World) : Prop :=
  (∀ i, i ∈ disposalQueue (resourceManager w) →
        i ∈ disposalQueue (resourceManager w') ∨ resources (resourceManager w') !! i = None)
  ∧ (∀ i, resources (resourceManager w) !! i = None →
          resources (resourceManager w') !! i = None).

(** The predicate of the disposal-queue claim: the queue holds exactly the
    registered ids whose reference count is zero. *)
Definition queue_exact (w : World) : Prop :=
  ∀ i, i ∈ disposalQueue (resourceManager w) ↔
       ∃ info, ResourceManager.getResourceInfo i w = Some info ∧ refCount info = 0%Z.

(** The sum of the size estimates of some meshes. *)
Definition sizes (meshSize : Three.ref → Z) (ms : list Three.ref) : Z :=
  ResourceManager.sum_Z (meshSize <$> ms).

(** The members collected so far: within the limit unless alone, and an
    oversized member is alone. *)
Definition members_ok (limit : Z) (meshSize : Three.ref → Z) (ms : list Three.ref) : Prop :=
  ((1 < length ms)%nat → (sizes meshSize ms ≤ limit)%Z)
  ∧ (∀ m, m ∈ ms → (limit < meshSize m)%Z → ms = [m]).

Definition chunk_ok (limit : Z) (p : LoadingPriority) (meshSize : Three.ref → Z)
           (c : LoadingChunk) : Prop :=
  priority c = p ∧ meshes c ≠ [] ∧ estimatedSize c = sizes meshSize (meshes c)
  ∧ members_ok limit meshSize (meshes c).

Definition chunking_ok (limit : Z) (p : LoadingPriority) (meshSize : Three.ref → Z)
           (done : list Three.ref) (st : ProgressiveLoader.Chunking) : Prop :=
  Forall (chunk_ok limit p meshSize) (ProgressiveLoader.chunks st)
  ∧ ProgressiveLoader.currentSize st = sizes meshSize (ProgressiveLoader.currentChunk st)
  ∧ members_ok limit meshSize (ProgressiveLoader.currentChunk st)
  ∧ concat (meshes <$> ProgressiveLoader.chunks st) ++ ProgressiveLoader.currentChunk st = done.

(** What [register_mesh] leaves alone: everything but the registry and the
    scene objects. *)
Definition loader_part (w : World) : ProgressiveLoaderService * list LoadingChunk :=
  (progressiveLoader w, pendingLoads w).

(** The cap holds of a state. *)
Definition within_cap (w : World) : Prop :=
  (Js.Set_size (activeLoads (progressiveLoader w))
   ≤ maxConcurrentChunks (options (progressiveLoader w)))%Z.

(** Two heaps hold the same objects up to the [visible] flags. *)
Definition up_to_visibility (h0 h : Three.Heap) : Prop :=
  ∀ x, match Three.getObject3D h0 x with
       | Some o0 => ∃ v, Three.getObject3D h x = Some (Three.set_visible v o0)
       | None => Three.getObject3D h x = None
       end.

(** The body of the inner [forEach] of [updateDistanceBasedLoading]. *)
Definition show_mesh (cameraPosition : Three.Vector3) (p : LoadingPriority)
           (acc : Three.Heap) (mesh : Three.ref) : Three.Heap :=
  match Three.getObject3D acc mesh with
  | Some o =>
      Three.assign_visible
        mesh (ProgressiveLoader.shown_at p cameraPosition (Three.position o)) acc
  | None => acc
  end.

(** Objects with a [dispose()] of their own. *)
Definition disposable (h : Three.Heap) (r : Three.ref) : bool :=
  match Three.deref h r with
  | Some (Three.HGeometry _) | Some (Three.HMaterial _) | Some (Three.HTexture _) => true
  | _ => false
  end.

(** The geometry and the materials of a mesh. *)
Definition parts (geometry : option Three.ref) (material : Three.MaterialSlot)
  : list Three.ref :=
  match geometry with Some g => [g] | None => [] end
  ++ match material with
     | Three.NoMaterial => []
     | Three.OneMaterial r => [r]
     | Three.MaterialArray rs => rs
     end.


(** *** Predicates of the further properties *)

(** The id a call registers, if it is a registration. *)
Definition registered_id (c : ResourceManager.Call) : option string :=
  match c with
  | ResourceManager.call_registerResource _ t oid now rnd =>
      Some (match oid with
            | Some i => if decide (i = "") then ResourceManager.generateResourceId t now rnd
                        else i
            | None => ResourceManager.generateResourceId t now rnd
            end)
  | _ => None
  end.

(** An id the registry does not know: no record, not queued. *)
Definition unknown_id (i : string) (w : World) : Prop :=
  resources (resourceManager w) !! i = None ∧ i ∉ disposalQueue (resourceManager w).

(** Ascending priority: Critical before High before Medium before Low. *)
Definition priority_le (c d : LoadingChunk) : Prop :=
  (priority_value (priority c) ≤ priority_value (priority d))%Z.

(** The chunks of one priority class, in order. *)
Definition of_priority (p : LoadingPriority) (l : list LoadingChunk) : list LoadingChunk :=
  filter (λ c, priority c = p) l.

(** The second heap is the first up to the [visible] flags of its scene
    objects: same cells, same geometries, materials and textures. *)
Definition visibility_only (h h' : Three.Heap) : Prop :=
  ∀ x, match Three.deref h x with
       | Some (Three.HObject3D o) =>
           ∃ v, Three.deref h' x = Some (Three.HObject3D (Three.set_visible v o))
       | other => Three.deref h' x = other
       end.




(** The ids of the chunks the loader knows: queued, started and not yet
    finished, or loaded. *)
Definition known_ids (w : World) : list string :=
  (chunk_id <$> loadingQueue (progressiveLoader w))
  ++ (chunk_id <$> pendingLoads w)
  ++ (fst <$> loadedChunks (progressiveLoader w)).

(** The renderer's pixel ratio lies between 1 and the cap
    [min(devicePixelRatio, 2)]. *)
Definition ratio_in_range (devicePixelRatio : Q) (w : World) : Prop :=
  ∃ r, renderer (renderOptimizer w) = Some r
       ∧ (1 <= pixelRatio r)%Q
       ∧ (pixelRatio r <= RenderOptimizer.maxPixelRatio devicePixelRatio)%Q.

(** The second heap has every cell of the first, unchanged (and possibly
    new ones). *)
Definition extends (h h' : Three.Heap) : Prop :=
  ∀ x, is_Some (Three.deref h x) → Three.deref h' x = Three.deref h x.

(** The last entry of a poll for a panel id. *)
Definition latest (newPanelData : list StatusUpdate.PanelStatus) (panelId : string)
  : option StatusUpdate.PanelStatus :=
  last (filter (λ p, StatusUpdate.panel_id p = panelId) newPanelData).

(** The map holds each key once, and each panel under its own id. *)
Definition status_map_ok (m : list (string * StatusUpdate.PanelStatus)) : Prop :=
  NoDup (fst <$> m).

(** A callback invocation the retry policy allows: a retry is announced
    with a number between 1 and [maxRetries] and the backoff delay of that
    number, which is at most [maxBackoffDelay]. *)
Definition callback_ok (c : Polling.PollingConfig) (cb : Polling.Callback) : Prop :=
  match cb with
  | Polling.onRetry attempt delay =>
      (1 ≤ attempt ≤ Polling.maxRetries c)%Z
      ∧ delay = Polling.backoffDelay c attempt
      ∧ (delay <= Polling.maxBackoffDelay c)%Q
  | _ => True
  end.

Definition retry_ok (c : Polling.PollingConfig) (s : Polling.State) : Prop :=
  Polling.config s = c
  ∧ (0 ≤ Polling.currentRetryCount s ≤ Polling.maxRetries c)%Z
  ∧ Forall (callback_ok c) (Polling.calls s).

(** The window's pending timeouts have distinct ids, all handed out
    already. *)
Definition timers_ok (s : Polling.State) : Prop :=
  Forall (λ t, Polling.timer_id t < Polling.next_timer_id s) (Polling.timers s)
  ∧ NoDup (Polling.timer_id <$> Polling.timers s).

(** The timeout [intervalId] refers to is pending, and it is a poll. *)
Definition poll_pending (s : Polling.State) : Prop :=
  ∃ t, t ∈ Polling.timers s
       ∧ Polling.intervalId s = Some (Polling.timer_id t)
       ∧ Polling.timer_kind t = Polling.poll_timer
       ∧ (Polling.timer_delay t = Polling.interval (Polling.config s)
          ∨ Polling.timer_delay t = Polling.reducedInterval (Polling.config s)
          ∨ Polling.timer_delay t = Polling.maxBackoffDelay (Polling.config s)).

Definition poll_scheduled (s : Polling.State) : Prop :=
  timers_ok s ∧ (Polling.isActive s = true → poll_pending s).

(** The bounds the monitor keeps on its two histories. *)
Definition histories_bounded (s : PerformanceMonitor.State) : Prop :=
  PerformanceMonitor.maxMetricsHistory s = 100
  ∧ length (PerformanceMonitor.metrics s) ≤ 100
  ∧ length (PerformanceMonitor.frameTimeHistory s) ≤ 60.

(** * Properties of the resource registry *)

Section Registry.
Import ResourceManager.

Lemma Set_add_elem (x y : string) (s : list string) :
  y ∈ Js.Set_add x s ↔ y = x ∨ y ∈ s.
Proof.
  unfold Js.Set_add. destruct (decide (x ∈ s)) as [Hin|Hin].
  - split; [auto | intros [-> | ?]; auto].
  - rewrite elem_of_app, list_elem_of_singleton. tauto.
Qed.

Lemma Set_delete_elem (x y : string) (s : list string) :
  y ∈ Js.Set_delete x s ↔ y ≠ x ∧ y ∈ s.
Proof. unfold Js.Set_delete. by rewrite list_elem_of_filter. Qed.

Lemma new_registry_ok : registry_ok new_ResourceManagerService.
Proof.
  split; simpl.
  - intros i info H. by rewrite lookup_empty in H.
  - intros i info H. by rewrite lookup_empty in H.
  - intros i H. by apply elem_of_nil in H.
  - intros i. by rewrite !lookup_empty.
Qed.

Lemma registerResource_ok resource t oid now rnd w :
  registry_ok (resourceManager w) →
  registry_ok (resourceManager (snd (registerResource resource t oid now rnd w))).
Proof.
  intros [Hn Hz Hq Ho]. unfold registerResource. simpl.
  set (rid := match oid with Some i => _ | None => _ end).
  split; simpl.
  - intros i info. destruct (decide (rid = i)) as [->|Hne].
    + rewrite lookup_insert_eq. intros [= <-]. simpl. lia.
    + rewrite lookup_insert_ne by done. apply Hn.
  - intros i info. destruct (decide (rid = i)) as [->|Hne].
    + rewrite lookup_insert_eq. intros [= <-]. simpl. lia.
    + rewrite lookup_insert_ne by done. apply Hz.
  - intros i Hi. destruct (decide (rid = i)) as [->|Hne].
    + rewrite lookup_insert_eq. eauto.
    + rewrite lookup_insert_ne by done. by apply Hq.
  - intros i. destruct (decide (rid = i)) as [->|Hne].
    + rewrite !lookup_insert_eq. split; eauto.
    + rewrite !lookup_insert_ne by done. apply Ho.
Qed.

Lemma addReference_ok resourceId now w :
  registry_ok (resourceManager w) →
  registry_ok (resourceManager (addReference resourceId now w)).
Proof.
  intros [Hn Hz Hq Ho]. unfold addReference.
  destruct (resources (resourceManager w) !! resourceId) as [info0|] eqn:E; [|by split].
  pose proof (Hn _ _ E) as Hpos.
  split; simpl.
  - intros i info. destruct (decide (resourceId = i)) as [->|Hne].
    + rewrite lookup_insert_eq. intros [= <-]. simpl. lia.
    + rewrite lookup_insert_ne by done. apply Hn.
  - intros i info. destruct (decide (resourceId = i)) as [->|Hne].
    + rewrite lookup_insert_eq. intros [= <-]. simpl. lia.
    + rewrite lookup_insert_ne by done. apply Hz.
  - intros i Hi. destruct (decide (resourceId = i)) as [->|Hne].
    + rewrite lookup_insert_eq. eauto.
    + rewrite lookup_insert_ne by done. by apply Hq.
  - intros i. destruct (decide (resourceId = i)) as [->|Hne].
    + rewrite lookup_insert_eq. rewrite <- Ho, E. split; eauto.
    + rewrite lookup_insert_ne by done. apply Ho.
Qed.

Lemma removeReference_ok resourceId w :
  registry_ok (resourceManager w) →
  registry_ok (resourceManager (removeReference resourceId w)).
Proof.
  intros [Hn Hz Hq Ho]. unfold removeReference.
  destruct (resources (resourceManager w) !! resourceId) as [info0|] eqn:E; [|by split].
  case_decide as Hrc; split; simpl.
  - intros i info. destruct (decide (resourceId = i)) as [->|Hne].
    + rewrite lookup_insert_eq. intros [= <-]. simpl. lia.
    + rewrite lookup_insert_ne by done. apply Hn.
  - intros i info. rewrite Set_add_elem. destruct (decide (resourceId = i)) as [->|Hne].
    + auto.
    + rewrite lookup_insert_ne by done. intros. right. eapply Hz; eauto.
  - intros i. rewrite Set_add_elem. destruct (decide (resourceId = i)) as [->|Hne].
    + rewrite lookup_insert_eq. eauto.
    + rewrite lookup_insert_ne by done. intros [?|?]; [congruence|]. by apply Hq.
  - intros i. destruct (decide (resourceId = i)) as [->|Hne].
    + rewrite lookup_insert_eq. rewrite <- Ho, E. split; eauto.
    + rewrite lookup_insert_ne by done. apply Ho.
  - intros i info. destruct (decide (resourceId = i)) as [->|Hne].
    + rewrite lookup_insert_eq. intros [= <-]. simpl. lia.
    + rewrite lookup_insert_ne by done. apply Hn.
  - intros i info. destruct (decide (resourceId = i)) as [->|Hne].
    + rewrite lookup_insert_eq. intros [= <-]. simpl. congruence.
    + rewrite lookup_insert_ne by done. apply Hz.
  - intros i Hi. destruct (decide (resourceId = i)) as [->|Hne].
    + rewrite lookup_insert_eq. eauto.
    + rewrite lookup_insert_ne by done. by apply Hq.
  - intros i. destruct (decide (resourceId = i)) as [->|Hne].
    + rewrite lookup_insert_eq. rewrite <- Ho, E. split; eauto.
    + rewrite lookup_insert_ne by done. apply Ho.
Qed.

Lemma touchResource_ok resourceId now w :
  registry_ok (resourceManager w) →
  registry_ok (resourceManager (touchResource resourceId now w)).
Proof.
  intros [Hn Hz Hq Ho]. unfold touchResource.
  destruct (resources (resourceManager w) !! resourceId) as [info0|] eqn:E; [|by split].
  split; simpl.
  - intros i info. destruct (decide (resourceId = i)) as [->|Hne].
    + rewrite lookup_insert_eq. intros [= <-]. simpl. eauto.
    + rewrite lookup_insert_ne by done. apply Hn.
  - intros i info. destruct (decide (resourceId = i)) as [->|Hne].
    + rewrite lookup_insert_eq. intros [= <-]. simpl. eauto.
    + rewrite lookup_insert_ne by done. apply Hz.
  - intros i Hi. destruct (decide (resourceId = i)) as [->|Hne].
    + rewrite lookup_insert_eq. eauto.
    + rewrite lookup_insert_ne by done. by apply Hq.
  - intros i. destruct (decide (resourceId = i)) as [->|Hne].
    + rewrite lookup_insert_eq. rewrite <- Ho, E. split; eauto.
    + rewrite lookup_insert_ne by done. apply Ho.
Qed.

(** The registry part of the outcome of [disposeResource]: either nothing
    changed, or the id left all three collections. *)
Lemma disposeResource_registry resourceId force w :
  let '(ok, w') := disposeResource resourceId force w in
  (ok = false ∧ w' = w) ∨
  (ok = true ∧
   resources (resourceManager w') = delete resourceId (resources (resourceManager w)) ∧
   resourceObjects (resourceManager w') = delete resourceId (resourceObjects (resourceManager w)) ∧
   disposalQueue (resourceManager w') = Js.Set_delete resourceId (disposalQueue (resourceManager w)) ∧
   autoCleanupInterval (resourceManager w') = autoCleanupInterval (resourceManager w) ∧
   isAutoCleanupEnabled (resourceManager w') = isAutoCleanupEnabled (resourceManager w)).
Proof.
  unfold disposeResource.
  destruct (resources (resourceManager w) !! resourceId) as [info|]; [|by left].
  destruct (resourceObjects (resourceManager w) !! resourceId) as [resource|]; [|by left].
  destruct (negb force && bool_decide (0 < refCount info)%Z); [by left|].
  right. simpl. done.
Qed.

Lemma disposeResource_ok resourceId force w :
  registry_ok (resourceManager w) →
  registry_ok (resourceManager (snd (disposeResource resourceId force w))).
Proof.
  intros Hok. pose proof (disposeResource_registry resourceId force w) as H.
  destruct (disposeResource resourceId force w) as [ok w']. simpl.
  destruct H as [[_ ->]|(_ & Hr & Ho' & Hq' & _)]; [done|].
  destruct Hok as [Hn Hz Hq Ho].
  split; rewrite ?Hr, ?Ho', ?Hq'.
  - intros i info. rewrite lookup_delete_Some. intros [_ ?]. eauto.
  - intros i info. rewrite lookup_delete_Some, Set_delete_elem. intros [? ?] ?. split; eauto.
  - intros i. rewrite Set_delete_elem. intros [? ?].
    rewrite lookup_delete_ne by done. eauto.
  - intros i. destruct (decide (resourceId = i)) as [->|Hne].
    + rewrite !lookup_delete_eq. split; intros [? ?]; done.
    + rewrite !lookup_delete_ne by done. apply Ho.
Qed.

Lemma disposeEach_ok ids force w :
  registry_ok (resourceManager w) →
  registry_ok (resourceManager (snd (disposeEach ids force w))).
Proof.
  unfold disposeEach. generalize 0%Z as n. revert w.
  induction ids as [|i ids IH]; intros w n Hok; simpl; [done|].
  pose proof (disposeResource_ok i force w Hok) as Hok'.
  destruct (disposeResource i force w) as [ok w']. simpl in *.
  by apply IH.
Qed.

Lemma disableAutoCleanup_ok w :
  registry_ok (resourceManager w) →
  registry_ok (resourceManager (disableAutoCleanup w)).
Proof. intros [Hn Hz Hq Ho]. by split. Qed.

Lemma exec_ok c w :
  registry_ok (resourceManager w) → registry_ok (resourceManager (exec c w)).
Proof.
  intros Hok. destruct c; simpl.
  - by apply registerResource_ok.
  - by apply addReference_ok.
  - by apply removeReference_ok.
  - by apply touchResource_ok.
  - by apply disposeResource_ok.
  - by apply disposeEach_ok.
  - by apply disposeEach_ok.
  - unfold enableAutoCleanup.
    destruct (isAutoCleanupEnabled (resourceManager w)); destruct Hok; by split.
  - by apply disableAutoCleanup_ok.
  - unfold autoCleanupTick.
    destruct (autoCleanupInterval (resourceManager w)) as [[? opts]|]; [|done].
    apply disposeEach_ok. by apply disposeEach_ok.
  - by apply disposeEach_ok.
  - unfold dispose. split; simpl.
    + intros i info H. by rewrite lookup_empty in H.
    + intros i info H. by rewrite lookup_empty in H.
    + intros i H. by apply elem_of_nil in H.
    + intros i. by rewrite !lookup_empty.
  - done.
Qed.

Lemma run_ok cs w :
  registry_ok (resourceManager w) → registry_ok (resourceManager (run cs w)).
Proof.
  revert w. induction cs as [|c cs IH]; intros w Hok; simpl; [done|].
  apply IH. by apply exec_ok.
Qed.

End Registry.

Lemma queue_kept_refl w : queue_kept w w.
Proof. split; auto. Qed.

Lemma queue_kept_trans w1 w2 w3 : queue_kept w1 w2 → queue_kept w2 w3 → queue_kept w1 w3.
Proof.
  intros [Hq1 Hg1] [Hq2 Hg2]. split; [|by auto].
  intros i Hi. destruct (Hq1 i Hi) as [?|?]; auto.
Qed.

Lemma disposeResource_kept resourceId force w :
  queue_kept w (snd (ResourceManager.disposeResource resourceId force w)).
Proof.
  pose proof (disposeResource_registry resourceId force w) as H.
  destruct (ResourceManager.disposeResource resourceId force w) as [ok w']. simpl.
  destruct H as [[_ ->]|(_ & Hr & _ & Hq & _)]; [apply queue_kept_refl|].
  split; rewrite Hr; [rewrite Hq|].
  - intros i Hi. destruct (decide (i = resourceId)) as [->|Hne].
    + right. apply lookup_delete_eq.
    + left. by apply Set_delete_elem.
  - intros i Hi. rewrite lookup_delete_None. auto.
Qed.

Lemma disposeEach_kept ids force w :
  queue_kept w (snd (ResourceManager.disposeEach ids force w)).
Proof.
  unfold ResourceManager.disposeEach. generalize 0%Z as n. revert w.
  induction ids as [|i ids IH]; intros w n; simpl; [apply queue_kept_refl|].
  pose proof (disposeResource_kept i force w) as Hk.
  destruct (ResourceManager.disposeResource i force w) as [ok w']. simpl in *.
  eapply queue_kept_trans; [exact Hk|apply IH].
Qed.

Lemma addReference_queue resourceId now w :
  disposalQueue (resourceManager (ResourceManager.addReference resourceId now w))
  = disposalQueue (resourceManager w).
Proof.
  unfold ResourceManager.addReference.
  by destruct (resources (resourceManager w) !! resourceId).
Qed.

Lemma exec_leaves_only_disposed c w i :
  i ∈ disposalQueue (resourceManager w) →
  i ∈ disposalQueue (resourceManager (ResourceManager.exec c w))
  ∨ resources (resourceManager (ResourceManager.exec c w)) !! i = None.
Proof.
  intros Hi. destruct c; simpl.
  - by left.
  - left. by rewrite addReference_queue.
  - left. unfold ResourceManager.removeReference.
    destruct (resources (resourceManager w) !! resourceId); [|done].
    case_decide; simpl; [|done]. apply Set_add_elem. by right.
  - left. unfold ResourceManager.touchResource.
    by destruct (resources (resourceManager w) !! resourceId).
  - by apply disposeResource_kept.
  - by apply disposeEach_kept.
  - by apply disposeEach_kept.
  - left. unfold ResourceManager.enableAutoCleanup.
    by destruct (isAutoCleanupEnabled (resourceManager w)).
  - by left.
  - unfold ResourceManager.autoCleanupTick.
    destruct (autoCleanupInterval (resourceManager w)) as [[? opts]|]; [|by left].
    eapply queue_kept_trans; [apply disposeEach_kept|apply disposeEach_kept|exact Hi].
  - by apply disposeEach_kept.
  - right. apply lookup_empty.
  - by left.
Qed.

(** A queued id that is referenced again is skipped by the queue run. *)
Lemma disposeEach_skips ids w i info :
  resources (resourceManager w) !! i = Some info →
  (0 < refCount info)%Z →
  i ∈ disposalQueue (resourceManager w) →
  let w' := snd (ResourceManager.disposeEach ids false w) in
  resources (resourceManager w') !! i = Some info ∧ i ∈ disposalQueue (resourceManager w').
Proof.
  intros Hinfo Hrc. revert Hinfo.
  unfold ResourceManager.disposeEach. generalize 0%Z as n. revert w.
  induction ids as [|j ids IH]; intros w n Hinfo Hq; simpl; [done|].
  pose proof (disposeResource_registry j false w) as H.
  destruct (decide (j = i)) as [->|Hne].
  - unfold ResourceManager.disposeResource in *. rewrite Hinfo in *.
    destruct (resourceObjects (resourceManager w) !! i); simpl.
    + rewrite bool_decide_eq_true_2 by done. simpl. by apply IH.
    + by apply IH.
  - destruct (ResourceManager.disposeResource j false w) as [ok w']. simpl.
    destruct H as [[_ ->]|(_ & Hr & _ & Hq' & _)]; [by apply IH|].
    apply IH.
    + rewrite Hr. by rewrite lookup_delete_ne.
    + rewrite Hq'. apply Set_delete_elem. split; [congruence|done].
Qed.

(** C1 (as stated) fails: registering g1, dropping its only reference and
    taking a reference again leaves g1 in the disposal queue with reference
    count 1. *)
Lemma disposal_queue_not_exact :
  let w := ResourceManager.run
             [ResourceManager.call_registerResource 4 T_geometry (Some "g1") 1000 "";
              ResourceManager.call_removeReference "g1";
              ResourceManager.call_addReference "g1" 1001]
             Sample.world in
  "g1" ∈ disposalQueue (resourceManager w)
  ∧ refCount <$> ResourceManager.getResourceInfo "g1" w = Some 1%Z
  ∧ ¬ queue_exact w.
Proof.
  assert (Hq : "g1" ∈ disposalQueue (resourceManager
             (ResourceManager.run
               [ResourceManager.call_registerResource 4 T_geometry (Some "g1") 1000 "";
                ResourceManager.call_removeReference "g1";
                ResourceManager.call_addReference "g1" 1001] Sample.world))).
  { vm_compute. apply list_elem_of_singleton. reflexivity. }
  split; [exact Hq|]. split; [reflexivity|].
  intros Hex. apply Hex in Hq. destruct Hq as (info & Hinfo & Hrc).
  vm_compute in Hinfo. injection Hinfo as <-. discriminate Hrc.
Qed.

(** C1 (amended): between any two calls, every registered id whose
    reference count is 0 is in the disposal queue and every queued id is
    still registered (not yet disposed).  [removeReference] queues an id whose
    count reaches 0; [addReference] leaves the queue as it is, so a queued id
    may be referenced again; such an id is skipped by [processDisposalQueue]
    and stays queued; an id leaves the queue only when its record leaves the
    registry. *)
Theorem disposal_queue_invariant (h : Three.Heap) (cs : list ResourceManager.Call) :
  let w := ResourceManager.run cs (initial_world h) in
  (∀ i info, ResourceManager.getResourceInfo i w = Some info → refCount info = 0%Z →
             i ∈ disposalQueue (resourceManager w))
  ∧ (∀ i, i ∈ disposalQueue (resourceManager w) →
          is_Some (ResourceManager.getResourceInfo i w))
  ∧ (∀ i info, ResourceManager.getResourceInfo i w = Some info → (refCount info ≤ 1)%Z →
               i ∈ disposalQueue (resourceManager (ResourceManager.removeReference i w)))
  ∧ (∀ i now, disposalQueue (resourceManager (ResourceManager.addReference i now w))
              = disposalQueue (resourceManager w))
  ∧ (∀ i info, i ∈ disposalQueue (resourceManager w) →
               ResourceManager.getResourceInfo i w = Some info → (0 < refCount info)%Z →
               let w' := snd (ResourceManager.processDisposalQueue w) in
               i ∈ disposalQueue (resourceManager w')
               ∧ ResourceManager.getResourceInfo i w' = Some info)
  ∧ (∀ c i, i ∈ disposalQueue (resourceManager w) →
            i ∉ disposalQueue (resourceManager (ResourceManager.exec c w)) →
            ResourceManager.getResourceInfo i (ResourceManager.exec c w) = None).
Proof.
  intros w.
  assert (Hok : registry_ok (resourceManager w)).
  { apply run_ok. apply new_registry_ok. }
  destruct Hok as [Hn Hz Hq Ho].
  split; [exact Hz|]. split; [exact Hq|]. split; [|split; [|split]].
  - intros i info Hinfo Hrc. unfold ResourceManager.removeReference.
    unfold ResourceManager.getResourceInfo in Hinfo. rewrite Hinfo.
    pose proof (Hn _ _ Hinfo).
    rewrite decide_True by lia. simpl. apply Set_add_elem. by left.
  - intros i now. apply addReference_queue.
  - intros i info Hi Hinfo Hrc. simpl.
    destruct (disposeEach_skips (disposalQueue (resourceManager w)) w i info Hinfo Hrc Hi).
    done.
  - intros c i Hi Hout.
    destruct (exec_leaves_only_disposed c w i Hi); [done|done].
Qed.

(** C2: whatever calls were made, a registration starts the count at 1,
    no count is negative, a non-forced [disposeResource] succeeds exactly on
    a count of 0, and on a positive count it returns false and changes
    nothing (registry, queue and scene objects alike). *)
Theorem refcount_invariant (h : Three.Heap) (cs : list ResourceManager.Call) :
  let w := ResourceManager.run cs (initial_world h) in
  (∀ resource t oid now rnd,
     let r := ResourceManager.registerResource resource t oid now rnd w in
     refCount <$> ResourceManager.getResourceInfo (fst r) (snd r) = Some 1%Z)
  ∧ (∀ i info, ResourceManager.getResourceInfo i w = Some info → (0 ≤ refCount info)%Z)
  ∧ (∀ i info, ResourceManager.getResourceInfo i w = Some info →
               (fst (ResourceManager.disposeResource i false w) = true ↔ refCount info = 0%Z))
  ∧ (∀ i info, ResourceManager.getResourceInfo i w = Some info → (0 < refCount info)%Z →
               ResourceManager.disposeResource i false w = (false, w)).
Proof.
  intros w.
  assert (Hok : registry_ok (resourceManager w)).
  { apply run_ok. apply new_registry_ok. }
  destruct Hok as [Hn Hz Hq Ho].
  split; [|split; [exact Hn|split]].
  - intros resource t oid now rnd. unfold ResourceManager.registerResource,
      ResourceManager.getResourceInfo. simpl. by rewrite lookup_insert_eq.
  - intros i info Hinfo. unfold ResourceManager.getResourceInfo in Hinfo.
    pose proof (Hn _ _ Hinfo) as Hpos.
    assert (Hobj : is_Some (resourceObjects (resourceManager w) !! i)) by (apply Ho; eauto).
    destruct Hobj as [resource Hobj].
    unfold ResourceManager.disposeResource. rewrite Hinfo, Hobj. simpl.
    destruct (decide (0 < refCount info)%Z) as [Hlt|Hle].
    + rewrite bool_decide_eq_true_2 by done. simpl. split; [done|lia].
    + rewrite bool_decide_eq_false_2 by done. simpl. split; [lia|done].
  - intros i info Hinfo Hrc. unfold ResourceManager.getResourceInfo in Hinfo.
    unfold ResourceManager.disposeResource. rewrite Hinfo.
    destruct (resourceObjects (resourceManager w) !! i); [|done].
    simpl. by rewrite bool_decide_eq_true_2.
Qed.

(** The scenarios of the manager's own tests, on the sample scene. *)

Example registration_starts_at_one :
  let r := ResourceManager.registerResource 4 T_geometry None 1000 "k3j9x2m1q" Sample.world in
  fst r = "geometry_1000_k3j9x2m1q"
  ∧ ResourceManager.getResourceInfo (fst r) (snd r)
    = Some (mkResourceInfo "geometry_1000_k3j9x2m1q" T_geometry 42 1000 1000 1).
Proof. split; reflexivity. Qed.

Example last_reference_queues :
  let w := ResourceManager.run
             [ResourceManager.call_registerResource 4 T_geometry (Some "g1") 1000 "";
              ResourceManager.call_removeReference "g1"] Sample.world in
  refCount <$> ResourceManager.getResourceInfo "g1" w = Some 0%Z
  ∧ ResourceManager.queuedForDisposal (ResourceManager.getResourceStats w) = 1%Z.
Proof. split; reflexivity. Qed.

Example queue_run_disposes_unreferenced :
  let w := ResourceManager.run
             [ResourceManager.call_registerResource 4 T_geometry (Some "g1") 1000 "";
              ResourceManager.call_registerResource 5 T_geometry (Some "g2") 1000 "";
              ResourceManager.call_removeReference "g1";
              ResourceManager.call_removeReference "g2"] Sample.world in
  let r := ResourceManager.processDisposalQueue w in
  fst r = 2%Z
  ∧ ResourceManager.totalResources (ResourceManager.getResourceStats (snd r)) = 0%Z
  ∧ Three.disposed (heap (snd r)) <$> [4; 5] = [1; 1]%nat.
Proof. repeat split; reflexivity. Qed.

Example referenced_resource_is_kept :
  let w := ResourceManager.run
             [ResourceManager.call_registerResource 4 T_geometry (Some "g1") 1000 "";
              ResourceManager.call_addReference "g1" 1001] Sample.world in
  ResourceManager.disposeResource "g1" false w = (false, w)
  ∧ refCount <$> ResourceManager.getResourceInfo "g1" w = Some 2%Z
  ∧ fst (ResourceManager.disposeResource "g1" true w) = true.
Proof. repeat split; reflexivity. Qed.

(** C3 (as stated) fails: registering a material under the id "x" that
    already names a geometry with two references returns "x" like any other
    registration, and the record and the owning object of "x" are replaced. *)
Lemma duplicate_registration_replaces :
  let w := ResourceManager.run
             [ResourceManager.call_registerResource 4 T_geometry (Some "x") 1000 "";
              ResourceManager.call_addReference "x" 1001]
             Sample.world in
  let r := ResourceManager.registerResource 7 T_material (Some "x") 1002 "" w in
  ResourceManager.getResourceInfo "x" w = Some (mkResourceInfo "x" T_geometry 42 1000 1001 2)
  ∧ resourceObjects (resourceManager w) !! "x" = Some 4
  ∧ fst r = "x"
  ∧ ResourceManager.getResourceInfo "x" (snd r)
    = Some (mkResourceInfo "x" T_material 1024 1002 1002 1)
  ∧ resourceObjects (resourceManager (snd r)) !! "x" = Some 7
  ∧ ResourceManager.getResourceInfo "x" (snd r) ≠ ResourceManager.getResourceInfo "x" w
  ∧ resourceObjects (resourceManager (snd r)) !! "x" ≠ resourceObjects (resourceManager w) !! "x".
Proof. vm_compute. repeat split; discriminate. Qed.

(** C3 (amended): a registration under an explicit id that is already
    present is an ordinary registration: it returns the id and stores a new
    record (the new type and size, the current time, reference count 1) and
    the new owning object in place of the old ones; the other ids, the
    disposal queue and the scene objects are as before. *)
Theorem registerResource_replaces (w : World) (resource : Three.ref) (t : ResourceType)
        (i : string) (now : Z) (rnd : string) :
  i ≠ "" →
  is_Some (ResourceManager.getResourceInfo i w) →
  let r := ResourceManager.registerResource resource t (Some i) now rnd w in
  fst r = i
  ∧ ResourceManager.getResourceInfo i (snd r)
    = Some (mkResourceInfo i t (ResourceManager.estimateResourceSize (heap w) resource t)
                           now now 1)
  ∧ resourceObjects (resourceManager (snd r)) !! i = Some resource
  ∧ (∀ j, j ≠ i →
          ResourceManager.getResourceInfo j (snd r) = ResourceManager.getResourceInfo j w
          ∧ resourceObjects (resourceManager (snd r)) !! j
            = resourceObjects (resourceManager w) !! j)
  ∧ disposalQueue (resourceManager (snd r)) = disposalQueue (resourceManager w)
  ∧ heap (snd r) = heap w.
Proof.
  intros Hi _. unfold ResourceManager.registerResource, ResourceManager.getResourceInfo.
  rewrite decide_False by done. simpl.
  rewrite !lookup_insert_eq. repeat split; try done.
  - by rewrite lookup_insert_ne.
  - by rewrite lookup_insert_ne.
Qed.

Lemma registerResource_replaces_witness :
  let w := ResourceManager.run
             [ResourceManager.call_registerResource 4 T_geometry (Some "x") 1000 "";
              ResourceManager.call_addReference "x" 1001]
             Sample.world in
  ResourceManager.getResourceInfo "x"
    (snd (ResourceManager.registerResource 7 T_material (Some "x") 1002 "" w))
  = Some (mkResourceInfo "x" T_material 1024 1002 1002 1).
Proof.
  intros w.
  refine (proj1 (proj2 (registerResource_replaces w 7 T_material "x" 1002 "" _ _))).
  - discriminate.
  - vm_compute. eauto.
Defined.

(** * Properties of the chunking step *)

Section Chunking.

Import ProgressiveLoader.

Variables (limit : Z) (p : LoadingPriority) (stamp : nat → string).
Variable meshSize : Three.ref → Z.
Hypothesis meshSize_nonneg : ∀ m, (0 ≤ meshSize m)%Z.
Lemma sizes_snoc ms m : sizes meshSize (ms ++ [m]) = (sizes meshSize ms + meshSize m)%Z.
Proof.
  unfold sizes, ResourceManager.sum_Z. rewrite fmap_app, foldr_app. simpl.
  generalize (meshSize m). intros z.
  induction (meshSize <$> ms) as [|x l IH]; simpl; lia.
Qed.

Lemma sizes_nonneg ms : (0 ≤ sizes meshSize ms)%Z.
Proof.
  unfold sizes, ResourceManager.sum_Z. induction ms as [|x ms IH]; [simpl; lia|].
  rewrite fmap_cons. cbn [foldr]. pose proof (meshSize_nonneg x). lia.
Qed.

Lemma sizes_elem ms m : m ∈ ms → (meshSize m ≤ sizes meshSize ms)%Z.
Proof.
  unfold sizes, ResourceManager.sum_Z.
  induction ms as [|x ms IH]; intros Hin; [by apply elem_of_nil in Hin|].
  rewrite fmap_cons. cbn [foldr].
  apply elem_of_cons in Hin as [->|Hin].
  - pose proof (sizes_nonneg ms). unfold sizes, ResourceManager.sum_Z in *. lia.
  - specialize (IH Hin). pose proof (meshSize_nonneg x). lia.
Qed.

Lemma members_ok_singleton m : members_ok limit meshSize [m].
Proof.
  split; simpl; [lia|].
  intros m' Hin _. apply list_elem_of_singleton in Hin. by subst.
Qed.

Lemma chunk_step_ok done st mesh :
  chunking_ok limit p meshSize done st →
  chunking_ok limit p meshSize (done ++ [mesh]) (chunk_step limit p stamp meshSize st mesh).
Proof.
  intros (Hcs & Hsz & Hcur & Hdone). unfold chunk_step.
  destruct (bool_decide (limit < currentSize st + meshSize mesh)%Z) eqn:Hover;
    destruct (bool_decide (0 < length (currentChunk st))%nat) eqn:Hlen; simpl.
  - (* the current chunk is closed and a new one starts with [mesh] *)
    apply bool_decide_eq_true in Hlen.
    split; [|split; [|split]]; simpl.
    + apply Forall_app. split; [done|]. apply Forall_singleton.
      unfold chunk_ok, createChunk; simpl.
      split; [done|]. split; [|done].
      intros Hnil. rewrite Hnil in Hlen. simpl in Hlen. lia.
    + unfold sizes, ResourceManager.sum_Z. simpl. lia.
    + apply members_ok_singleton.
    + rewrite fmap_app, concat_app. simpl. rewrite app_nil_r.
      by rewrite <- Hdone.
  - (* the current chunk is empty: [mesh] is taken whatever its size *)
    apply bool_decide_eq_false in Hlen.
    assert (Hnil : currentChunk st = []).
    { destruct (currentChunk st); [done|]. simpl in Hlen. lia. }
    split; [|split; [|split]]; simpl; rewrite ?Hnil in *; simpl.
    + done.
    + rewrite Hsz. unfold sizes, ResourceManager.sum_Z. simpl. lia.
    + apply members_ok_singleton.
    + by rewrite <- Hdone, app_nil_r.
  - (* [mesh] fits *)
    apply bool_decide_eq_false in Hover.
    split; [|split; [|split]]; simpl.
    + done.
    + rewrite sizes_snoc. lia.
    + split.
      * intros _. rewrite sizes_snoc. lia.
      * intros m Hin Hbig. exfalso.
        assert (meshSize m ≤ sizes meshSize (currentChunk st ++ [mesh]))%Z by by apply sizes_elem.
        rewrite sizes_snoc in *. lia.
    + rewrite <- Hdone. by rewrite app_assoc.
  - apply bool_decide_eq_false in Hlen.
    assert (Hnil : currentChunk st = []).
    { destruct (currentChunk st); [done|]. simpl in Hlen. lia. }
    split; [|split; [|split]]; simpl; rewrite ?Hnil in *; simpl.
    + done.
    + rewrite Hsz. unfold sizes, ResourceManager.sum_Z. simpl. lia.
    + apply members_ok_singleton.
    + by rewrite <- Hdone, app_nil_r.
Qed.

Lemma chunking_loop_ok ms :
  chunking_ok limit p meshSize ms (foldl (chunk_step limit p stamp meshSize) (mkChunking [] [] 0%Z) ms).
Proof.
  induction ms as [|mesh ms IH] using rev_ind.
  - repeat split; simpl; try done; try lia.
    intros m Hin. by apply elem_of_nil in Hin.
  - rewrite foldl_snoc. by apply chunk_step_ok.
Qed.

Lemma createChunksWith_ok ms :
  let cs := createChunksWith limit p stamp meshSize ms in
  Forall (chunk_ok limit p meshSize) cs ∧ concat (meshes <$> cs) = ms.
Proof.
  pose proof (chunking_loop_ok ms) as (Hcs & Hsz & Hcur & Hdone).
  unfold createChunksWith. simpl.
  destruct (bool_decide _) eqn:Hlen.
  - apply bool_decide_eq_true in Hlen. split.
    + apply Forall_app. split; [done|]. apply Forall_singleton.
      unfold chunk_ok, createChunk; simpl.
      split; [done|]. split; [|done].
      intros Hnil. rewrite Hnil in Hlen. simpl in Hlen. lia.
    + rewrite fmap_app, concat_app. simpl. by rewrite app_nil_r.
  - apply bool_decide_eq_false in Hlen. split; [done|].
    rewrite <- Hdone at 2.
    destruct (currentChunk _); [by rewrite app_nil_r|simpl in Hlen; lia].
Qed.

End Chunking.

Lemma estimateMeshSize_nonneg h m : (0 ≤ ProgressiveLoader.estimateMeshSize h m)%Z.
Proof.
  assert (Hb : ∀ a, (0 ≤ Three.byteLength a)%Z) by (intros a; unfold Three.byteLength; lia).
  assert (Hs : ∀ l : list Three.BufferAttribute,
             (0 ≤ ResourceManager.sum_Z
                    ((λ a, if Three.isBufferAttribute a then Three.byteLength a else 0%Z) <$> l))%Z).
  { induction l as [|a l IH]; unfold ResourceManager.sum_Z in *; [simpl; lia|].
    rewrite fmap_cons. cbn [foldr].
    specialize (Hb a). destruct (Three.isBufferAttribute a); lia. }
  unfold ProgressiveLoader.estimateMeshSize.
  destruct (Three.getObject3D h m) as [o|]; [|lia].
  destruct (Three.kind o) as [[g|] ?| | | | |]; try lia.
  destruct (Three.deref h g) as [[geo| | |]|]; try lia.
  specialize (Hs (snd <$> Three.attributes geo)).
  destruct (Three.index geo) as [i|]; [specialize (Hb i)|]; lia.
Qed.

(** C5: the chunks made from a list of meshes partition it in order; each
    records the sum of its members' size estimates; a chunk of more than one
    member is within [chunkSizeLimit]; and a mesh whose estimate exceeds the
    limit is the only member of its chunk. *)
Theorem chunk_size_bound (w : World) (stamp : nat → string) (ms : list Three.ref)
        (p : LoadingPriority) :
  let limit := chunkSizeLimit (options (progressiveLoader w)) in
  let size := ProgressiveLoader.estimateMeshSize (heap w) in
  let cs := ProgressiveLoader.createChunksFromMeshes w stamp ms p in
  concat (meshes <$> cs) = ms
  ∧ Forall (λ c, priority c = p
                 ∧ estimatedSize c = ResourceManager.sum_Z (size <$> meshes c)
                 ∧ ((1 < length (meshes c))%nat →
                    (ResourceManager.sum_Z (size <$> meshes c) ≤ limit)%Z)) cs
  ∧ (∀ c m, c ∈ cs → m ∈ meshes c → (limit < size m)%Z → meshes c = [m]).
Proof.
  intros limit size cs.
  destruct (createChunksWith_ok limit p stamp size (estimateMeshSize_nonneg (heap w)) ms)
    as [Hok Hcat].
  fold cs in Hok, Hcat. split; [exact Hcat|]. split.
  - eapply Forall_impl; [exact Hok|].
    intros c (Hp & _ & Hsz & Hbound & _). unfold sizes in *. repeat split; auto.
  - intros c m Hc Hm Hbig.
    rewrite Forall_forall in Hok. destruct (Hok c Hc) as (_ & _ & _ & _ & Hover).
    by apply Hover.
Qed.

(** The three sample meshes (1066 bytes each) under a limit of 2500 bytes:
    two fit in one chunk, the third starts the next. *)
Example chunks_of_sample :
  meshes <$> ProgressiveLoader.createChunksWith 2500 HIGH (Sample.stamp HIGH)
               (ProgressiveLoader.estimateMeshSize Sample.scene_heap) [1; 2; 3]
  = [[1; 2]; [3]].
Proof. reflexivity. Qed.

(** Under a limit of 1000 bytes every mesh is oversized and alone. *)
Example oversized_meshes_alone :
  meshes <$> ProgressiveLoader.createChunksWith 1000 HIGH (Sample.stamp HIGH)
               (ProgressiveLoader.estimateMeshSize Sample.scene_heap) [1; 2; 3]
  = [[1]; [2]; [3]].
Proof. reflexivity. Qed.

(** * Properties of the loading loop *)

Lemma Set_add_length (x : string) (s : list string) :
  (length (Js.Set_add x s) ≤ S (length s))%nat.
Proof.
  unfold Js.Set_add. destruct (decide (x ∈ s)); [lia|].
  rewrite length_app. simpl. lia.
Qed.

Lemma Set_delete_length (x : string) (s : list string) :
  (length (Js.Set_delete x s) ≤ length s)%nat.
Proof. unfold Js.Set_delete. apply length_filter. Qed.

Lemma foldl_proj {A S T} (proj : S → T) (f : S → A → S) :
  (∀ s a, proj (f s a) = proj s) → ∀ l s, proj (foldl f s l) = proj s.
Proof.
  intros Hf l. induction l as [|a l IH]; intros s; simpl; [done|].
  by rewrite IH.
Qed.

Lemma register_mesh_loader now mesh w :
  loader_part (ProgressiveLoader.register_mesh now mesh w) = loader_part w.
Proof.
  unfold ProgressiveLoader.register_mesh. simpl.
  destruct (Three.getObject3D _ mesh) as [o|]; [|done].
  destruct (Three.kind o) as [geometry material| | | | |]; try done.
  rewrite foldl_proj; [|done].
  destruct geometry as [g|]; [|done].
  match goal with |- context [Three.deref ?h g] => destruct (Three.deref h g) as [[geo| | |]|] end;
    done.
Qed.

Lemma loadChunk_begin_loader chunk now w :
  progressiveLoader (ProgressiveLoader.loadChunk_begin chunk now w)
  = ProgressiveLoader.set_activeLoads
      (Js.Set_add (chunk_id chunk) (activeLoads (progressiveLoader w))) (progressiveLoader w)
  ∧ pendingLoads (ProgressiveLoader.loadChunk_begin chunk now w) = pendingLoads w.
Proof.
  unfold ProgressiveLoader.loadChunk_begin.
  pose proof (foldl_proj loader_part (λ acc mesh, ProgressiveLoader.register_mesh now mesh acc)
                (λ s a, register_mesh_loader now a s) (meshes chunk)) as H.
  match goal with |- context [foldl _ ?w1 _] => specialize (H w1) end.
  unfold loader_part in H. injection H as H1 H2. by rewrite H1, H2.
Qed.

Lemma step_within_cap w ev w' :
  ProgressiveLoader.step w ev w' →
  within_cap w →
  within_cap w' ∧ options (progressiveLoader w') = options (progressiveLoader w).
Proof.
  unfold within_cap, Js.Set_size.
  intros Hstep Hcap. destruct Hstep as [w chunk rest now Hq Hlt|w chunk before after Hp|w n|w|w chunks].
  - unfold ProgressiveLoader.start_chunk. simpl.
    destruct (loadChunk_begin_loader chunk now
                (ProgressiveLoader.set_loader (ProgressiveLoader.set_loadingQueue rest) w))
      as [-> _]. simpl.
    pose proof (Set_add_length (chunk_id chunk) (activeLoads (progressiveLoader w))).
    unfold Js.Set_size in Hlt. split; [lia|done].
  - simpl.
    pose proof (Set_delete_length (chunk_id chunk) (activeLoads (progressiveLoader w))).
    split; [lia|done].
  - done.
  - simpl. split; [lia|done].
  - done.
Qed.

(** C4: from a state in which the active set is within
    [maxConcurrentChunks] (in particular from an empty active set under a
    cap that is not negative), every state of every execution of the loading
    loop has its active set within the cap, whatever the queue holds and in
    whatever order the started chunks finish. *)
Theorem active_loads_bounded (w0 w : World) (evs : list ProgressiveLoader.Event) :
  (Js.Set_size (activeLoads (progressiveLoader w0))
   ≤ maxConcurrentChunks (options (progressiveLoader w0)))%Z →
  ProgressiveLoader.steps w0 evs w →
  (Js.Set_size (activeLoads (progressiveLoader w))
   ≤ maxConcurrentChunks (options (progressiveLoader w0)))%Z.
Proof.
  intros Hcap Hsteps. induction Hsteps as [w|w1 w2 w3 ev evs Hstep Hsteps IH]; [done|].
  destruct (step_within_cap _ _ _ Hstep Hcap) as [Hcap2 Hopt].
  rewrite <- Hopt. apply IH. exact Hcap2.
Qed.

(** The loop alone takes the chunks off the queue in order. *)
Lemma started_queue w evs w' :
  ProgressiveLoader.loop_only evs →
  ProgressiveLoader.steps w evs w' →
  ProgressiveLoader.started evs ++ loadingQueue (progressiveLoader w')
  = loadingQueue (progressiveLoader w).
Proof.
  intros Hloop Hsteps. induction Hsteps as [w|w1 w2 w3 ev evs Hstep Hsteps IH]; [done|].
  apply Forall_cons in Hloop as [Hev Hloop]. specialize (IH Hloop).
  destruct Hstep as [w chunk rest now Hq Hlt|w chunk before after Hp|w n|w|w chunks];
    simpl in *; try done.
  rewrite IH, Hq. f_equal.
  unfold ProgressiveLoader.start_chunk. simpl.
  destruct (loadChunk_begin_loader chunk now
              (ProgressiveLoader.set_loader (ProgressiveLoader.set_loadingQueue rest) w))
    as [-> _]. done.
Qed.

Lemma Set_delete_add_fresh (x : string) : Js.Set_delete x (Js.Set_add x []) = [].
Proof.
  unfold Js.Set_add, Js.Set_delete. rewrite decide_False by apply not_elem_of_nil.
  simpl. rewrite filter_cons, decide_False by (intros H; by apply H). done.
Qed.

(** Started one at a time, every queued chunk is activated, in queue order. *)
Lemma sequential_run chunks :
  ∀ w, loadingQueue (progressiveLoader w) = chunks →
       activeLoads (progressiveLoader w) = [] →
       (1 ≤ maxConcurrentChunks (options (progressiveLoader w)))%Z →
       ∃ evs w', ProgressiveLoader.loop_only evs
                 ∧ ProgressiveLoader.steps w evs w'
                 ∧ ProgressiveLoader.started evs = chunks
                 ∧ loadingQueue (progressiveLoader w') = [].
Proof.
  induction chunks as [|chunk rest IH]; intros w Hq Ha Hmax.
  - exists [], w. repeat split; [constructor|constructor|done].
  - set (w1 := ProgressiveLoader.start_chunk chunk rest 0 w).
    set (w2 := ProgressiveLoader.loadChunk_finish chunk
                 (with_pendingLoads (pendingLoads w ++ []) w1)).
    destruct (loadChunk_begin_loader chunk 0
                (ProgressiveLoader.set_loader (ProgressiveLoader.set_loadingQueue rest) w))
      as [Hl Hp].
    assert (Hw1 : pendingLoads w1 = pendingLoads w ++ chunk :: []).
    { unfold w1, ProgressiveLoader.start_chunk. simpl. by rewrite Hp. }
    destruct (IH w2) as (evs & w' & Hloop & Hsteps & Hstarted & Hempty).
    + unfold w2, w1, ProgressiveLoader.start_chunk. simpl. by rewrite Hl.
    + unfold w2, w1, ProgressiveLoader.start_chunk. simpl. rewrite Hl. simpl.
      rewrite Ha. apply Set_delete_add_fresh.
    + unfold w2, w1, ProgressiveLoader.start_chunk. simpl. by rewrite Hl.
    + exists (ProgressiveLoader.ev_start chunk :: ProgressiveLoader.ev_finish chunk :: evs), w'.
      split; [by repeat constructor|]. split; [|split; [|done]].
      * eapply ProgressiveLoader.steps_cons.
        { apply (ProgressiveLoader.step_start w chunk rest 0 Hq).
          rewrite Ha. unfold Js.Set_size. simpl. lia. }
        eapply ProgressiveLoader.steps_cons; [|exact Hsteps].
        apply (ProgressiveLoader.step_finish w1 chunk (pendingLoads w) [] Hw1).
      * simpl. by rewrite Hstarted.
Qed.

(** The loop on the sample scene, cap 3: the three chunks are started one
    after the other and finish out of order. *)
Lemma active_loads_bounded_witness :
  let w0 := Sample.queued Sample.world in
  let c1 := mkLoadingChunk "chunk_0_0" CRITICAL [1] 1066 false in
  let c2 := mkLoadingChunk "chunk_1_0" HIGH [2] 1066 false in
  let c3 := mkLoadingChunk "chunk_2_0" MEDIUM [3] 1066 false in
  let w1 := ProgressiveLoader.start_chunk c1 [c2; c3] 0 w0 in
  let w2 := ProgressiveLoader.start_chunk c2 [c3] 0 w1 in
  let w3 := ProgressiveLoader.start_chunk c3 [] 0 w2 in
  let w4 := ProgressiveLoader.loadChunk_finish c2 (with_pendingLoads ([c1] ++ [c3]) w3) in
  (Js.Set_size (activeLoads (progressiveLoader w4)) ≤ 3)%Z.
Proof.
  intros w0 c1 c2 c3 w1 w2 w3 w4.
  apply (active_loads_bounded w0 w4
           [ProgressiveLoader.ev_start c1; ProgressiveLoader.ev_start c2;
            ProgressiveLoader.ev_start c3; ProgressiveLoader.ev_finish c2]).
  - vm_compute. discriminate.
  - eapply ProgressiveLoader.steps_cons;
      [apply (ProgressiveLoader.step_start w0 c1 [c2; c3] 0); vm_compute; reflexivity|].
    eapply ProgressiveLoader.steps_cons;
      [apply (ProgressiveLoader.step_start w1 c2 [c3] 0); vm_compute; reflexivity|].
    eapply ProgressiveLoader.steps_cons;
      [apply (ProgressiveLoader.step_start w2 c3 [] 0); vm_compute; reflexivity|].
    eapply ProgressiveLoader.steps_cons;
      [apply (ProgressiveLoader.step_finish w3 c2 [c1] [c3]); vm_compute; reflexivity|].
    apply ProgressiveLoader.steps_nil.
Defined.

(** * The three-mesh scenario *)

Lemma createChunksWith_singleton limit p stamp meshSize m :
  ProgressiveLoader.createChunksWith limit p stamp meshSize [m]
  = [ProgressiveLoader.createChunk [m] p (0 + meshSize m) (stamp 0%nat)].
Proof.
  unfold ProgressiveLoader.createChunksWith, ProgressiveLoader.chunk_step. simpl.
  rewrite andb_false_r. simpl. done.
Qed.

Lemma determineMeshPriority_by_name h m o :
  Three.getObject3D h m = Some o →
  (Three.name o = "foundation-a"
   → ProgressiveLoader.determineMeshPriority h m = Some CRITICAL)
  ∧ (Three.name o = "panel-wall-1"
     → ProgressiveLoader.determineMeshPriority h m = Some HIGH)
  ∧ (Three.name o = "trim-fixture-2"
     → ProgressiveLoader.determineMeshPriority h m = Some MEDIUM).
Proof.
  intros Ho. unfold ProgressiveLoader.determineMeshPriority. rewrite Ho. simpl.
  repeat split; intros ->; reflexivity.
Qed.

(** C6 (as stated) fails: the mesh named "trim-fixture-2" of the sample
    scene is classified MEDIUM, not LOW, and the three chunks of the scene
    have the priorities CRITICAL, HIGH, MEDIUM. *)
Lemma trim_fixture_is_medium :
  ProgressiveLoader.determineMeshPriority Sample.scene_heap 3 = Some MEDIUM
  ∧ ProgressiveLoader.determineMeshPriority Sample.scene_heap 3 ≠ Some LOW
  ∧ queue_priorities Sample.stamp 0 Sample.world = Some [CRITICAL; HIGH; MEDIUM]
  ∧ queue_priorities Sample.stamp 0 Sample.world ≠ Some [CRITICAL; HIGH; LOW].
Proof. vm_compute. repeat split; discriminate. Qed.

(** The meshes of a class, for three meshes of the classes CRITICAL, HIGH
    and MEDIUM met in any order. *)
Lemma three_classes (f : Three.ref → option LoadingPriority) (l : list Three.ref)
      (m1 m2 m3 : Three.ref) :
  l ≡ₚ [m1; m2; m3] →
  f m1 = Some CRITICAL → f m2 = Some HIGH → f m3 = Some MEDIUM →
  Forall (λ m, is_Some (f m)) l
  ∧ filter (λ m, f m = Some CRITICAL) l = [m1]
  ∧ filter (λ m, f m = Some HIGH) l = [m2]
  ∧ filter (λ m, f m = Some MEDIUM) l = [m3]
  ∧ filter (λ m, f m = Some LOW) l = [].
Proof.
  intros Hl H1 H2 H3.
  assert (Hfilter : ∀ p, filter (λ m, f m = Some p) l
                         ≡ₚ filter (λ m, f m = Some p) [m1; m2; m3])
    by (intros p; by rewrite Hl).
  split.
  { rewrite Hl. repeat constructor; by eauto. }
  pose proof (Hfilter CRITICAL) as HC. pose proof (Hfilter HIGH) as HH.
  pose proof (Hfilter MEDIUM) as HM. pose proof (Hfilter LOW) as HL.
  rewrite !filter_cons, filter_nil, H1, H2, H3 in HC, HH, HM, HL.
  simpl in HC, HH, HM, HL.
  apply Permutation_singleton_r in HC, HH, HM. apply Permutation_nil_r in HL.
  done.
Qed.

(** C6 (amended): for a scene whose meshes are exactly three, named
    "foundation-a", "panel-wall-1" and "trim-fixture-2" and met by the
    traversal in any order, the call builds a queue of exactly three
    chunks, one per mesh, of priorities CRITICAL, HIGH and MEDIUM in this
    order, whatever the size limit; every execution of the loop activates
    them in this order; and under a cap of at least 1 some execution
    activates all three. *)
Theorem three_named_meshes (w : World) (stamp : LoadingPriority → nat → string)
        (scene m1 m2 m3 : Three.ref) (o1 o2 o3 : Three.Object3D) :
  filter (λ object, Three.isMesh (heap w) object = true) (Three.traverse (heap w) scene)
  ≡ₚ [m1; m2; m3] →
  Three.getObject3D (heap w) m1 = Some o1 → Three.name o1 = "foundation-a" →
  Three.getObject3D (heap w) m2 = Some o2 → Three.name o2 = "panel-wall-1" →
  Three.getObject3D (heap w) m3 = Some o3 → Three.name o3 = "trim-fixture-2" →
  ∃ w', ProgressiveLoader.loadModelProgressively_prepare stamp scene w = Some w'
  ∧ let queue := loadingQueue (progressiveLoader w') in
    priority <$> queue = [CRITICAL; HIGH; MEDIUM]
    ∧ meshes <$> queue = [[m1]; [m2]; [m3]]
    ∧ (∀ evs w'', ProgressiveLoader.loop_only evs → ProgressiveLoader.steps w' evs w'' →
                  (priority <$> ProgressiveLoader.started evs)
                    `prefix_of` [CRITICAL; HIGH; MEDIUM])
    ∧ (activeLoads (progressiveLoader w) = [] →
       (1 ≤ maxConcurrentChunks (options (progressiveLoader w)))%Z →
       ∃ evs w'', ProgressiveLoader.loop_only evs ∧ ProgressiveLoader.steps w' evs w''
                  ∧ priority <$> ProgressiveLoader.started evs = [CRITICAL; HIGH; MEDIUM]).
Proof.
  intros Hmeshes Ho1 Hn1 Ho2 Hn2 Ho3 Hn3.
  destruct (determineMeshPriority_by_name _ _ _ Ho1) as (Hp1 & _ & _). specialize (Hp1 Hn1).
  destruct (determineMeshPriority_by_name _ _ _ Ho2) as (_ & Hp2 & _). specialize (Hp2 Hn2).
  destruct (determineMeshPriority_by_name _ _ _ Ho3) as (_ & _ & Hp3). specialize (Hp3 Hn3).
  destruct (three_classes (ProgressiveLoader.determineMeshPriority (heap w)) _ m1 m2 m3
              Hmeshes Hp1 Hp2 Hp3) as (Hall & HC & HH & HM & HL).
  set (queue :=
    [ProgressiveLoader.createChunk [m1] CRITICAL
       (0 + ProgressiveLoader.estimateMeshSize (heap w) m1) (stamp CRITICAL 0%nat);
     ProgressiveLoader.createChunk [m2] HIGH
       (0 + ProgressiveLoader.estimateMeshSize (heap w) m2) (stamp HIGH 0%nat);
     ProgressiveLoader.createChunk [m3] MEDIUM
       (0 + ProgressiveLoader.estimateMeshSize (heap w) m3) (stamp MEDIUM 0%nat)]).
  set (w' := ProgressiveLoader.set_loader (ProgressiveLoader.set_loadingQueue queue) w).
  assert (Hqueue : loadingQueue (progressiveLoader w') = queue) by done.
  exists w'. split.
  { unfold ProgressiveLoader.loadModelProgressively_prepare,
      ProgressiveLoader.analyzeAndChunkModel, ProgressiveLoader.groupMeshesByPriority.
    cbv zeta. rewrite decide_True by exact Hall.
    unfold ProgressiveLoader.createChunksFromMeshes. simpl flat_map.
    rewrite HC, HH, HM, HL. rewrite !createChunksWith_singleton. reflexivity. }
  cbv zeta. rewrite Hqueue.
  split; [done|]. split; [done|]. split.
  - intros evs w'' Hloop Hsteps.
    pose proof (started_queue _ _ _ Hloop Hsteps) as Hst.
    exists (priority <$> loadingQueue (progressiveLoader w'')).
    rewrite <- fmap_app, Hst, Hqueue. done.
  - intros Ha Hmax.
    destruct (sequential_run queue w' eq_refl Ha Hmax) as (evs & w'' & Hloop & Hsteps & Hst & _).
    exists evs, w''. split; [done|]. split; [done|]. by rewrite Hst.
Qed.

(** On the sample scene with the meshes attached in the order 3, 1, 2 the
    queue still starts with the chunk of mesh 1. *)
Lemma three_named_meshes_witness :
  ∃ w', ProgressiveLoader.loadModelProgressively_prepare
          Sample.stamp 0 Sample.reordered_world = Some w'
        ∧ meshes <$> loadingQueue (progressiveLoader w') = [[1]; [2]; [3]].
Proof.
  edestruct (three_named_meshes Sample.reordered_world Sample.stamp 0 1 2 3)
    as (w' & Hw' & _ & Hmeshes & _).
  - change ([3; 1; 2] ≡ₚ [1; 2; 3]). apply (Permutation_cons_append [1; 2] 3).
  - reflexivity.
  - reflexivity.
  - reflexivity.
  - reflexivity.
  - reflexivity.
  - reflexivity.
  - exists w'. split; [exact Hw'|exact Hmeshes].
Defined.

(** * Properties of the adaptive quality step *)

Lemma Qlt_bool_true (a b : Q) : Js.Qlt_bool a b = true ↔ (a < b)%Q.
Proof.
  unfold Js.Qlt_bool. rewrite negb_true_iff. split.
  - intros H. apply Qnot_le_lt. intros Hle. apply Qle_bool_iff in Hle. congruence.
  - intros H. destruct (Qle_bool b a) eqn:E; [|done].
    apply Qle_bool_iff in E. by apply Qlt_not_le in H.
Qed.

Lemma Qlt_bool_false (a b : Q) : Js.Qlt_bool a b = false ↔ (b <= a)%Q.
Proof.
  unfold Js.Qlt_bool. rewrite negb_false_iff. apply Qle_bool_iff.
Qed.

(** C7 (as stated) fails: at a pixel ratio of 3/4 (a device pixel ratio
    below 1) and 10 frames per second against a target of 30, the ratio stays
    3/4; it does not become max(1, 3/4 × 0.8) = 1. *)
Lemma low_ratio_not_raised :
  let w := RenderOptimizer.initialize (mkWebGLRenderer 1 false) 0 10 (3 # 4) Sample.world in
  let w' := RenderOptimizer.adaptiveOptimization (Some 10%Q) (3 # 4) w in
  (10 < targetFPS (settings (renderOptimizer w)) * (8 # 10))%Q
  ∧ pixelRatio <$> renderer (renderOptimizer w) = Some (3 # 4)%Q
  ∧ pixelRatio <$> renderer (renderOptimizer w') = Some (3 # 4)%Q
  ∧ ¬ ((3 # 4) == Js.Math_max 1 ((3 # 4) * (8 # 10)))%Q.
Proof.
  split; [reflexivity|]. split; [reflexivity|]. split; [reflexivity|].
  vm_compute. discriminate.
Qed.

(** C7 (amended): with adaptive quality on, a renderer attached and a
    metrics sample available.  Below 0.8 × target: shadows are off
    afterwards, and the pixel ratio becomes max(1, ratio × 0.8) when it is
    above 1 and stays as it is otherwise.  Above 1.2 × target (and not below
    0.8 × target): shadows are on afterwards, and the pixel ratio becomes
    min(cap, ratio × 1.1) when it is below the cap and stays as it is
    otherwise.  Within the band nothing changes. *)
Theorem adaptive_quality_step (w : World) (r : WebGLRenderer) (fps devicePixelRatio : Q) :
  adaptiveQuality (settings (renderOptimizer w)) = true →
  renderer (renderOptimizer w) = Some r →
  let target := targetFPS (settings (renderOptimizer w)) in
  let cap := Js.Math_min devicePixelRatio 2 in
  let w' := RenderOptimizer.adaptiveOptimization (Some fps) devicePixelRatio w in
  let ratio' := pixelRatio <$> renderer (renderOptimizer w') in
  let shadows' := shadowMap_enabled <$> renderer (renderOptimizer w') in
  ((fps < target * (8 # 10))%Q →
   shadows' = Some false
   ∧ ((1 < pixelRatio r)%Q → ratio' = Some (Js.Math_max 1 (pixelRatio r * (8 # 10))%Q))
   ∧ ((pixelRatio r <= 1)%Q → ratio' = Some (pixelRatio r)))
  ∧ ((target * (8 # 10) <= fps)%Q → (target * (12 # 10) < fps)%Q →
     shadows' = Some true
     ∧ ((pixelRatio r < cap)%Q → ratio' = Some (Js.Math_min cap (pixelRatio r * (11 # 10))%Q))
     ∧ ((cap <= pixelRatio r)%Q → ratio' = Some (pixelRatio r)))
  ∧ ((target * (8 # 10) <= fps)%Q → (fps <= target * (12 # 10))%Q → w' = w).
Proof.
  intros Hon Hr target cap w' ratio' shadows'.
  unfold ratio', shadows', w', RenderOptimizer.adaptiveOptimization.
  rewrite Hon. simpl. fold target.
  split; [|split].
  - intros Hlow. apply Qlt_bool_true in Hlow. rewrite Hlow.
    unfold RenderOptimizer.reduceQuality. rewrite Hr. simpl.
    split; [by destruct (shadowMap_enabled r)|]. split.
    + intros H. apply Qlt_bool_true in H. by rewrite H.
    + intros H. apply Qlt_bool_false in H. by rewrite H.
  - intros Hnotlow Hhigh.
    apply Qlt_bool_false in Hnotlow. apply Qlt_bool_true in Hhigh.
    rewrite Hnotlow, Hhigh.
    unfold RenderOptimizer.increaseQuality. rewrite Hr. simpl.
    fold cap. unfold RenderOptimizer.maxPixelRatio. fold cap.
    split; [by destruct (shadowMap_enabled r)|]. split.
    + intros H. apply Qlt_bool_true in H. by rewrite H.
    + intros H. apply Qlt_bool_false in H. by rewrite H.
  - intros Hnotlow Hnothigh.
    apply Qlt_bool_false in Hnotlow, Hnothigh. by rewrite Hnotlow, Hnothigh.
Qed.

Lemma adaptive_quality_step_witness :
  let w := RenderOptimizer.initialize (mkWebGLRenderer 1 false) 0 10 2 Sample.world in
  let w' := RenderOptimizer.adaptiveOptimization (Some 10%Q) 2 w in
  shadowMap_enabled <$> renderer (renderOptimizer w') = Some false
  ∧ pixelRatio <$> renderer (renderOptimizer w') = Some (Js.Math_max 1 (2 * (8 # 10))%Q).
Proof.
  intros w w'.
  destruct (adaptive_quality_step w (mkWebGLRenderer 2 true) 10 2 eq_refl eq_refl)
    as [Hlow _].
  destruct (Hlow eq_refl) as (Hs & Hr & _).
  split; [exact Hs|]. apply Hr. reflexivity.
Defined.

(** * LOD variants and the registry *)

Lemma assign_visible_disposed r v h x :
  Three.disposed (Three.assign_visible r v h) x = Three.disposed h x.
Proof.
  unfold Three.assign_visible, Three.update3D, Three.getObject3D.
  destruct (Three.deref h r) as [[| | |o]|] eqn:E; try done.
  unfold Three.disposed, Three.deref, Three.store in *. simpl.
  destruct (decide (r = x)) as [->|Hne].
  - by rewrite lookup_insert_eq, E.
  - by rewrite lookup_insert_ne.
Qed.

Lemma createLODForMesh_registry new_uuid mesh config w :
  resourceManager (snd (RenderOptimizer.createLODForMesh new_uuid mesh config w))
  = resourceManager w.
Proof.
  unfold RenderOptimizer.createLODForMesh.
  destruct (Three.alloc _ (heap w)) as [lod h0]. done.
Qed.

(** C8 (as stated) fails: the LOD built for mesh 1 of the sample scene has
    three variant meshes besides the original, none of them is an object of
    the registry, which stays empty; and after the controller's teardown the
    geometry of each variant is as undisposed as before. *)
Lemma lod_variants_unregistered :
  let r := RenderOptimizer.createLODForMesh Sample.new_uuid 1 defaultLODConfig Sample.world in
  let variants := fst <$> RenderOptimizer.levels_of (heap (snd r)) (fst r) in
  let w' := RenderOptimizer.dispose 2 (snd r) in
  variants = [1; 14; 18; 22]
  ∧ ResourceManager.totalResources (ResourceManager.getResourceStats (snd r)) = 0%Z
  ∧ resourceObjects (resourceManager (snd r)) = ∅
  ∧ resourceObjects (resourceManager w') = ∅
  ∧ Forall (λ v, Three.isMesh (heap w') v = true) variants
  ∧ Three.disposed (heap w') <$> [13; 16; 20] = [0; 0; 0]%nat.
Proof. vm_compute. repeat split; repeat constructor. Qed.

Lemma foldl_assign_visible_disposed l v h x :
  Three.disposed (foldl (λ acc object, Three.assign_visible object v acc) h l) x
  = Three.disposed h x.
Proof.
  revert h. induction l as [|y l IH]; intros h; simpl; [done|].
  by rewrite IH, assign_visible_disposed.
Qed.

Lemma optimizer_dispose_effect devicePixelRatio w :
  let w' := RenderOptimizer.dispose devicePixelRatio w in
  resourceManager w' = resourceManager w
  ∧ lodObjects (renderOptimizer w') = []
  ∧ (∀ x, Three.disposed (heap w') x = Three.disposed (heap w) x).
Proof.
  unfold RenderOptimizer.dispose, RenderOptimizer.reset. simpl.
  destruct (renderer (renderOptimizer w)) as [rr|]; simpl;
    destruct (optimizer_scene (renderOptimizer w)) as [scene|]; simpl;
    repeat split; try done; intros x; apply foldl_assign_visible_disposed.
Qed.

(** C8 (amended): building the LOD of a mesh records the LOD object in the
    controller's own [lodObjects] map and leaves the registry (records,
    objects, queue, and so its statistics) exactly as it was: no variant is
    registered.  The controller's teardown empties that map and leaves the
    registry alone as well, and calls [dispose()] on no object. *)
Theorem lod_variants_bypass_registry (new_uuid : Three.ref → string) (mesh : Three.ref)
        (config : LODConfig) (devicePixelRatio : Q) (w : World) :
  let r := RenderOptimizer.createLODForMesh new_uuid mesh config w in
  let w' := RenderOptimizer.dispose devicePixelRatio (snd r) in
  resourceManager (snd r) = resourceManager w
  ∧ ResourceManager.getResourceStats (snd r) = ResourceManager.getResourceStats w
  ∧ lodObjects (renderOptimizer (snd r))
    = Js.Map_set mesh (fst r) (lodObjects (renderOptimizer w))
  ∧ resourceManager w' = resourceManager w
  ∧ lodObjects (renderOptimizer w') = []
  ∧ (∀ x, Three.disposed (heap w') x = Three.disposed (heap (snd r)) x).
Proof.
  intros r w'.
  pose proof (createLODForMesh_registry new_uuid mesh config w) as Hreg. fold r in Hreg.
  split; [exact Hreg|]. split.
  { unfold ResourceManager.getResourceStats. by rewrite Hreg. }
  split.
  { unfold r, RenderOptimizer.createLODForMesh.
    destruct (Three.alloc _ (heap w)) as [lod h0]. done. }
  destruct (optimizer_dispose_effect devicePixelRatio (snd r)) as (H1 & H2 & H3).
  fold w' in H1, H2, H3. split; [by rewrite H1|]. by split.
Qed.

(** * Distance-based visibility against frustum culling *)

Lemma up_to_visibility_refl h : up_to_visibility h h.
Proof.
  intros x. destruct (Three.getObject3D h x) as [o|]; [|done].
  exists (Three.visible o). by destruct o.
Qed.

Lemma getObject3D_assign_visible r v h x :
  Three.getObject3D (Three.assign_visible r v h) x
  = if decide (x = r) then Three.set_visible v <$> Three.getObject3D h x
    else Three.getObject3D h x.
Proof.
  unfold Three.assign_visible, Three.update3D.
  destruct (Three.getObject3D h r) as [o|] eqn:E.
  - unfold Three.getObject3D, Three.deref, Three.store in *. simpl.
    destruct (decide (x = r)) as [->|Hne].
    + rewrite lookup_insert_eq. simpl.
      destruct (Three.cells h !! r) as [[| | |o']|]; try done. by injection E as ->.
    + by rewrite lookup_insert_ne.
  - destruct (decide (x = r)) as [->|Hne]; [|done]. by rewrite E.
Qed.

Lemma assign_visible_up_to h0 h r v :
  up_to_visibility h0 h → up_to_visibility h0 (Three.assign_visible r v h).
Proof.
  intros H x. specialize (H x). rewrite getObject3D_assign_visible.
  destruct (Three.getObject3D h0 x) as [o0|].
  - destruct H as [v' ->]. destruct (decide (x = r)); [|by exists v'].
    exists v. done.
  - rewrite H. by destruct (decide (x = r)).
Qed.

Lemma culling_loop_up_to h0 (intersectsObject : Three.ref → bool) l h :
  up_to_visibility h0 h →
  up_to_visibility h0
    (foldl (λ acc object,
              if Three.isMesh acc object
              then Three.assign_visible object (intersectsObject object) acc
              else acc) h l).
Proof.
  revert h. induction l as [|y l IH]; intros h H; simpl; [done|].
  apply IH. destruct (Three.isMesh h y); [|done]. by apply assign_visible_up_to.
Qed.

Lemma performFrustumCulling_up_to intersectsObject w :
  up_to_visibility (heap w) (heap (RenderOptimizer.performFrustumCulling intersectsObject w))
  ∧ progressiveLoader (RenderOptimizer.performFrustumCulling intersectsObject w)
    = progressiveLoader w.
Proof.
  unfold RenderOptimizer.performFrustumCulling.
  destruct (optimizer_camera (renderOptimizer w)); [|split; [apply up_to_visibility_refl|done]].
  destruct (optimizer_scene (renderOptimizer w)) as [scene|];
    [|split; [apply up_to_visibility_refl|done]].
  simpl. split; [|done].
  apply culling_loop_up_to, up_to_visibility_refl.
Qed.

Section DistanceUpdate.

Variables (h0 : Three.Heap) (cameraPosition : Three.Vector3).
Variables (m : Three.ref) (o0 : Three.Object3D).
Hypothesis m_object : Three.getObject3D h0 m = Some o0.

Lemma show_mesh_up_to p h mesh :
  up_to_visibility h0 h → up_to_visibility h0 (show_mesh cameraPosition p h mesh).
Proof.
  intros H. unfold show_mesh. destruct (Three.getObject3D h mesh); [|done].
  by apply assign_visible_up_to.
Qed.

Lemma show_chunk p ms h :
  up_to_visibility h0 h →
  let h' := foldl (show_mesh cameraPosition p) h ms in
  up_to_visibility h0 h'
  ∧ (m ∈ ms → Three.is_visible h' m
              = Some (ProgressiveLoader.shown_at p cameraPosition (Three.position o0)))
  ∧ (m ∉ ms → Three.is_visible h' m = Three.is_visible h m).
Proof.
  intros Hup. induction ms as [|mesh ms IH] using rev_ind; simpl.
  - split; [done|]. split; [|done]. intros H. by apply elem_of_nil in H.
  - rewrite foldl_snoc. destruct IH as (Hup' & Hin & Hout).
    split; [by apply show_mesh_up_to|].
    unfold Three.is_visible in *. unfold show_mesh at 1 3.
    pose proof (Hup' mesh) as Hmesh.
    destruct (decide (m = mesh)) as [<-|Hne].
    + split; [|intros H; exfalso; apply H; apply elem_of_app; right; by apply list_elem_of_singleton].
      intros _. rewrite m_object in Hmesh. destruct Hmesh as [v ->].
      rewrite getObject3D_assign_visible, decide_True by done.
      pose proof (Hup' m) as Hm. rewrite m_object in Hm. destruct Hm as [v' ->].
      by destruct o0.
    + assert (Hsame : Three.getObject3D
                        match Three.getObject3D (foldl (show_mesh cameraPosition p) h ms) mesh with
                        | Some o =>
                            Three.assign_visible mesh
                              (ProgressiveLoader.shown_at p cameraPosition (Three.position o))
                              (foldl (show_mesh cameraPosition p) h ms)
                        | None => foldl (show_mesh cameraPosition p) h ms
                        end m
                      = Three.getObject3D (foldl (show_mesh cameraPosition p) h ms) m).
      { destruct (Three.getObject3D (foldl (show_mesh cameraPosition p) h ms) mesh); [|done].
        by rewrite getObject3D_assign_visible, decide_False. }
      rewrite Hsame. split.
      * intros H. apply elem_of_app in H as [H|H]; [by apply Hin|].
        apply list_elem_of_singleton in H. congruence.
      * intros H. apply Hout. intros H'. apply H. apply elem_of_app. by left.
Qed.

Lemma show_chunks p (cs : list LoadingChunk) h :
  up_to_visibility h0 h →
  Forall (λ c, m ∈ meshes c → priority c = p) cs →
  let h' := foldl (λ acc chunk, foldl (show_mesh cameraPosition (priority chunk)) acc (meshes chunk)) h cs in
  up_to_visibility h0 h'
  ∧ ((∃ c, c ∈ cs ∧ m ∈ meshes c) →
     Three.is_visible h' m
     = Some (ProgressiveLoader.shown_at p cameraPosition (Three.position o0))).
Proof.
  intros Hup. induction cs as [|c cs IH] using rev_ind; intros Hall; simpl.
  - split; [done|]. intros (c & Hc & _). by apply elem_of_nil in Hc.
  - apply Forall_app in Hall as [Hall Hc]. rewrite Forall_singleton in Hc.
    rewrite foldl_snoc. destruct (IH Hall) as [Hup' Hvis].
    destruct (show_chunk (priority c) (meshes c) _ Hup') as (Hup'' & Hin & Hout).
    split; [exact Hup''|].
    intros (c' & Hc' & Hm).
    destruct (decide (m ∈ meshes c)) as [Hmc|Hmc].
    + rewrite (Hin Hmc). by rewrite (Hc Hmc).
    + rewrite (Hout Hmc). apply Hvis.
      apply elem_of_app in Hc' as [Hc'|Hc']; [by exists c'|].
      apply list_elem_of_singleton in Hc'. by subst.
Qed.

End DistanceUpdate.

Lemma updateDistanceBasedLoading_visible (h0 : Three.Heap) (w : World) (camera : Three.ref)
      (cam : Three.Object3D) (c : LoadingChunk) (m : Three.ref) (o : Three.Object3D) :
  up_to_visibility h0 (heap w) →
  distanceBasedLoading (options (progressiveLoader w)) = true →
  loader_camera (progressiveLoader w) = Some camera →
  is_Some (loader_scene (progressiveLoader w)) →
  Three.getObject3D h0 camera = Some cam →
  c ∈ Js.Map_values (loadedChunks (progressiveLoader w)) →
  m ∈ meshes c →
  Three.getObject3D h0 m = Some o →
  Forall (λ c', m ∈ meshes c' → priority c' = priority c)
         (Js.Map_values (loadedChunks (progressiveLoader w))) →
  Three.is_visible (heap (ProgressiveLoader.updateDistanceBasedLoading w)) m
  = Some (ProgressiveLoader.shown_at (priority c) (Three.position cam) (Three.position o)).
Proof.
  intros Hup Hon Hcam [scene Hscene] Hcamobj Hc Hm Ho Hall.
  unfold ProgressiveLoader.updateDistanceBasedLoading. rewrite Hon, Hcam, Hscene.
  pose proof (Hup camera) as Hc'. rewrite Hcamobj in Hc'. destruct Hc' as [v ->].
  simpl.
  destruct (show_chunks h0 (Three.position (Three.set_visible v cam)) m o Ho (priority c)
              (Js.Map_values (loadedChunks (progressiveLoader w))) (heap w) Hup Hall)
    as [_ Hvis].
  apply Hvis. by exists c.
Qed.

(** A double not greater than 50 is not greater than 100: by the order of
    the doubles, 50 and 100 having the same mantissa and the exponents -47
    and -46. *)
Lemma within_50_within_100 (d : Js.number) :
  Js.gt d (Js.of_Z 50) = false → Js.gt d (Js.of_Z 100) = false.
Proof.
  unfold Js.gt. rewrite !FloatAxioms.ltb_spec.
  replace (FloatOps.Prim2SF (Js.of_Z 50))
    with (SpecFloat.S754_finite false 7036874417766400 (-47)) by (vm_compute; reflexivity).
  replace (FloatOps.Prim2SF (Js.of_Z 100))
    with (SpecFloat.S754_finite false 7036874417766400 (-46)) by (vm_compute; reflexivity).
  unfold SpecFloat.SFltb, SpecFloat.SFcompare.
  destruct (FloatOps.Prim2SF d) as [s|s| |s m e]; try done.
  destruct s; [done|].
  pose proof (Z.compare_spec (-47) e) as S1. pose proof (Z.compare_spec (-46) e) as S2.
  destruct (-47 ?= e)%Z; destruct (-46 ?= e)%Z; try done; inversion S1; inversion S2; lia.
Qed.

Lemma shown_at_true p a b :
  p = CRITICAL ∨ p = HIGH
  ∨ (p = MEDIUM ∧ Js.gt (Three.distanceTo a b) (Js.of_Z 100) = false)
  ∨ (p = LOW ∧ Js.gt (Three.distanceTo a b) (Js.of_Z 50) = false) →
  ProgressiveLoader.shown_at p a b = true.
Proof.
  unfold ProgressiveLoader.shown_at.
  intros [->|[->|[[-> H]|[-> H]]]]; simpl; try done.
  - by rewrite H.
  - by rewrite (within_50_within_100 _ H), H.
Qed.

(** The distance test at the threshold, on doubles: a mesh at
    (100, 1e-7, 0) is at distance 100 exactly for [distanceTo], so a MEDIUM
    member there stays visible; one at (101, 0, 0) is hidden. *)
Example shown_at_threshold :
  ProgressiveLoader.shown_at MEDIUM (Three.vector3 0 0 0)
    (Three.mkVector3 (Js.of_Z 100) (Js.decimal 1 10000000) (Js.of_Z 0)) = true
  ∧ ProgressiveLoader.shown_at MEDIUM (Three.vector3 0 0 0) (Three.vector3 101 0 0) = false.
Proof. split; reflexivity. Qed.

(** C9 (as stated) fails: not every invocation shows the members of a
    loaded CRITICAL chunk.  The call returns at once when distance-based
    loading is off, and when the loader holds no camera or no scene: on the
    loaded sample scene with the option off, and on the sample scene loaded
    by a loader that was never initialised, mesh 1 is a member of a loaded
    CRITICAL chunk, is hidden by the culling pass and is still hidden after
    the distance update. *)
Lemma distance_update_returns_early :
  let culled := RenderOptimizer.performFrustumCulling (λ _, false) in
  (distanceBasedLoading (options (progressiveLoader Sample.loaded_distance_off)) = false
   ∧ loaded_member Sample.loaded_distance_off CRITICAL 1
   ∧ Three.is_visible (heap (culled Sample.loaded_distance_off)) 1 = Some false
   ∧ Three.is_visible
       (heap (ProgressiveLoader.updateDistanceBasedLoading (culled Sample.loaded_distance_off)))
       1 = Some false)
  ∧ (loader_camera (progressiveLoader Sample.loaded_without_camera) = None
     ∧ loaded_member Sample.loaded_without_camera CRITICAL 1
     ∧ Three.is_visible (heap (culled Sample.loaded_without_camera)) 1 = Some false
     ∧ Three.is_visible
         (heap (ProgressiveLoader.updateDistanceBasedLoading
                  (culled Sample.loaded_without_camera)))
         1 = Some false).
Proof.
  cbv zeta. split; (split; [by vm_compute|]); (split; [|split; by vm_compute]).
  - exists (mkLoadingChunk "chunk_0_0" CRITICAL [1] 1066 true).
    split; [vm_compute; apply list_elem_of_here|].
    split; [done|]. split; [done|]. apply list_elem_of_here.
  - exists (mkLoadingChunk "chunk_0_0" CRITICAL [1] 1066 true).
    split; [vm_compute; apply list_elem_of_here|].
    split; [done|]. split; [done|]. apply list_elem_of_here.
Qed.

(** C9 (amended): when distance-based loading is on and the loader holds
    a camera and a scene, a call of [updateDistanceBasedLoading] leaves a
    member of a loaded CRITICAL or HIGH chunk visible, whatever its flag
    was before; likewise a member of a MEDIUM chunk whose distance to the
    camera, as [distanceTo] computes it, is not greater than 100 and one
    of a LOW chunk whose distance is not greater than 50.  The mesh is
    taken to be in no loaded chunk of another priority.  In particular
    this holds right after [performFrustumCulling], whatever the frustum
    test said: the call shows again what culling has just hidden. *)
Theorem distance_update_overrides_culling
        (w : World) (intersectsObject : Three.ref → bool) (camera : Three.ref)
        (cam : Three.Object3D) (c : LoadingChunk) (m : Three.ref) (o : Three.Object3D) :
  distanceBasedLoading (options (progressiveLoader w)) = true →
  loader_camera (progressiveLoader w) = Some camera →
  is_Some (loader_scene (progressiveLoader w)) →
  Three.getObject3D (heap w) camera = Some cam →
  c ∈ Js.Map_values (loadedChunks (progressiveLoader w)) →
  m ∈ meshes c →
  Three.getObject3D (heap w) m = Some o →
  Forall (λ c', m ∈ meshes c' → priority c' = priority c)
         (Js.Map_values (loadedChunks (progressiveLoader w))) →
  priority c = CRITICAL ∨ priority c = HIGH
  ∨ (priority c = MEDIUM
     ∧ Js.gt (Three.distanceTo (Three.position cam) (Three.position o)) (Js.of_Z 100) = false)
  ∨ (priority c = LOW
     ∧ Js.gt (Three.distanceTo (Three.position cam) (Three.position o)) (Js.of_Z 50) = false) →
  Three.is_visible (heap (ProgressiveLoader.updateDistanceBasedLoading w)) m = Some true
  ∧ Three.is_visible
      (heap (ProgressiveLoader.updateDistanceBasedLoading
               (RenderOptimizer.performFrustumCulling intersectsObject w))) m
    = Some true.
Proof.
  intros Hon Hcam Hscene Hcamobj Hc Hm Ho Hall Hcase.
  apply (shown_at_true _ (Three.position cam) (Three.position o)) in Hcase.
  split.
  - rewrite <- Hcase.
    by apply (updateDistanceBasedLoading_visible (heap w) w camera cam c m o
                (up_to_visibility_refl _)).
  - destruct (performFrustumCulling_up_to intersectsObject w) as [Hup Hloader].
    rewrite <- Hcase.
    apply (updateDistanceBasedLoading_visible (heap w) _ camera cam c m o Hup);
      rewrite ?Hloader; done.
Qed.

(** On the loaded sample scene, with every mesh culled: mesh 1
    (CRITICAL) is hidden by the culling pass and shown again by the
    distance update. *)
Lemma distance_update_overrides_culling_witness :
  Three.is_visible
    (heap (RenderOptimizer.performFrustumCulling (λ _, false) Sample.loaded_world)) 1
  = Some false
  ∧ Three.is_visible
      (heap (ProgressiveLoader.updateDistanceBasedLoading
               (RenderOptimizer.performFrustumCulling (λ _, false) Sample.loaded_world))) 1
    = Some true.
Proof.
  split; [reflexivity|].
  refine (proj2 (distance_update_overrides_culling
                   Sample.loaded_world (λ _, false) 10 _
                   (mkLoadingChunk "chunk_0_0" CRITICAL [1] 1066 true) 1 _
                   _ _ _ _ _ _ _ _ _)).
  - reflexivity.
  - reflexivity.
  - vm_compute. eauto.
  - reflexivity.
  - vm_compute. apply list_elem_of_here.
  - apply list_elem_of_here.
  - reflexivity.
  - vm_compute. repeat constructor.
    + intros H. apply list_elem_of_singleton in H. discriminate H.
    + intros H. apply list_elem_of_singleton in H. discriminate H.
  - left. reflexivity.
Defined.

(** * Disposal of a mesh and its separately registered parts *)

Lemma dispose_disposed r h x :
  Three.disposed (Three.dispose r h) x
  = if decide (x = r) then (if disposable h r then S (Three.disposed h r) else Three.disposed h r)
    else Three.disposed h x.
Proof.
  unfold Three.dispose, Three.disposed, disposable, Three.deref.
  destruct (decide (x = r)) as [->|Hne].
  - destruct (Three.cells h !! r) as [[g|mat|t|o]|] eqn:E; simpl;
      rewrite ?lookup_insert_eq, ?E; done.
  - destruct (Three.cells h !! r) as [[g|mat|t|o]|] eqn:E; simpl;
      rewrite ?lookup_insert_ne by done; done.
Qed.

Lemma dispose_disposable r h x : disposable (Three.dispose r h) x = disposable h x.
Proof.
  unfold Three.dispose, disposable, Three.deref.
  destruct (Three.cells h !! r) as [[g|mat|t|o]|] eqn:E; simpl; try done;
    (destruct (decide (x = r)) as [->|Hne];
     [rewrite lookup_insert_eq, E|rewrite lookup_insert_ne by done]; done).
Qed.

Lemma dispose_mono r h x : (Three.disposed h x ≤ Three.disposed (Three.dispose r h) x)%nat.
Proof.
  rewrite dispose_disposed. destruct (decide (x = r)) as [->|]; [|lia].
  destruct (disposable h r); lia.
Qed.

Lemma dispose_all_mono rs h x :
  disposable (foldl (λ acc r, Three.dispose r acc) h rs) x = disposable h x
  ∧ (Three.disposed h x ≤ Three.disposed (foldl (λ acc r, Three.dispose r acc) h rs) x)%nat
  ∧ (x ∈ rs → disposable h x = true →
     (Three.disposed h x < Three.disposed (foldl (λ acc r, Three.dispose r acc) h rs) x)%nat).
Proof.
  revert h. induction rs as [|r rs IH]; intros h; simpl.
  - split; [done|]. split; [lia|]. intros H. by apply elem_of_nil in H.
  - destruct (IH (Three.dispose r h)) as (Hd & Hm & Hlt).
    rewrite dispose_disposable in Hd, Hlt.
    pose proof (dispose_mono r h x) as Hstep.
    split; [done|]. split; [lia|].
    intros Hin Hdisp. apply elem_of_cons in Hin as [->|Hin].
    + rewrite dispose_disposed, decide_True, Hdisp in Hm by done. lia.
    + specialize (Hlt Hin Hdisp). lia.
Qed.

Lemma update3D_disposed f r h x :
  Three.disposed (Three.update3D f r h) x = Three.disposed h x.
Proof.
  unfold Three.update3D, Three.getObject3D.
  destruct (Three.deref h r) as [[| | |o]|] eqn:E; try done.
  unfold Three.disposed, Three.deref, Three.store in *. simpl.
  destruct (decide (r = x)) as [->|Hne].
  - by rewrite lookup_insert_eq, E.
  - by rewrite lookup_insert_ne.
Qed.

Lemma remove_disposed p child h x :
  Three.disposed (Three.remove p child h) x = Three.disposed h x.
Proof.
  unfold Three.remove. destruct (Three.getObject3D h p) as [po|]; [|done].
  destruct (decide (child ∈ Three.children po)); [|done].
  by rewrite !update3D_disposed.
Qed.

Lemma disposeMesh_parts h m o geometry material x :
  Three.getObject3D h m = Some o →
  Three.kind o = Three.KMesh geometry material →
  x ∈ parts geometry material →
  disposable h x = true →
  (Three.disposed h x < Three.disposed (ResourceManager.disposeMesh m h) x)%nat.
Proof.
  intros Ho Hk Hx Hd. unfold ResourceManager.disposeMesh. rewrite Ho, Hk.
  assert (Hgoal :
    (Three.disposed h x
     < Three.disposed
         match material with
         | Three.NoMaterial => match geometry with Some g => Three.dispose g h | None => h end
         | Three.OneMaterial r =>
             Three.dispose r match geometry with Some g => Three.dispose g h | None => h end
         | Three.MaterialArray rs =>
             foldl (λ acc r, Three.dispose r acc)
                   match geometry with Some g => Three.dispose g h | None => h end rs
         end x)%nat).
  { pose proof (dispose_all_mono (parts geometry material) h x) as (_ & _ & Hlt).
    specialize (Hlt Hx Hd). unfold parts in Hlt.
    rewrite foldl_app in Hlt.
    destruct geometry as [g|], material as [|r|rs]; simpl in *; done. }
  destruct (Three.parent o); [by rewrite remove_disposed|done].
Qed.

(** C10: disposing a registered mesh (forced, or with no reference left)
    succeeds, calls [dispose()] on the mesh's geometry and materials, and
    takes exactly the mesh's own id out of the registry: the total count
    drops by one, and every other id (those of the geometry and the
    materials included) keeps its record and its object, although these
    objects have now been disposed. *)
Theorem mesh_disposal_keeps_part_records
        (w : World) (meshId : string) (force : bool) (info : ResourceInfo) (m : Three.ref)
        (o : Three.Object3D) (geometry : option Three.ref) (material : Three.MaterialSlot) :
  ResourceManager.getResourceInfo meshId w = Some info →
  type info = T_mesh →
  resourceObjects (resourceManager w) !! meshId = Some m →
  Three.getObject3D (heap w) m = Some o →
  Three.kind o = Three.KMesh geometry material →
  force = true ∨ (refCount info ≤ 0)%Z →
  let r := ResourceManager.disposeResource meshId force w in
  fst r = true
  ∧ ResourceManager.getResourceInfo meshId (snd r) = None
  ∧ ResourceManager.totalResources (ResourceManager.getResourceStats (snd r))
    = (ResourceManager.totalResources (ResourceManager.getResourceStats w) - 1)%Z
  ∧ (∀ i, i ≠ meshId →
          ResourceManager.getResourceInfo i (snd r) = ResourceManager.getResourceInfo i w
          ∧ resourceObjects (resourceManager (snd r)) !! i
            = resourceObjects (resourceManager w) !! i)
  ∧ (∀ x, x ∈ parts geometry material → disposable (heap w) x = true →
          (Three.disposed (heap w) x < Three.disposed (heap (snd r)) x)%nat).
Proof.
  intros Hinfo Htype Hobj Ho Hk Hmay r.
  unfold ResourceManager.getResourceInfo in *.
  assert (Hguard : negb force && bool_decide (0 < refCount info)%Z = false).
  { destruct Hmay as [->|Hrc]; [done|].
    rewrite bool_decide_eq_false_2 by lia. apply andb_false_r. }
  assert (Hmesh : Three.isMesh (heap w) m = true).
  { unfold Three.isMesh. by rewrite Ho, Hk. }
  unfold r, ResourceManager.disposeResource. rewrite Hinfo, Hobj, Hguard, Htype, Hmesh.
  simpl. split; [done|]. split; [apply lookup_delete_eq|]. split; [|split].
  - rewrite map_size_delete_Some by eauto.
    assert (base.size (resources (resourceManager w)) ≠ 0)%nat.
    { intros Hz. apply map_size_empty_inv in Hz. rewrite Hz in Hinfo. by rewrite lookup_empty in Hinfo. }
    lia.
  - intros i Hi. by rewrite !lookup_delete_ne.
  - intros x Hx Hd. by eapply disposeMesh_parts.
Qed.

(** A chunk loader's registrations for mesh 1 of the sample scene, then
    the forced disposal of the mesh: the records of its geometry and of its
    material are still there, and both objects have been disposed once. *)
Lemma mesh_disposal_keeps_part_records_witness :
  let r := ResourceManager.disposeResource "mesh_u1" true Sample.loaded_world in
  ResourceManager.totalResources (ResourceManager.getResourceStats Sample.loaded_world) = 9%Z
  ∧ ResourceManager.totalResources (ResourceManager.getResourceStats (snd r)) = (9 - 1)%Z
  ∧ type <$> ResourceManager.getResourceInfo "geo_g1" (snd r) = Some T_geometry
  ∧ type <$> ResourceManager.getResourceInfo "mat_u1_0" (snd r) = Some T_material
  ∧ Three.disposed (heap (snd r)) <$> [4; 7] = [1; 1]%nat.
Proof.
  intros r.
  destruct (mesh_disposal_keeps_part_records
              Sample.loaded_world "mesh_u1" true
              (mkResourceInfo "mesh_u1" T_mesh 512 1000 1000 1) 1
              (Three.mkObject3D "u1" "foundation-a" (Three.vector3 0 0 0) true (Some 0%nat)
                                [] false (Three.KMesh (Some 4) (Three.OneMaterial 7)))
              (Some 4) (Three.OneMaterial 7)
              eq_refl eq_refl eq_refl eq_refl eq_refl (or_introl eq_refl))
    as (_ & _ & Hcount & _ & _).
  split; [reflexivity|]. split; [exact Hcount|]. repeat split; reflexivity.
Defined.

(** * More on the resource registry *)

Lemma disposeResource_unknown_id resourceId force w i :
  unknown_id i w → unknown_id i (snd (ResourceManager.disposeResource resourceId force w)).
Proof.
  intros [Hnone Hq]. unfold unknown_id.
  destruct (disposeResource_kept resourceId force w) as [_ Hgone].
  pose proof (disposeResource_registry resourceId force w) as H.
  destruct (ResourceManager.disposeResource resourceId force w) as [ok w']. simpl in *.
  split; [by apply Hgone|].
  destruct H as [[_ ->]|(_ & _ & _ & -> & _)]; [done|].
  rewrite Set_delete_elem. tauto.
Qed.

Lemma disposeEach_unknown_id ids force w i :
  unknown_id i w → unknown_id i (snd (ResourceManager.disposeEach ids force w)).
Proof.
  unfold ResourceManager.disposeEach. generalize 0%Z as n. revert w.
  induction ids as [|j ids IH]; intros w n Hu; simpl; [done|].
  pose proof (disposeResource_unknown_id j force w i Hu) as Hu'.
  destruct (ResourceManager.disposeResource j force w) as [ok w']. simpl in *.
  by apply IH.
Qed.

Lemma exec_unknown_id c w i :
  registered_id c ≠ Some i → unknown_id i w → unknown_id i (ResourceManager.exec c w).
Proof.
  intros Hc Hu. pose proof Hu as [Hnone Hq].
  destruct c; simpl in *;
    try (by apply disposeResource_unknown_id); try (by apply disposeEach_unknown_id);
    try done.
  - set (rid := match oid with Some _ => _ | None => _ end) in *.
    split; simpl; [|done]. rewrite lookup_insert_ne by congruence. done.
  - unfold ResourceManager.addReference.
    destruct (resources (resourceManager w) !! resourceId) eqn:E; [|done].
    split; simpl; [|done]. rewrite lookup_insert_ne by congruence. done.
  - unfold ResourceManager.removeReference.
    destruct (resources (resourceManager w) !! resourceId) eqn:E; [|done].
    assert (resourceId ≠ i) by congruence.
    case_decide; (split; simpl; [by rewrite lookup_insert_ne|]); [|done].
    rewrite Set_add_elem. intros [?|?]; congruence.
  - unfold ResourceManager.touchResource.
    destruct (resources (resourceManager w) !! resourceId) eqn:E; [|done].
    split; simpl; [|done]. rewrite lookup_insert_ne by congruence. done.
  - unfold ResourceManager.enableAutoCleanup.
    by destruct (isAutoCleanupEnabled (resourceManager w)).
  - unfold ResourceManager.autoCleanupTick.
    destruct (autoCleanupInterval (resourceManager w)) as [[? opts]|]; [|done].
    by apply disposeEach_unknown_id, disposeEach_unknown_id.
  - split; simpl; [apply lookup_empty|apply not_elem_of_nil].
Qed.

Lemma run_unknown_id cs w i :
  Forall (λ c, registered_id c ≠ Some i) cs →
  unknown_id i w → unknown_id i (ResourceManager.run cs w).
Proof.
  revert w. induction cs as [|c cs IH]; intros w Hcs Hu; simpl; [done|].
  apply Forall_cons in Hcs as [Hc Hcs]. apply IH; [done|]. by apply exec_unknown_id.
Qed.

(** X1: a disposed id is gone for good.  Once [disposeResource] has
    succeeded on an id, every lookup of it fails, it is not queued, and
    neither holds again whatever is called afterwards, unless the id is
    registered anew; meanwhile [addReference], [removeReference] and
    [touchResource] on it change nothing and disposing it again returns
    false. *)
Theorem disposed_id_stays_absent (w : World) (i : string) (force : bool)
        (cs : list ResourceManager.Call) :
  fst (ResourceManager.disposeResource i force w) = true →
  Forall (λ c, registered_id c ≠ Some i) cs →
  let w' := ResourceManager.run cs (snd (ResourceManager.disposeResource i force w)) in
  ResourceManager.getResourceInfo i w' = None
  ∧ (i ∉ disposalQueue (resourceManager w'))
  ∧ (∀ now, ResourceManager.addReference i now w' = w')
  ∧ ResourceManager.removeReference i w' = w'
  ∧ (∀ now, ResourceManager.touchResource i now w' = w')
  ∧ (∀ force', ResourceManager.disposeResource i force' w' = (false, w')).
Proof.
  intros Hok Hcs w'.
  assert (Hu : unknown_id i w').
  { apply run_unknown_id; [done|].
    pose proof (disposeResource_registry i force w) as H.
    destruct (ResourceManager.disposeResource i force w) as [ok w1]. simpl in *.
    destruct H as [[? _]|(_ & Hr & _ & Hq & _)]; [congruence|].
    split; [rewrite Hr; apply lookup_delete_eq|].
    rewrite Hq, Set_delete_elem. tauto. }
  destruct Hu as [Hnone Hq].
  unfold ResourceManager.getResourceInfo, ResourceManager.addReference,
    ResourceManager.removeReference, ResourceManager.touchResource,
    ResourceManager.disposeResource.
  rewrite Hnone. done.
Qed.

Lemma disposed_id_stays_absent_witness :
  let w := ResourceManager.run
             [ResourceManager.call_registerResource 4 T_geometry (Some "g1") 1000 "";
              ResourceManager.call_removeReference "g1"] Sample.world in
  let w' := ResourceManager.run
              [ResourceManager.call_addReference "g1" 1001;
               ResourceManager.call_registerResource 5 T_geometry (Some "g2") 1002 "";
               ResourceManager.call_processDisposalQueue]
              (snd (ResourceManager.disposeResource "g1" false w)) in
  ResourceManager.getResourceInfo "g1" w' = None.
Proof.
  intros w w'.
  refine (proj1 (disposed_id_stays_absent w "g1" false _ _ _)).
  - reflexivity.
  - repeat constructor; discriminate.
Defined.

(** The loop of [disposeEach], one id at a time. *)
Lemma disposeEach_cons j ids force w :
  let r1 := ResourceManager.disposeResource j force w in
  let r := ResourceManager.disposeEach ids force (snd r1) in
  ResourceManager.disposeEach (j :: ids) force w
  = (((if fst r1 then 1 else 0) + fst r)%Z, snd r).
Proof.
  unfold ResourceManager.disposeEach.
  set (F := λ (acc : Z * World) (resourceId : string),
              let '(ok, w') := ResourceManager.disposeResource resourceId force (snd acc) in
              ((if ok then fst acc + 1 else fst acc)%Z, w')).
  assert (Hacc : ∀ l n w0, foldl F (n, w0) l
                           = ((n + fst (foldl F (0%Z, w0) l))%Z, snd (foldl F (0%Z, w0) l))).
  { induction l as [|k l IH]; intros n w0; simpl; [f_equal; lia|].
    unfold F at 2 4 6. simpl.
    destruct (ResourceManager.disposeResource k force w0) as [ok w1].
    rewrite (IH (if ok then (n + 1)%Z else n)), (IH (if ok then (0 + 1)%Z else 0%Z)).
    simpl. f_equal. destruct ok; lia. }
  simpl. unfold F at 2. simpl.
  destruct (ResourceManager.disposeResource j force w) as [ok w1]. simpl.
  rewrite Hacc. by destruct ok.
Qed.

Lemma disposeEach_nil force w : ResourceManager.disposeEach [] force w = (0%Z, w).
Proof. reflexivity. Qed.

(** Every successful disposal takes one record out. *)
Lemma disposeEach_count ids force w :
  let r := ResourceManager.disposeEach ids force w in
  (Z.of_nat (base.size (resources (resourceManager w)))
   = Z.of_nat (base.size (resources (resourceManager (snd r)))) + fst r)%Z.
Proof.
  revert w. induction ids as [|j ids IH]; intros w.
  - rewrite disposeEach_nil. simpl. lia.
  - rewrite disposeEach_cons. simpl.
    specialize (IH (snd (ResourceManager.disposeResource j force w))). simpl in IH.
    pose proof (disposeResource_registry j force w) as H.
    assert (Hpresent : fst (ResourceManager.disposeResource j force w) = true →
                       is_Some (resources (resourceManager w) !! j)).
    { unfold ResourceManager.disposeResource.
      destruct (resources (resourceManager w) !! j); [eauto|discriminate]. }
    destruct (ResourceManager.disposeResource j force w) as [ok w1]. simpl in *.
    destruct H as [[-> ->]|(-> & Hr & _)]; [lia|].
    rewrite Hr in IH. rewrite map_size_delete_Some in IH by auto.
    assert (base.size (resources (resourceManager w)) ≠ 0)%nat.
    { intros Hz. apply map_size_empty_inv in Hz. destruct (Hpresent eq_refl) as [x Hx].
      rewrite Hz in Hx. by rewrite lookup_empty in Hx. }
    lia.
Qed.

(** A record that the loop does not reach, or that a non-forced disposal
    refuses, is still there afterwards. *)
Lemma disposeEach_keeps ids force w i info :
  resources (resourceManager w) !! i = Some info →
  i ∉ ids ∨ (force = false ∧ (0 < refCount info)%Z) →
  resources (resourceManager (snd (ResourceManager.disposeEach ids force w))) !! i = Some info.
Proof.
  intros Hinfo Hwhy. revert w Hinfo.
  induction ids as [|j ids IH]; intros w Hinfo; [done|].
  rewrite disposeEach_cons. simpl.
  pose proof (disposeResource_registry j force w) as H.
  assert (Hrefused : j = i → force = false → (0 < refCount info)%Z →
                     ResourceManager.disposeResource j force w = (false, w)).
  { intros -> -> Hrc. unfold ResourceManager.disposeResource. rewrite Hinfo.
    destruct (resourceObjects (resourceManager w) !! i); [|done].
    simpl. by rewrite bool_decide_eq_true_2. }
  destruct Hwhy as [Hnotin|[Hf Hrc]].
  - apply not_elem_of_cons in Hnotin as [Hne Hnotin].
    destruct (ResourceManager.disposeResource j force w) as [ok w']. simpl.
    apply IH; [by left|].
    destruct H as [[_ ->]|(_ & -> & _)]; [done|]. by rewrite lookup_delete_ne.
  - destruct (decide (j = i)) as [Heq|Hne].
    + rewrite (Hrefused Heq Hf Hrc). simpl. apply IH; [by right|done].
    + destruct (ResourceManager.disposeResource j force w) as [ok w']. simpl.
      apply IH; [by right|].
      destruct H as [[_ ->]|(_ & -> & _)]; [done|]. by rewrite lookup_delete_ne.
Qed.

(** A record the loop reaches and may dispose of is gone afterwards. *)
Lemma disposeEach_removes ids force w i info :
  registry_ok (resourceManager w) →
  i ∈ ids →
  resources (resourceManager w) !! i = Some info →
  force = true ∨ (refCount info ≤ 0)%Z →
  resources (resourceManager (snd (ResourceManager.disposeEach ids force w))) !! i = None.
Proof.
  intros Hok Hin Hinfo Hmay. revert w Hok Hin Hinfo.
  induction ids as [|j ids IH]; intros w Hok Hin Hinfo; [by apply elem_of_nil in Hin|].
  rewrite disposeEach_cons. simpl.
  pose proof (disposeResource_registry j force w) as H.
  pose proof (disposeResource_ok j force w Hok) as Hok'.
  assert (Hdone : j = i → fst (ResourceManager.disposeResource j force w) = true).
  { intros ->. unfold ResourceManager.disposeResource. rewrite Hinfo.
    destruct (ok_objects _ Hok i) as [Hobj _]. destruct Hobj as [resource ->]; [eauto|].
    assert (negb force && bool_decide (0 < refCount info)%Z = false) as ->; [|done].
    destruct Hmay as [->|Hrc]; [done|].
    rewrite bool_decide_eq_false_2 by lia. apply andb_false_r. }
  destruct (ResourceManager.disposeResource j force w) as [ok w'] eqn:E. simpl in *.
  destruct (decide (j = i)) as [Heq|Hne].
  - specialize (Hdone Heq). subst ok j.
    destruct H as [[? _]|(_ & Hr & _)]; [congruence|].
    apply (disposeEach_kept ids force w'). rewrite Hr. apply lookup_delete_eq.
  - apply elem_of_cons in Hin as [?|Hin]; [congruence|].
    apply IH; [done|done|].
    destruct H as [[_ ->]|(_ & -> & _)]; [done|]. by rewrite lookup_delete_ne.
Qed.

Lemma disposeEach_subseteq ids force w :
  resources (resourceManager (snd (ResourceManager.disposeEach ids force w)))
  ⊆ resources (resourceManager w).
Proof.
  revert w. induction ids as [|j ids IH]; intros w; [done|].
  rewrite disposeEach_cons. simpl.
  etransitivity; [apply IH|].
  pose proof (disposeResource_registry j force w) as H.
  destruct (ResourceManager.disposeResource j force w) as [ok w']. simpl.
  destruct H as [[_ ->]|(_ & -> & _)]; [done|]. apply delete_subseteq.
Qed.

Lemma registered_keys (s : ResourceManagerService) i :
  i ∈ fst <$> map_to_list (resources s) ↔ is_Some (resources s !! i).
Proof.
  rewrite list_elem_of_fmap. split.
  - intros [[k info] [-> Hin]]. apply elem_of_map_to_list in Hin. simpl. eauto.
  - intros [info Hinfo]. exists (i, info). split; [done|]. by apply elem_of_map_to_list.
Qed.

(** X2: run on any state the manager can reach, [processDisposalQueue]
    returns exactly the number of records it took out of the registry,
    takes out every record whose reference count is 0, and keeps every
    record that is referenced: afterwards every registered id has a positive
    count. *)
Theorem queue_run_disposes_unreferenced_only (h : Three.Heap) (cs : list ResourceManager.Call) :
  let w := ResourceManager.run cs (initial_world h) in
  let r := ResourceManager.processDisposalQueue w in
  fst r = (ResourceManager.totalResources (ResourceManager.getResourceStats w)
           - ResourceManager.totalResources (ResourceManager.getResourceStats (snd r)))%Z
  ∧ (∀ i info, ResourceManager.getResourceInfo i w = Some info → refCount info = 0%Z →
               ResourceManager.getResourceInfo i (snd r) = None)
  ∧ (∀ i info, ResourceManager.getResourceInfo i w = Some info → (0 < refCount info)%Z →
               ResourceManager.getResourceInfo i (snd r) = Some info)
  ∧ (∀ i info, ResourceManager.getResourceInfo i (snd r) = Some info → (0 < refCount info)%Z).
Proof.
  intros w r.
  assert (Hok : registry_ok (resourceManager w)) by (apply run_ok, new_registry_ok).
  unfold ResourceManager.getResourceInfo, r, ResourceManager.processDisposalQueue.
  assert (Hzero : ∀ i info, resources (resourceManager w) !! i = Some info →
                            refCount info = 0%Z →
                            resources (resourceManager
                              (snd (ResourceManager.disposeEach
                                      (disposalQueue (resourceManager w)) false w))) !! i = None).
  { intros i info Hinfo Hrc.
    eapply disposeEach_removes; [done| |done|right; lia].
    by eapply ok_zero_queued. }
  split; [|split; [exact Hzero|split]].
  - pose proof (disposeEach_count (disposalQueue (resourceManager w)) false w) as Hc.
    simpl in *. lia.
  - intros i info Hinfo Hrc. apply disposeEach_keeps; [done|]. by right.
  - intros i info Hinfo.
    pose proof (lookup_weaken _ _ _ _ Hinfo (disposeEach_subseteq _ _ _)) as Hbefore.
    pose proof (ok_nonneg _ Hok _ _ Hbefore) as Hpos.
    destruct (decide (refCount info = 0%Z)) as [Hz|Hnz]; [|lia].
    rewrite (Hzero _ _ Hbefore Hz) in Hinfo. discriminate.
Qed.

(** X3: on any state the manager can reach, [disposeAll] leaves the
    registry empty (no record, no object, nothing queued), and so does a
    forced [cleanup], which returns the number of records there were. *)
Theorem forced_disposal_empties (h : Three.Heap) (cs : list ResourceManager.Call) :
  let w := ResourceManager.run cs (initial_world h) in
  (let w' := ResourceManager.disposeAll w in
   resources (resourceManager w') = ∅
   ∧ resourceObjects (resourceManager w') = ∅
   ∧ disposalQueue (resourceManager w') = [])
  ∧ (∀ maxAge minRefCount now,
       let r := ResourceManager.cleanup (mkDisposalOptions (Some true) maxAge minRefCount)
                                        now w in
       fst r = ResourceManager.totalResources (ResourceManager.getResourceStats w)
       ∧ resources (resourceManager (snd r)) = ∅
       ∧ resourceObjects (resourceManager (snd r)) = ∅
       ∧ disposalQueue (resourceManager (snd r)) = []).
Proof.
  intros w.
  assert (Hok : registry_ok (resourceManager w)) by (apply run_ok, new_registry_ok).
  assert (Hall : ∀ ids,
            (∀ i, is_Some (resources (resourceManager w) !! i) → i ∈ ids) →
            let w' := snd (ResourceManager.disposeEach ids true w) in
            resources (resourceManager w') = ∅
            ∧ resourceObjects (resourceManager w') = ∅
            ∧ disposalQueue (resourceManager w') = []).
  { intros ids Hids w'.
    pose proof (disposeEach_ok ids true w Hok) as Hok'. fold w' in Hok'.
    assert (Hempty : resources (resourceManager w') = ∅).
    { apply map_empty. intros i.
      destruct (resources (resourceManager w) !! i) as [info|] eqn:E.
      - eapply disposeEach_removes; [done|apply Hids; eauto|done|by left].
      - by apply (disposeEach_kept ids true w). }
    split; [done|]. split.
    - apply map_empty. intros i. apply eq_None_not_Some. rewrite <- (ok_objects _ Hok').
      rewrite Hempty, lookup_empty. by intros [? ?].
    - destruct (disposalQueue (resourceManager w')) as [|i q] eqn:Eq; [done|].
      destruct (ok_queued_registered _ Hok' i) as [info Hinfo]; [rewrite Eq; left|].
      rewrite Hempty, lookup_empty in Hinfo. discriminate. }
  split.
  - apply Hall. intros i Hi. by apply registered_keys.
  - intros maxAge minRefCount now r.
    unfold r, ResourceManager.cleanup. simpl.
    match goal with |- context [ResourceManager.disposeEach ?ids true w] => set (l := ids) end.
    destruct (Hall l) as (He & Ho & Hq).
    { intros i [info Hinfo]. unfold l. apply list_elem_of_fmap. exists (i, info).
      split; [done|]. apply list_elem_of_filter. split; [by left|].
      by apply elem_of_map_to_list. }
    split; [|done].
    pose proof (disposeEach_count l true w) as Hc. simpl in Hc.
    rewrite He, map_size_empty in Hc. simpl. lia.
Qed.

(** X4: on any state the manager can reach, taking a reference and
    releasing it again amounts to touching the resource: the count and the
    disposal queue are as before and only [lastUsed] has moved (nothing at
    all changes for an unknown id). *)
Theorem reference_round_trip (h : Three.Heap) (cs : list ResourceManager.Call)
        (i : string) (now : Z) :
  let w := ResourceManager.run cs (initial_world h) in
  ResourceManager.removeReference i (ResourceManager.addReference i now w)
  = ResourceManager.touchResource i now w.
Proof.
  intros w.
  assert (Hok : registry_ok (resourceManager w)) by (apply run_ok, new_registry_ok).
  unfold ResourceManager.addReference, ResourceManager.touchResource.
  destruct (resources (resourceManager w) !! i) as [info|] eqn:E.
  - pose proof (ok_nonneg _ Hok _ _ E) as Hpos.
    unfold ResourceManager.removeReference. simpl. rewrite lookup_insert_eq. simpl.
    replace (Z.max 0 (refCount info + 1 - 1)) with (refCount info) by lia.
    case_decide as Hz; simpl; rewrite insert_insert_eq; [|done].
    assert (Hq : i ∈ disposalQueue (resourceManager w)) by by eapply ok_zero_queued.
    unfold Js.Set_add. by rewrite decide_True.
  - unfold ResourceManager.removeReference. by rewrite E.
Qed.

Lemma cleanup_keys opts now w i :
  i ∈ fst <$> filter (λ entry : string * ResourceInfo,
                        default false (force opts) = true
                        ∨ ((refCount (snd entry) ≤ default 0 (minRefCount opts))%Z
                           ∧ (default (5 * 60 * 1000) (maxAge opts)
                              < now - lastUsed (snd entry))%Z))
                     (map_to_list (resources (resourceManager w)))
  ↔ ∃ info, resources (resourceManager w) !! i = Some info
            ∧ (default false (force opts) = true
               ∨ ((refCount info ≤ default 0 (minRefCount opts))%Z
                  ∧ (default (5 * 60 * 1000) (maxAge opts) < now - lastUsed info)%Z)).
Proof.
  rewrite list_elem_of_fmap. split.
  - intros [[k info] [-> Hin]]. apply list_elem_of_filter in Hin as [Hp Hin].
    apply elem_of_map_to_list in Hin. exists info. done.
  - intros (info & Hinfo & Hp). exists (i, info). split; [done|].
    apply list_elem_of_filter. split; [done|]. by apply elem_of_map_to_list.
Qed.

(** X5: a [cleanup] that is not forced never takes out a resource that is
    referenced, that has more references than [minRefCount], or that was
    used within [maxAge] (so [touchResource] postpones it); on any state the
    manager can reach it takes out every unreferenced resource older than
    [maxAge] when [minRefCount] is not negative, and it returns the number
    of records it took out. *)
Theorem cleanup_spares_referenced (h : Three.Heap) (cs : list ResourceManager.Call)
        (opts : DisposalOptions) (now : Z) :
  default false (force opts) = false →
  let w := ResourceManager.run cs (initial_world h) in
  let r := ResourceManager.cleanup opts now w in
  let maxAge := default (5 * 60 * 1000)%Z (maxAge opts) in
  let minRefCount := default 0%Z (minRefCount opts) in
  (∀ i info, ResourceManager.getResourceInfo i w = Some info →
             (0 < refCount info)%Z ∨ (minRefCount < refCount info)%Z
             ∨ (now - lastUsed info ≤ maxAge)%Z →
             ResourceManager.getResourceInfo i (snd r) = Some info)
  ∧ (∀ i info, ResourceManager.getResourceInfo i w = Some info →
               refCount info = 0%Z → (0 ≤ minRefCount)%Z → (maxAge < now - lastUsed info)%Z →
               ResourceManager.getResourceInfo i (snd r) = None)
  ∧ fst r = (ResourceManager.totalResources (ResourceManager.getResourceStats w)
             - ResourceManager.totalResources (ResourceManager.getResourceStats (snd r)))%Z.
Proof.
  intros Hforce w r maxAge' minRefCount'.
  assert (Hok : registry_ok (resourceManager w)) by (apply run_ok, new_registry_ok).
  unfold r, ResourceManager.cleanup, ResourceManager.getResourceInfo.
  split; [|split].
  - intros i info Hinfo Hwhy. apply disposeEach_keeps; [done|].
    destruct Hwhy as [Hrc|Hwhy]; [by right|]. left.
    intros Hin. apply (cleanup_keys opts now w i) in Hin as (info' & Hinfo' & Hp).
    rewrite Hinfo in Hinfo'. injection Hinfo' as <-.
    rewrite Hforce in Hp. fold maxAge' minRefCount' in Hp.
    destruct Hp as [?|[? ?]]; [done|]. lia.
  - intros i info Hinfo Hrc Hmin Hold.
    eapply disposeEach_removes; [done| |done|right; lia].
    apply (cleanup_keys opts now w i). exists info. split; [done|]. right.
    fold maxAge' minRefCount'. lia.
  - match goal with |- context [ResourceManager.disposeEach ?ids ?f w] =>
      pose proof (disposeEach_count ids f w) as Hc end.
    simpl in *. lia.
Qed.

Lemma cleanup_spares_referenced_witness :
  let w := ResourceManager.run
             [ResourceManager.call_registerResource 4 T_geometry (Some "old") 0 "";
              ResourceManager.call_registerResource 5 T_geometry (Some "held") 0 "";
              ResourceManager.call_removeReference "old"] Sample.world in
  let r := ResourceManager.cleanup no_options 400000 w in
  ResourceManager.getResourceInfo "held" (snd r)
  = Some (mkResourceInfo "held" T_geometry 42 0 0 1)
  ∧ ResourceManager.getResourceInfo "old" (snd r) = None.
Proof.
  intros w r.
  destruct (cleanup_spares_referenced Sample.scene_heap
              [ResourceManager.call_registerResource 4 T_geometry (Some "old") 0 "";
               ResourceManager.call_registerResource 5 T_geometry (Some "held") 0 "";
               ResourceManager.call_removeReference "old"] no_options 400000 eq_refl)
    as (Hkeep & Hdrop & _).
  split.
  - apply Hkeep; [reflexivity|]. left. reflexivity.
  - apply (Hdrop "old" (mkResourceInfo "old" T_geometry 42 0 0 0)); reflexivity || done.
Defined.

Lemma Set_add_NoDup (x : string) (s : list string) : NoDup s → NoDup (Js.Set_add x s).
Proof.
  intros Hs. unfold Js.Set_add. destruct (decide (x ∈ s)) as [Hin|Hin]; [done|].
  apply NoDup_app. split; [done|]. split.
  - intros y Hy Hy'. apply list_elem_of_singleton in Hy'. by subst.
  - apply NoDup_singleton.
Qed.

Lemma disposeResource_NoDup resourceId force w :
  NoDup (disposalQueue (resourceManager w)) →
  NoDup (disposalQueue (resourceManager (snd (ResourceManager.disposeResource resourceId force w)))).
Proof.
  intros Hs. pose proof (disposeResource_registry resourceId force w) as H.
  destruct (ResourceManager.disposeResource resourceId force w) as [ok w']. simpl.
  destruct H as [[_ ->]|(_ & _ & _ & -> & _)]; [done|]. by apply NoDup_filter.
Qed.

Lemma disposeEach_NoDup ids force w :
  NoDup (disposalQueue (resourceManager w)) →
  NoDup (disposalQueue (resourceManager (snd (ResourceManager.disposeEach ids force w)))).
Proof.
  revert w. induction ids as [|j ids IH]; intros w Hs; [done|].
  rewrite disposeEach_cons. simpl. by apply IH, disposeResource_NoDup.
Qed.

Lemma exec_NoDup c w :
  NoDup (disposalQueue (resourceManager w)) →
  NoDup (disposalQueue (resourceManager (ResourceManager.exec c w))).
Proof.
  intros Hs. destruct c; simpl;
    try (by apply disposeResource_NoDup); try (by apply disposeEach_NoDup); try done.
  - by rewrite addReference_queue.
  - unfold ResourceManager.removeReference.
    destruct (resources (resourceManager w) !! resourceId); [|done].
    case_decide; simpl; [|done]. by apply Set_add_NoDup.
  - unfold ResourceManager.touchResource.
    by destruct (resources (resourceManager w) !! resourceId).
  - unfold ResourceManager.enableAutoCleanup.
    by destruct (isAutoCleanupEnabled (resourceManager w)).
  - unfold ResourceManager.autoCleanupTick.
    destruct (autoCleanupInterval (resourceManager w)) as [[? opts]|]; [|done].
    by apply disposeEach_NoDup, disposeEach_NoDup.
  - apply NoDup_nil_2.
Qed.

Lemma run_NoDup cs w :
  NoDup (disposalQueue (resourceManager w)) →
  NoDup (disposalQueue (resourceManager (ResourceManager.run cs w))).
Proof.
  revert w. induction cs as [|c cs IH]; intros w Hs; simpl; [done|].
  by apply IH, exec_NoDup.
Qed.

(** X6: in every state the manager can reach, no id is queued twice, a
    record and its object are stored or missing together, and the
    statistics never report more queued ids than resources. *)
Theorem stats_consistent (h : Three.Heap) (cs : list ResourceManager.Call) :
  let w := ResourceManager.run cs (initial_world h) in
  NoDup (disposalQueue (resourceManager w))
  ∧ (∀ i, is_Some (ResourceManager.getResourceInfo i w)
          ↔ is_Some (resourceObjects (resourceManager w) !! i))
  ∧ (ResourceManager.queuedForDisposal (ResourceManager.getResourceStats w)
     ≤ ResourceManager.totalResources (ResourceManager.getResourceStats w))%Z.
Proof.
  intros w.
  assert (Hok : registry_ok (resourceManager w)) by (apply run_ok, new_registry_ok).
  assert (Hnd : NoDup (disposalQueue (resourceManager w))) by (apply run_NoDup, NoDup_nil_2).
  split; [done|]. split; [apply (ok_objects _ Hok)|].
  simpl. unfold Js.Set_size.
  rewrite <- (length_map_to_list (resources (resourceManager w))).
  rewrite <- (length_fmap fst (map_to_list (resources (resourceManager w)))).
  apply inj_le, submseteq_length, NoDup_submseteq; [done|].
  intros i Hi. apply registered_keys. by apply (ok_queued_registered _ Hok).
Qed.

(** * More on the progressive loader *)

Lemma insert_by_priority_Permutation c l :
  ProgressiveLoader.insert_by_priority c l ≡ₚ c :: l.
Proof.
  induction l as [|d l IH]; simpl; [done|].
  case_bool_decide; [done|]. rewrite IH. apply Permutation_swap.
Qed.

Lemma insert_by_priority_sorted c l :
  StronglySorted priority_le l → StronglySorted priority_le (ProgressiveLoader.insert_by_priority c l).
Proof.
  intros Hs. induction Hs as [|d l Hs IH Hd]; simpl.
  - repeat constructor.
  - case_bool_decide as Hlt.
    + constructor; [by constructor|]. constructor; [unfold priority_le; lia|].
      eapply Forall_impl; [exact Hd|]. unfold priority_le. intros e ?. lia.
    + constructor; [done|].
      rewrite insert_by_priority_Permutation. constructor; [unfold priority_le; lia|done].
Qed.

Lemma filter_none {A} (P : A → Prop) `{∀ x, Decision (P x)} (l : list A) :
  Forall (λ x, ¬ P x) l → filter P l = [].
Proof.
  induction 1 as [|x l Hx Hl IH]; [done|].
  by rewrite filter_cons, decide_False.
Qed.

Lemma insert_by_priority_stable c l p :
  StronglySorted priority_le l →
  of_priority p (ProgressiveLoader.insert_by_priority c l)
  = of_priority p l ++ (if decide (priority c = p) then [c] else []).
Proof.
  unfold of_priority. intros Hs. induction Hs as [|d l Hs IH Hd]; simpl.
  - rewrite filter_cons, filter_nil. by destruct (decide (priority c = p)).
  - case_bool_decide as Hlt.
    + (* everything from [d] on has a greater priority value than [c] *)
      rewrite filter_cons. destruct (decide (priority c = p)) as [Hp|Hp].
      * assert (Hnone : filter (λ c0, priority c0 = p) (d :: l) = []).
        { apply filter_none, Forall_cons. unfold priority_le in *. split.
          - intros Hq. rewrite Hp, Hq in Hlt. lia.
          - eapply Forall_impl; [exact Hd|]. intros e He Hq. simpl in *.
            rewrite Hp in Hlt. rewrite Hq in He. lia. }
        by rewrite Hnone.
      * by rewrite app_nil_r.
    + rewrite !(filter_cons _ d), IH. by destruct (decide (priority d = p)).
Qed.

Lemma sort_by_priority_snoc l c :
  ProgressiveLoader.sort_by_priority (l ++ [c])
  = ProgressiveLoader.insert_by_priority c (ProgressiveLoader.sort_by_priority l).
Proof. unfold ProgressiveLoader.sort_by_priority. by rewrite foldl_snoc. Qed.

Lemma sort_by_priority_sorted l :
  StronglySorted priority_le (ProgressiveLoader.sort_by_priority l).
Proof.
  induction l as [|c l IH] using rev_ind; [constructor|].
  rewrite sort_by_priority_snoc. by apply insert_by_priority_sorted.
Qed.

(** X7: the priority sort of the chunks is a stable sort: its result
    holds the same chunks, in ascending priority, and the chunks of one
    priority class keep the order they had. *)
Theorem sort_by_priority_stable (l : list LoadingChunk) :
  ProgressiveLoader.sort_by_priority l ≡ₚ l
  ∧ StronglySorted priority_le (ProgressiveLoader.sort_by_priority l)
  ∧ (∀ p, of_priority p (ProgressiveLoader.sort_by_priority l) = of_priority p l).
Proof.
  split; [|split; [apply sort_by_priority_sorted|]].
  - induction l as [|c l IH] using rev_ind; [done|].
    rewrite sort_by_priority_snoc, insert_by_priority_Permutation, IH.
    by rewrite Permutation_app_comm.
  - intros p. induction l as [|c l IH] using rev_ind; [done|].
    rewrite sort_by_priority_snoc, insert_by_priority_stable by apply sort_by_priority_sorted.
    rewrite IH. unfold of_priority. rewrite filter_app, filter_cons, filter_nil.
    by destruct (decide (priority c = p)).
Qed.

Example sort_by_priority_example :
  let c (i : string) p := mkLoadingChunk i p [] 0 false in
  chunk_id <$> ProgressiveLoader.sort_by_priority
                 [c "a" LOW; c "b" CRITICAL; c "c" LOW; c "d" HIGH; c "e" CRITICAL]
  = ["b"; "e"; "d"; "a"; "c"].
Proof. reflexivity. Qed.

(** A list already in ascending priority is left as it is. *)
Lemma sort_by_priority_sorted_id l :
  StronglySorted priority_le l → ProgressiveLoader.sort_by_priority l = l.
Proof.
  induction l as [|c l IH] using rev_ind; intros Hs; [done|].
  rewrite sort_by_priority_snoc.
  assert (Hl : StronglySorted priority_le l ∧ Forall (λ d, priority_le d c) l).
  { clear IH. induction l as [|d l IH]; simpl in *; [split; constructor|].
    apply StronglySorted_inv in Hs as [Hs Hd]. destruct (IH Hs) as [Hs' Hc].
    apply Forall_app in Hd as [Hd Hdc]. rewrite Forall_singleton in Hdc.
    split; constructor; done. }
  destruct Hl as [Hs' Hc]. rewrite (IH Hs'). clear -Hc.
  induction Hc as [|d l Hd Hc IH]; simpl; [done|].
  unfold priority_le in Hd. rewrite bool_decide_eq_false_2 by lia. by rewrite IH.
Qed.

Lemma same_priority_sorted p l :
  Forall (λ c, priority c = p) l → StronglySorted priority_le l.
Proof.
  induction 1 as [|c l Hc Hl IH]; constructor; [done|].
  eapply Forall_impl; [exact Hl|]. intros d Hd. unfold priority_le. rewrite Hc, Hd. lia.
Qed.

Lemma by_priority_partition {A} (f : A → option LoadingPriority) (l : list A) :
  Forall (λ x, is_Some (f x)) l →
  flat_map (λ p, filter (λ x, f x = Some p) l) [CRITICAL; HIGH; MEDIUM; LOW] ≡ₚ l.
Proof.
  simpl. rewrite app_nil_r.
  induction l as [|x l IH]; intros Hall; [done|].
  apply Forall_cons in Hall as [[p E] Hall]. specialize (IH Hall).
  rewrite !filter_cons, E.
  destruct p; simpl;
    repeat (rewrite decide_True by done || rewrite decide_False by done); simpl.
  - by rewrite IH.
  - rewrite <- Permutation_middle. by rewrite IH.
  - rewrite app_assoc, <- Permutation_middle, <- app_assoc. by rewrite IH.
  - rewrite !app_assoc, <- Permutation_middle, <- !app_assoc. by rewrite IH.
Qed.

Lemma elem_of_concat {A} (x : A) (ls : list (list A)) :
  x ∈ concat ls ↔ ∃ l, x ∈ l ∧ l ∈ ls.
Proof.
  induction ls as [|l ls IH]; simpl.
  - split; [intros H; by apply elem_of_nil in H|intros (l & _ & H); by apply elem_of_nil in H].
  - rewrite elem_of_app, IH. split.
    + intros [H|(l' & H1 & H2)]; [exists l; split; [done|left]|exists l'; split; [done|by right]].
    + intros (l' & H1 & H2). apply elem_of_cons in H2 as [->|H2]; [by left|right; eauto].
Qed.

(** The chunks [analyzeAndChunkModel] makes for one priority class. *)
Lemma class_chunks_ok w stamp ms p :
  let group := filter (λ m, ProgressiveLoader.determineMeshPriority (heap w) m = Some p) ms in
  let cs := ProgressiveLoader.createChunksFromMeshes w stamp group p in
  Forall (λ c, priority c = p ∧ meshes c ≠ []) cs
  ∧ concat (meshes <$> cs) = group.
Proof.
  intros group cs.
  destruct (createChunksWith_ok (chunkSizeLimit (options (progressiveLoader w))) p stamp
              (ProgressiveLoader.estimateMeshSize (heap w))
              (estimateMeshSize_nonneg (heap w)) group) as [Hok Hcat].
  split; [|exact Hcat].
  eapply Forall_impl; [exact Hok|]. intros c (Hp & Hne & _). done.
Qed.

(** [getTriangleCount] throws exactly for a mesh without geometry, and
    [determineMeshPriority] only when it does. *)
Lemma getTriangleCount_None h mesh :
  ProgressiveLoader.getTriangleCount h mesh = None ↔ ¬ has_geometry h mesh.
Proof.
  unfold ProgressiveLoader.getTriangleCount, has_geometry. split.
  - intros H (o & g & material & geometry & Ho & Hk & Hg). rewrite Ho, Hk, Hg in H.
    destruct (Three.index geometry); [done|].
    by destruct (snd <$> list_find _ (Three.attributes geometry)) as [[? ?]|].
  - intros H. destruct (Three.getObject3D h mesh) as [o|] eqn:Ho; [|done].
    destruct (Three.kind o) as [[g|] material| | | | |] eqn:Hk; try done.
    destruct (Three.deref h g) as [[geometry| | |]|] eqn:Hg; try done.
    exfalso. apply H. by exists o, g, material, geometry.
Qed.

Lemma determineMeshPriority_None h mesh :
  ProgressiveLoader.determineMeshPriority h mesh = None →
  ProgressiveLoader.getTriangleCount h mesh = None.
Proof.
  unfold ProgressiveLoader.determineMeshPriority. cbv zeta.
  repeat match goal with |- context [if ?b then _ else _] => destruct b; [done|] end.
  destruct (ProgressiveLoader.getTriangleCount h mesh) as [t|]; [|done].
  by repeat match goal with |- context [if ?b then _ else _] => destruct b end.
Qed.

Lemma of_priority_class p q (l : list LoadingChunk) :
  Forall (λ c, priority c = q) l →
  of_priority p l = if decide (q = p) then l else [].
Proof.
  unfold of_priority. intros Hl. destruct (decide (q = p)) as [<-|Hne].
  - induction Hl as [|c l Hc Hl IH]; [done|]. by rewrite filter_cons, decide_True, IH.
  - apply filter_none. eapply Forall_impl; [exact Hl|]. intros c Hc. congruence.
Qed.

(** X8: the queue built from a scene.  When [determineMeshPriority]
    returns for every mesh of the scene the call builds the queue: the
    priority sort finds the chunks already in ascending priority; the
    members of the chunks of one priority class are, in discovery order,
    exactly the scene's meshes classified in that class, so that every mesh
    of the scene is in the chunks once; and no chunk is empty.  Otherwise
    the call throws and builds no queue, and the scene holds a mesh without
    geometry whose name has none of the keywords. *)
Theorem queue_partitions_scene (w : World) (stamp : LoadingPriority → nat → string)
        (scene : Three.ref) :
  let ms := filter (λ object, Three.isMesh (heap w) object = true)
                   (Three.traverse (heap w) scene) in
  match ProgressiveLoader.loadModelProgressively_prepare stamp scene w with
  | Some w' =>
      let q := loadingQueue (progressiveLoader w') in
      w' = ProgressiveLoader.set_loader (ProgressiveLoader.set_loadingQueue q) w
      ∧ StronglySorted priority_le q
      ∧ (∀ p, concat (meshes <$> of_priority p q)
              = filter (λ m, ProgressiveLoader.determineMeshPriority (heap w) m = Some p) ms)
      ∧ concat (meshes <$> q) ≡ₚ ms
      ∧ Forall (λ c, meshes c ≠ []
                     ∧ Forall (λ m, ProgressiveLoader.determineMeshPriority (heap w) m
                                    = Some (priority c))
                              (meshes c)) q
  | None =>
      ∃ m, m ∈ ms
           ∧ ProgressiveLoader.determineMeshPriority (heap w) m = None
           ∧ ¬ has_geometry (heap w) m
  end.
Proof.
  intros ms.
  unfold ProgressiveLoader.loadModelProgressively_prepare,
    ProgressiveLoader.analyzeAndChunkModel, ProgressiveLoader.groupMeshesByPriority.
  cbv zeta. fold ms.
  destruct (decide (Forall (λ mesh, is_Some (ProgressiveLoader.determineMeshPriority
                                               (heap w) mesh)) ms)) as [Hall|Hnot].
  2: { apply not_Forall_Exists in Hnot; [|intros x; apply _].
       apply Exists_exists in Hnot as (m & Hm & Hnone). simpl in Hnone.
       apply eq_None_not_Some in Hnone.
       exists m. split; [done|]. split; [done|].
       by apply getTriangleCount_None, determineMeshPriority_None. }
  split; [reflexivity|].
  pose proof (class_chunks_ok w (stamp CRITICAL) ms CRITICAL) as [HC HcC].
  pose proof (class_chunks_ok w (stamp HIGH) ms HIGH) as [HH HcH].
  pose proof (class_chunks_ok w (stamp MEDIUM) ms MEDIUM) as [HM HcM].
  pose proof (class_chunks_ok w (stamp LOW) ms LOW) as [HL HcL].
  simpl in *.
  set (cC := ProgressiveLoader.createChunksFromMeshes w (stamp CRITICAL) _ CRITICAL) in *.
  set (cH := ProgressiveLoader.createChunksFromMeshes w (stamp HIGH) _ HIGH) in *.
  set (cM := ProgressiveLoader.createChunksFromMeshes w (stamp MEDIUM) _ MEDIUM) in *.
  set (cL := ProgressiveLoader.createChunksFromMeshes w (stamp LOW) _ LOW) in *.
  rewrite app_nil_r.
  assert (Hp : ∀ p l, Forall (λ c, priority c = p ∧ meshes c ≠ []) l →
                      Forall (λ c, priority c = p) l).
  { intros p l Hl. eapply Forall_impl; [exact Hl|]. by intros c [? ?]. }
  assert (Hsorted : StronglySorted priority_le (cC ++ cH ++ cM ++ cL)).
  { repeat (apply StronglySorted_app; split; [|split]);
      try (eapply same_priority_sorted, Hp; eassumption).
    - intros x y Hx Hy.
      assert (priority x = CRITICAL) as Ex
        by (revert x Hx; apply Forall_forall; eapply Hp; eassumption).
      unfold priority_le. rewrite Ex. destruct (priority y); simpl; lia.
    - intros x y Hx Hy.
      assert (priority x = HIGH) as Ex
        by (revert x Hx; apply Forall_forall; eapply Hp; eassumption).
      assert (priority y = MEDIUM ∨ priority y = LOW) as Ey.
      { apply elem_of_app in Hy as [Hy|Hy]; [left|right];
          revert y Hy; apply Forall_forall; eapply Hp; eassumption. }
      unfold priority_le. rewrite Ex. destruct Ey as [-> | ->]; simpl; lia.
    - intros x y Hx Hy.
      assert (priority x = MEDIUM) as Ex
        by (revert x Hx; apply Forall_forall; eapply Hp; eassumption).
      assert (priority y = LOW) as Ey
        by (revert y Hy; apply Forall_forall; eapply Hp; eassumption).
      unfold priority_le. rewrite Ex, Ey. simpl. lia. }
  rewrite (sort_by_priority_sorted_id _ Hsorted).
  set (q := cC ++ cH ++ cM ++ cL) in *.
  assert (Hclass : ∀ p, concat (meshes <$> of_priority p q)
                        = filter (λ m, ProgressiveLoader.determineMeshPriority (heap w) m
                                       = Some p) ms).
  { intros p. unfold q, of_priority. rewrite !filter_app.
    fold (of_priority p cC) (of_priority p cH) (of_priority p cM) (of_priority p cL).
    rewrite (of_priority_class p CRITICAL cC), (of_priority_class p HIGH cH),
      (of_priority_class p MEDIUM cM), (of_priority_class p LOW cL) by (eapply Hp; eassumption).
    destruct p; simpl; rewrite ?app_nil_r; done. }
  split; [done|]. split; [exact Hclass|]. split.
  - unfold q. rewrite !fmap_app, !concat_app, HcC, HcH, HcM, HcL.
    pose proof (by_priority_partition (ProgressiveLoader.determineMeshPriority (heap w)) ms Hall)
      as H.
    simpl in H. by rewrite app_nil_r in H.
  - apply Forall_forall. intros c Hc.
    assert (Hne : meshes c ≠ []).
    { unfold q in Hc. repeat (apply elem_of_app in Hc as [Hc|Hc]);
        [revert c Hc; apply Forall_forall; eapply Forall_impl; [exact HC|by intros ? [? ?]]
        |revert c Hc; apply Forall_forall; eapply Forall_impl; [exact HH|by intros ? [? ?]]
        |revert c Hc; apply Forall_forall; eapply Forall_impl; [exact HM|by intros ? [? ?]]
        |revert c Hc; apply Forall_forall; eapply Forall_impl; [exact HL|by intros ? [? ?]]]. }
    split; [done|]. apply Forall_forall. intros m Hm.
    assert (Hin : m ∈ concat (meshes <$> of_priority (priority c) q)).
    { apply elem_of_concat. exists (meshes c). split; [done|].
      apply list_elem_of_fmap. exists c. split; [done|].
      unfold of_priority. by apply list_elem_of_filter. }
    rewrite Hclass in Hin. by apply list_elem_of_filter in Hin as [? _].
Qed.

(** A scene with one mesh named "roof" that has lost its geometry: the
    analysis throws and no queue is built. *)
Example mesh_without_geometry_is_rejected :
  ProgressiveLoader.loadModelProgressively_prepare Sample.stamp 0 Sample.bare_world = None.
Proof. reflexivity. Qed.

(** X9: the loop starts chunks in ascending priority.  In every execution
    of the loop alone on a queue in ascending priority (as
    [loadModelProgressively] leaves it), the chunks started so far are in
    ascending priority, and no chunk still queued has a smaller priority
    value than a chunk already started. *)
Theorem chunks_start_in_priority_order
        (w w' : World) (evs : list ProgressiveLoader.Event) :
  StronglySorted priority_le (loadingQueue (progressiveLoader w)) →
  ProgressiveLoader.loop_only evs →
  ProgressiveLoader.steps w evs w' →
  StronglySorted priority_le (ProgressiveLoader.started evs)
  ∧ (∀ c d, c ∈ ProgressiveLoader.started evs → d ∈ loadingQueue (progressiveLoader w') →
            priority_le c d).
Proof.
  intros Hs Hloop Hsteps. rewrite <- (started_queue _ _ _ Hloop Hsteps) in Hs.
  split.
  - by apply StronglySorted_app_1_l in Hs.
  - intros c d Hc Hd. by eapply StronglySorted_app_1_elem_of.
Qed.

Lemma chunks_start_in_priority_order_witness :
  let w0 := Sample.queued Sample.world in
  let c1 := mkLoadingChunk "chunk_0_0" CRITICAL [1] 1066 false in
  let c2 := mkLoadingChunk "chunk_1_0" HIGH [2] 1066 false in
  let c3 := mkLoadingChunk "chunk_2_0" MEDIUM [3] 1066 false in
  StronglySorted priority_le [c1; c2].
Proof.
  intros w0 c1 c2 c3.
  refine (proj1 (chunks_start_in_priority_order w0
                   (ProgressiveLoader.start_chunk c2 [c3] 0
                      (ProgressiveLoader.start_chunk c1 [c2; c3] 0 w0))
                   [ProgressiveLoader.ev_start c1; ProgressiveLoader.ev_start c2] _ _ _)).
  - apply (sort_by_priority_sorted
             (default [] (ProgressiveLoader.analyzeAndChunkModel Sample.world Sample.stamp 0))).
  - repeat constructor.
  - eapply ProgressiveLoader.steps_cons;
      [apply (ProgressiveLoader.step_start w0 c1 [c2; c3] 0); vm_compute; reflexivity|].
    eapply ProgressiveLoader.steps_cons;
      [apply (ProgressiveLoader.step_start _ c2 [c3] 0); vm_compute; reflexivity|].
    apply ProgressiveLoader.steps_nil.
Defined.

(** ** Heaps that differ in visibility only *)

Lemma visibility_only_refl h : visibility_only h h.
Proof.
  intros x. destruct (Three.deref h x) as [[| | |o]|]; try done.
  exists (Three.visible o). by destruct o.
Qed.

Lemma visibility_only_trans h1 h2 h3 :
  visibility_only h1 h2 → visibility_only h2 h3 → visibility_only h1 h3.
Proof.
  intros H12 H23 x. specialize (H12 x). specialize (H23 x).
  destruct (Three.deref h1 x) as [[| | |o]|]; try (by rewrite H12 in H23).
  destruct H12 as [v H12]. rewrite H12 in H23. destruct H23 as [v' H23].
  exists v'. by rewrite H23.
Qed.

Lemma assign_visible_only r v h : visibility_only h (Three.assign_visible r v h).
Proof.
  intros x. unfold Three.assign_visible, Three.update3D, Three.getObject3D.
  destruct (Three.deref h r) as [[| | |o]|] eqn:E;
    try apply (visibility_only_refl h x).
  unfold Three.deref, Three.store in *. simpl.
  destruct (decide (x = r)) as [->|Hne].
  - rewrite E, lookup_insert_eq. by exists v.
  - rewrite lookup_insert_ne by done. apply (visibility_only_refl h x).
Qed.

Lemma visibility_only_up_to h h' : visibility_only h h' → up_to_visibility h h'.
Proof.
  intros H x. specialize (H x). unfold Three.getObject3D.
  destruct (Three.deref h x) as [[| | |o]|]; try (by rewrite H).
  destruct H as [v ->]. by exists v.
Qed.

Lemma foldl_visibility_only {A} (f : Three.Heap → A → Three.Heap) (l : list A) h :
  (∀ h x, visibility_only h (f h x)) → visibility_only h (foldl f h l).
Proof.
  intros Hf. revert h. induction l as [|x l IH]; intros h; simpl.
  - apply visibility_only_refl.
  - eapply visibility_only_trans; [apply Hf|apply IH].
Qed.

(** ** What [loadChunk] does to the members of its chunk *)


Lemma registerResource_heap resource t oid now rnd w :
  heap (snd (ResourceManager.registerResource resource t oid now rnd w)) = heap w.
Proof. done. Qed.












(** ** A complete [loadChunk] *)



Lemma Map_set_keys `{EqDecision K} {V} (k : K) (v : V) (m : list (K * V)) (j : K) :
  j ∈ (fst <$> Js.Map_set k v m) ↔ j = k ∨ j ∈ (fst <$> m).
Proof.
  induction m as [|[k' v'] m IH]; simpl.
  - rewrite list_elem_of_singleton, elem_of_nil. tauto.
  - destruct (decide (k' = k)) as [->|Hne]; simpl; rewrite !elem_of_cons.
    + tauto.
    + rewrite IH. tauto.
Qed.

Lemma Map_set_length `{EqDecision K} {V} (k : K) (v : V) (m : list (K * V)) :
  length m ≤ length (Js.Map_set k v m).
Proof.
  induction m as [|[k' v'] m IH]; simpl; [lia|].
  destruct (decide (k' = k)); simpl; lia.
Qed.

Lemma show_all_visible (l : list Three.ref) (h : Three.Heap) :
  let h' := foldl (λ acc mesh, Three.assign_visible mesh true acc) h l in
  visibility_only h h'
  ∧ (∀ x, Three.is_visible h x = Some true → Three.is_visible h' x = Some true)
  ∧ (∀ m, m ∈ l → is_Some (Three.getObject3D h m) → Three.is_visible h' m = Some true).
Proof.
  revert h. induction l as [|y l IH]; intros h; cbn [foldl]; cbv zeta.
  - split; [apply visibility_only_refl|]. split; [done|].
    intros m Hm. by apply elem_of_nil in Hm.
  - destruct (IH (Three.assign_visible y true h)) as (Hv & Hkeep & Hnew).
    assert (Hstep : ∀ x, Three.is_visible h x = Some true →
                         Three.is_visible (Three.assign_visible y true h) x = Some true).
    { intros x. unfold Three.is_visible. rewrite getObject3D_assign_visible.
      destruct (decide (x = y)); [|done]. by destruct (Three.getObject3D h x). }
    split; [|split].
    + eapply visibility_only_trans; [apply assign_visible_only|exact Hv].
    + intros x Hx. by apply Hkeep, Hstep.
    + intros m Hm [o Ho]. apply elem_of_cons in Hm as [->|Hm].
      * apply Hkeep. unfold Three.is_visible.
        by rewrite getObject3D_assign_visible, decide_True, Ho by done.
      * apply Hnew; [done|]. rewrite getObject3D_assign_visible.
        destruct (decide (m = y)); rewrite Ho; by eexists.
Qed.



(** ** The loop conserves the chunks *)

Lemma step_conserves w ev w' :
  ProgressiveLoader.step w ev w' →
  match ev with ProgressiveLoader.ev_reset | ProgressiveLoader.ev_queue _ => False | _ => True end →
  (∀ i, i ∈ known_ids w ↔ i ∈ known_ids w')
  ∧ (∀ i, i ∈ (fst <$> loadedChunks (progressiveLoader w)) →
          i ∈ (fst <$> loadedChunks (progressiveLoader w')))
  ∧ length (loadedChunks (progressiveLoader w)) ≤ length (loadedChunks (progressiveLoader w')).
Proof.
  intros Hstep Hev.
  destruct Hstep as [w chunk rest now Hq Hlt|w chunk before after Hp|w n|w|w chunks];
    try done.
  - unfold known_ids, ProgressiveLoader.start_chunk.
    destruct (loadChunk_begin_loader chunk now
                (ProgressiveLoader.set_loader (ProgressiveLoader.set_loadingQueue rest) w))
      as [Hl Hpend].
    cbn [progressiveLoader pendingLoads with_pendingLoads]. rewrite Hl, Hpend, Hq.
    cbn [loadingQueue loadedChunks pendingLoads progressiveLoader
         ProgressiveLoader.set_activeLoads ProgressiveLoader.set_loader
         ProgressiveLoader.set_loadingQueue with_progressiveLoader].
    split; [|done]. intros i.
    rewrite fmap_cons, fmap_app, fmap_cons, fmap_nil.
    rewrite !elem_of_app, !elem_of_cons, elem_of_nil. tauto.
  - unfold known_ids, ProgressiveLoader.loadChunk_finish. cbv zeta.
    cbn [loadingQueue loadedChunks pendingLoads progressiveLoader
         ProgressiveLoader.set_activeLoads ProgressiveLoader.set_loadedChunks
         ProgressiveLoader.set_loader with_pendingLoads with_heap with_progressiveLoader].
    rewrite Hp. split; [|split].
    + intros i. rewrite !fmap_app, fmap_cons, !elem_of_app, elem_of_cons, Map_set_keys.
      cbn [chunk_id]. tauto.
    + intros i Hi. apply Map_set_keys. by right.
    + apply Map_set_length.
Qed.

(** X12: the loading loop, with nothing arriving from outside, loses no
    chunk: the ids queued, in flight or loaded are the same before and
    after, a loaded id stays loaded, and the number of loaded chunks never
    goes down. *)
Theorem loop_conserves_chunks (w w' : World) (evs : list ProgressiveLoader.Event) :
  ProgressiveLoader.loop_only evs →
  ProgressiveLoader.steps w evs w' →
  (∀ i, i ∈ known_ids w ↔ i ∈ known_ids w')
  ∧ (∀ i, i ∈ (fst <$> loadedChunks (progressiveLoader w)) →
          i ∈ (fst <$> loadedChunks (progressiveLoader w')))
  ∧ length (loadedChunks (progressiveLoader w)) ≤ length (loadedChunks (progressiveLoader w')).
Proof.
  intros Hloop Hsteps. induction Hsteps as [w|w1 w2 w3 ev evs Hstep Hsteps IH]; [done|].
  apply Forall_cons in Hloop as [Hev Hloop].
  destruct (step_conserves _ _ _ Hstep Hev) as (H1 & H2 & H3).
  destruct (IH Hloop) as (H1' & H2' & H3').
  split; [|split].
  - intros i. by rewrite H1.
  - intros i Hi. by apply H2', H2.
  - lia.
Qed.

(** On the sample scene: two chunks started, the second one finished. *)
Lemma loop_conserves_chunks_witness :
  let w0 := Sample.queued Sample.world in
  let c1 := mkLoadingChunk "chunk_0_0" CRITICAL [1] 1066 false in
  let c2 := mkLoadingChunk "chunk_1_0" HIGH [2] 1066 false in
  let c3 := mkLoadingChunk "chunk_2_0" MEDIUM [3] 1066 false in
  let w1 := ProgressiveLoader.start_chunk c1 [c2; c3] 0 w0 in
  let w2 := ProgressiveLoader.start_chunk c2 [c3] 0 w1 in
  let w3 := ProgressiveLoader.loadChunk_finish c2 (with_pendingLoads ([c1] ++ []) w2) in
  "chunk_1_0" ∈ known_ids w0 ↔ "chunk_1_0" ∈ known_ids w3.
Proof.
  intros w0 c1 c2 c3 w1 w2 w3.
  destruct (loop_conserves_chunks w0 w3
              [ProgressiveLoader.ev_start c1; ProgressiveLoader.ev_start c2;
               ProgressiveLoader.ev_finish c2]) as (H & _).
  - repeat constructor.
  - eapply ProgressiveLoader.steps_cons;
      [apply (ProgressiveLoader.step_start w0 c1 [c2; c3] 0); vm_compute; reflexivity|].
    eapply ProgressiveLoader.steps_cons;
      [apply (ProgressiveLoader.step_start w1 c2 [c3] 0); vm_compute; reflexivity|].
    eapply ProgressiveLoader.steps_cons;
      [apply (ProgressiveLoader.step_finish w2 c2 [c1] []); vm_compute; reflexivity|].
    apply ProgressiveLoader.steps_nil.
  - apply H.
Defined.

(** ** The distance pass: what it hides and what it leaves alone *)

Lemma shown_at_false p a b :
  (p = LOW ∧ Js.gt (Three.distanceTo a b) (Js.of_Z 50) = true)
  ∨ ((p = MEDIUM ∨ p = LOW) ∧ Js.gt (Three.distanceTo a b) (Js.of_Z 100) = true) →
  ProgressiveLoader.shown_at p a b = false.
Proof.
  unfold ProgressiveLoader.shown_at.
  intros [[-> H]|[[->| ->] H]]; simpl; rewrite ?H; try done.
  by destruct (Js.gt (Three.distanceTo a b) (Js.of_Z 100)).
Qed.

(** X13: with distance-based loading on and the loader initialised, every
    call of [updateDistanceBasedLoading] hides a member of a loaded LOW
    chunk whose distance to the camera, as [distanceTo] computes it, is
    greater than 50, and a member of a loaded MEDIUM or LOW chunk whose
    distance is greater than 100, whatever its flag was before; in
    particular right after [performFrustumCulling] found it inside the
    frustum.  The mesh is taken to be in no loaded chunk of another
    priority. *)
Theorem distance_update_hides_distant
        (w : World) (intersectsObject : Three.ref → bool) (camera : Three.ref)
        (cam : Three.Object3D) (c : LoadingChunk) (m : Three.ref) (o : Three.Object3D) :
  distanceBasedLoading (options (progressiveLoader w)) = true →
  loader_camera (progressiveLoader w) = Some camera →
  is_Some (loader_scene (progressiveLoader w)) →
  Three.getObject3D (heap w) camera = Some cam →
  c ∈ Js.Map_values (loadedChunks (progressiveLoader w)) →
  m ∈ meshes c →
  Three.getObject3D (heap w) m = Some o →
  Forall (λ c', m ∈ meshes c' → priority c' = priority c)
         (Js.Map_values (loadedChunks (progressiveLoader w))) →
  (priority c = LOW
   ∧ Js.gt (Three.distanceTo (Three.position cam) (Three.position o)) (Js.of_Z 50) = true)
  ∨ ((priority c = MEDIUM ∨ priority c = LOW)
     ∧ Js.gt (Three.distanceTo (Three.position cam) (Three.position o)) (Js.of_Z 100) = true) →
  Three.is_visible (heap (ProgressiveLoader.updateDistanceBasedLoading w)) m = Some false
  ∧ Three.is_visible
      (heap (ProgressiveLoader.updateDistanceBasedLoading
               (RenderOptimizer.performFrustumCulling intersectsObject w))) m
    = Some false.
Proof.
  intros Hon Hcam Hscene Hcamobj Hc Hm Ho Hall Hcase.
  apply (shown_at_false _ (Three.position cam) (Three.position o)) in Hcase.
  split.
  - rewrite <- Hcase.
    by apply (updateDistanceBasedLoading_visible (heap w) w camera cam c m o
                (up_to_visibility_refl _)).
  - destruct (performFrustumCulling_up_to intersectsObject w) as [Hup Hloader].
    rewrite <- Hcase.
    apply (updateDistanceBasedLoading_visible (heap w) _ camera cam c m o Hup);
      rewrite ?Hloader; done.
Qed.

(** The third mesh of the sample scene, 60 units from the camera, as the
    member of a loaded LOW chunk. *)
Lemma distance_update_hides_distant_witness :
  let w := ProgressiveLoader.set_loader
             (ProgressiveLoader.set_loadedChunks
                [("chunk_3_0", mkLoadingChunk "chunk_3_0" LOW [3] 1066 true)])
             Sample.loaded_world in
  Three.is_visible (heap (ProgressiveLoader.updateDistanceBasedLoading w)) 3 = Some false.
Proof.
  intros w.
  refine (proj1 (distance_update_hides_distant
                   w (λ _, true) 10
                   (Three.mkObject3D "c" "camera" (Three.vector3 0 0 0) true None []
                                     false Three.KCamera)
                   (mkLoadingChunk "chunk_3_0" LOW [3] 1066 true) 3
                   (Three.mkObject3D "u3" "trim-fixture-2" (Three.vector3 60 0 0) true
                                     (Some 0%nat) [] false
                                     (Three.KMesh (Some 6%nat) (Three.OneMaterial 9%nat)))
                   _ _ _ _ _ _ _ _ _)).
  - reflexivity.
  - reflexivity.
  - vm_compute. by eexists.
  - reflexivity.
  - apply list_elem_of_here.
  - apply list_elem_of_here.
  - reflexivity.
  - by repeat constructor.
  - left. split; reflexivity.
Defined.

(** ** Passes over the scene that only set [visible] *)

Lemma deref_assign_visible_ne r v h x :
  x ≠ r → Three.deref (Three.assign_visible r v h) x = Three.deref h x.
Proof.
  intros Hne. unfold Three.assign_visible, Three.update3D.
  destruct (Three.getObject3D h r); [|done].
  unfold Three.deref, Three.store. simpl. by rewrite lookup_insert_ne.
Qed.

Lemma isMesh_visibility_only h0 h x :
  visibility_only h0 h → Three.isMesh h x = Three.isMesh h0 x.
Proof.
  intros Hv. pose proof (visibility_only_up_to _ _ Hv x) as Hx.
  unfold Three.isMesh. destruct (Three.getObject3D h0 x) as [o|]; [|by rewrite Hx].
  by destruct Hx as [v ->].
Qed.

Lemma visibility_only_size h h' :
  visibility_only h h' → base.size (Three.cells h') = base.size (Three.cells h).
Proof.
  intros Hv. rewrite <- !size_dom. f_equal. apply set_eq. intros x.
  rewrite !elem_of_dom. specialize (Hv x).
  change (is_Some (Three.deref h' x) ↔ is_Some (Three.deref h x)).
  destruct (Three.deref h x) as [[| | |o]|];
    [rewrite Hv..|destruct Hv as [v ->]|rewrite Hv];
    split; intros [? ?]; try done; by eexists.
Qed.

Lemma traverse_fuel_visibility_only fuel h h' r :
  visibility_only h h' → Three.traverse_fuel fuel h' r = Three.traverse_fuel fuel h r.
Proof.
  intros Hv. revert r. induction fuel as [|fuel IH]; intros r; [done|]. simpl.
  pose proof (visibility_only_up_to _ _ Hv r) as Hr.
  destruct (Three.getObject3D h r) as [o|]; [|by rewrite Hr].
  destruct Hr as [v ->]. simpl. f_equal.
  induction (Three.children o) as [|c cs IHc]; [done|]. simpl. by rewrite IH, IHc.
Qed.

Lemma traverse_visibility_only h h' r :
  visibility_only h h' → Three.traverse h' r = Three.traverse h r.
Proof.
  intros Hv. unfold Three.traverse.
  by rewrite (visibility_only_size _ _ Hv), (traverse_fuel_visibility_only _ _ _ _ Hv).
Qed.

Lemma traverse_fuel_objects fuel h r x :
  x ∈ Three.traverse_fuel fuel h r → is_Some (Three.getObject3D h x).
Proof.
  revert r. induction fuel as [|fuel IH]; intros r; simpl; [by intros H%elem_of_nil|].
  destruct (Three.getObject3D h r) as [o|] eqn:E; [|by intros H%elem_of_nil].
  intros [->|H]%elem_of_cons; [by eexists|].
  apply list_elem_of_In, in_flat_map in H as (c & _ & H).
  by apply (IH c), list_elem_of_In.
Qed.

Lemma culling_loop (f : Three.ref → bool) (l : list Three.ref) (h0 h : Three.Heap) :
  visibility_only h0 h →
  let h' := foldl (λ acc object,
                     if Three.isMesh acc object
                     then Three.assign_visible object (f object) acc
                     else acc) h l in
  visibility_only h0 h'
  ∧ (∀ x, x ∈ l → Three.isMesh h0 x = true → Three.is_visible h' x = Some (f x))
  ∧ (∀ x, x ∉ l ∨ Three.isMesh h0 x = false → Three.deref h' x = Three.deref h x).
Proof.
  intros Hv. induction l as [|y l IH] using rev_ind; cbv zeta.
  - split; [done|]. split; [|done]. intros x Hx. by apply elem_of_nil in Hx.
  - rewrite foldl_snoc. destruct IH as (Hv' & Hset & Hkeep).
    set (h1 := foldl _ h l) in *.
    rewrite (isMesh_visibility_only h0 h1 y Hv').
    destruct (Three.isMesh h0 y) eqn:Hy.
    + split; [eapply visibility_only_trans; [exact Hv'|apply assign_visible_only]|].
      split.
      * intros x Hx Hm. unfold Three.is_visible. rewrite getObject3D_assign_visible.
        destruct (decide (x = y)) as [->|Hne].
        -- pose proof (visibility_only_up_to _ _ Hv' y) as Hy'.
           unfold Three.isMesh in Hy. destruct (Three.getObject3D h0 y); [|done].
           by destruct Hy' as [v ->].
        -- apply elem_of_app in Hx as [Hx|Hx]; [by apply Hset|].
           by apply list_elem_of_singleton in Hx.
      * intros x Hx. rewrite deref_assign_visible_ne.
        -- apply Hkeep. destruct Hx as [Hx|Hx]; [|by right].
           left. intros H. apply Hx, elem_of_app. by left.
        -- intros ->. destruct Hx as [Hx|Hx]; [|congruence].
           apply Hx, elem_of_app. right. by apply list_elem_of_singleton.
    + split; [exact Hv'|]. split.
      * intros x Hx Hm. apply elem_of_app in Hx as [Hx|Hx]; [by apply Hset|].
        apply list_elem_of_singleton in Hx. congruence.
      * intros x Hx. apply Hkeep. destruct Hx as [Hx|Hx]; [|by right].
        left. intros H. apply Hx, elem_of_app. by left.
Qed.

(** X15: with camera and scene set, [performFrustumCulling] gives every
    mesh of the scene graph the outcome of its frustum test as [visible]
    flag and touches nothing else: other cells of the scene are as before,
    and so are the registry and the loader. *)
Theorem frustum_culling_effect
        (intersectsObject : Three.ref → bool) (w : World) (scene : Three.ref) :
  is_Some (optimizer_camera (renderOptimizer w)) →
  optimizer_scene (renderOptimizer w) = Some scene →
  let w' := RenderOptimizer.performFrustumCulling intersectsObject w in
  (∀ x, x ∈ Three.traverse (heap w) scene → Three.isMesh (heap w) x = true →
        Three.is_visible (heap w') x = Some (intersectsObject x))
  ∧ (∀ x, x ∉ Three.traverse (heap w) scene ∨ Three.isMesh (heap w) x = false →
          Three.deref (heap w') x = Three.deref (heap w) x)
  ∧ visibility_only (heap w) (heap w')
  ∧ resourceManager w' = resourceManager w
  ∧ progressiveLoader w' = progressiveLoader w.
Proof.
  intros [camera Hcam] Hscene. unfold RenderOptimizer.performFrustumCulling.
  rewrite Hcam, Hscene. cbv zeta.
  destruct (culling_loop intersectsObject (Three.traverse (heap w) scene) (heap w) (heap w)
              (visibility_only_refl _)) as (Hv & Hset & Hkeep).
  by repeat split.
Qed.

Lemma frustum_culling_effect_witness :
  Three.is_visible
    (heap (RenderOptimizer.performFrustumCulling (λ x, bool_decide (x = 2%nat))
                                                 Sample.loaded_world)) 1
  = Some false.
Proof.
  refine (proj1 (frustum_culling_effect (λ x, bool_decide (x = 2%nat)) Sample.loaded_world 0
                                        _ _) 1 _ _).
  - vm_compute. by eexists.
  - reflexivity.
  - vm_compute. do 1 right. by left.
  - reflexivity.
Defined.

(** X14: [updateDistanceBasedLoading] changes nothing but [visible] flags
    of members of loaded chunks: every other cell of the scene, the
    registry, the loader and the optimizer are as before; and it does
    nothing at all when distance-based loading is off or the loader has no
    camera or scene. *)
Theorem distance_update_frame (w : World) :
  let w' := ProgressiveLoader.updateDistanceBasedLoading w in
  visibility_only (heap w) (heap w')
  ∧ (∀ x, (∀ c, c ∈ Js.Map_values (loadedChunks (progressiveLoader w)) → x ∉ meshes c) →
          Three.deref (heap w') x = Three.deref (heap w) x)
  ∧ resourceManager w' = resourceManager w
  ∧ progressiveLoader w' = progressiveLoader w
  ∧ pendingLoads w' = pendingLoads w
  ∧ renderOptimizer w' = renderOptimizer w
  ∧ (distanceBasedLoading (options (progressiveLoader w)) = false
     ∨ loader_camera (progressiveLoader w) = None
     ∨ loader_scene (progressiveLoader w) = None → w' = w).
Proof.
  cbv zeta. unfold ProgressiveLoader.updateDistanceBasedLoading.
  assert (Hid : visibility_only (heap w) (heap w)
                ∧ (∀ x, (∀ c, c ∈ Js.Map_values (loadedChunks (progressiveLoader w)) →
                              x ∉ meshes c) →
                        Three.deref (heap w) x = Three.deref (heap w) x)
                ∧ resourceManager w = resourceManager w
                ∧ progressiveLoader w = progressiveLoader w
                ∧ pendingLoads w = pendingLoads w
                ∧ renderOptimizer w = renderOptimizer w).
  { split; [apply visibility_only_refl|done]. }
  destruct Hid as (H1 & H2 & H3 & H4 & H5 & H6).
  destruct (distanceBasedLoading (options (progressiveLoader w))); [|by repeat split].
  destruct (loader_camera (progressiveLoader w)) as [camera|]; [|by repeat split].
  destruct (loader_scene (progressiveLoader w)) as [scene|]; [|by repeat split].
  destruct (Three.getObject3D (heap w) camera) as [cam|];
    [|repeat split; try done; intros [?|[?|?]]; done].
  cbv zeta. cbn [heap with_heap resourceManager progressiveLoader pendingLoads renderOptimizer].
  generalize (Three.position cam). intros cameraPosition.
  assert (Hloop : ∀ cs h,
             let h' := foldl (λ acc chunk,
                                foldl (show_mesh cameraPosition (priority chunk))
                                      acc (meshes chunk)) h cs in
             visibility_only h h'
             ∧ ∀ x, (∀ c, c ∈ cs → x ∉ meshes c) → Three.deref h' x = Three.deref h x).
  { assert (Hinner : ∀ p ms h,
               let h' := foldl (show_mesh cameraPosition p) h ms in
               visibility_only h h'
               ∧ ∀ x, x ∉ ms → Three.deref h' x = Three.deref h x).
    { intros p ms. induction ms as [|y ms IH]; intros h; cbn [foldl]; cbv zeta.
      - split; [apply visibility_only_refl|done].
      - destruct (IH (show_mesh cameraPosition p h y)) as [Hv Hk].
        assert (Hy : visibility_only h (show_mesh cameraPosition p h y)
                     ∧ ∀ x, x ≠ y → Three.deref (show_mesh cameraPosition p h y) x
                                    = Three.deref h x).
        { unfold show_mesh. destruct (Three.getObject3D h y).
          - split; [apply assign_visible_only|]. intros x Hx.
            by apply deref_assign_visible_ne.
          - split; [apply visibility_only_refl|done]. }
        destruct Hy as [Hy1 Hy2]. split.
        + eapply visibility_only_trans; [exact Hy1|exact Hv].
        + intros x Hx. apply not_elem_of_cons in Hx as [Hne Hx].
          rewrite Hk by done. by apply Hy2. }
    intros cs. induction cs as [|c cs IH]; intros h; cbn [foldl]; cbv zeta.
    - split; [apply visibility_only_refl|done].
    - destruct (Hinner (priority c) (meshes c) h) as [Hv1 Hk1].
      destruct (IH (foldl (show_mesh cameraPosition (priority c)) h (meshes c))) as [Hv2 Hk2].
      split.
      + eapply visibility_only_trans; [exact Hv1|exact Hv2].
      + intros x Hx. rewrite Hk2.
        * apply Hk1. apply Hx. by left.
        * intros c' Hc'. apply Hx. by right. }
  destruct (Hloop (Js.Map_values (loadedChunks (progressiveLoader w))) (heap w)) as [Hv Hk].
  split; [exact Hv|]. split; [exact Hk|]. repeat split; try done.
  intros [?|[?|?]]; done.
Qed.

(** X16: the optimizer's [reset] forgets every LOD object, puts the pixel
    ratio back at its cap with shadows on, and makes every object of the
    scene graph visible, including what a frustum pass has just hidden;
    the registry and the loader are not involved. *)
Theorem optimizer_reset_restores
        (devicePixelRatio : Q) (intersectsObject : Three.ref → bool) (w : World) :
  let w' := RenderOptimizer.reset devicePixelRatio w in
  let w'' := RenderOptimizer.reset devicePixelRatio
               (RenderOptimizer.performFrustumCulling intersectsObject w) in
  lodObjects (renderOptimizer w') = []
  ∧ (is_Some (renderer (renderOptimizer w)) →
     renderer (renderOptimizer w')
     = Some (mkWebGLRenderer (RenderOptimizer.maxPixelRatio devicePixelRatio) true))
  ∧ visibility_only (heap w) (heap w')
  ∧ (∀ scene x, optimizer_scene (renderOptimizer w) = Some scene →
                x ∈ Three.traverse (heap w) scene →
                Three.is_visible (heap w') x = Some true
                ∧ Three.is_visible (heap w'') x = Some true)
  ∧ resourceManager w' = resourceManager w
  ∧ progressiveLoader w' = progressiveLoader w.
Proof.
  assert (Hreset : ∀ w0,
             let w' := RenderOptimizer.reset devicePixelRatio w0 in
             lodObjects (renderOptimizer w') = []
             ∧ (is_Some (renderer (renderOptimizer w0)) →
                renderer (renderOptimizer w')
                = Some (mkWebGLRenderer (RenderOptimizer.maxPixelRatio devicePixelRatio) true))
             ∧ visibility_only (heap w0) (heap w')
             ∧ (∀ scene x, optimizer_scene (renderOptimizer w0) = Some scene →
                           x ∈ Three.traverse (heap w0) scene →
                           Three.is_visible (heap w') x = Some true)
             ∧ resourceManager w' = resourceManager w0
             ∧ progressiveLoader w' = progressiveLoader w0).
  { intros w0. cbv zeta. unfold RenderOptimizer.reset. cbv zeta.
    set (w1 := RenderOptimizer.set_optimizer (RenderOptimizer.set_lodObjects []) w0).
    set (w2 := match renderer (renderOptimizer w1) with
               | Some _ =>
                   RenderOptimizer.set_optimizer
                     (RenderOptimizer.set_renderer
                        (Some (mkWebGLRenderer
                                 (RenderOptimizer.maxPixelRatio devicePixelRatio) true))) w1
               | None => w1
               end).
    assert (H2 : lodObjects (renderOptimizer w2) = []
                 ∧ (is_Some (renderer (renderOptimizer w0)) →
                    renderer (renderOptimizer w2)
                    = Some (mkWebGLRenderer
                              (RenderOptimizer.maxPixelRatio devicePixelRatio) true))
                 ∧ heap w2 = heap w0
                 ∧ optimizer_scene (renderOptimizer w2) = optimizer_scene (renderOptimizer w0)
                 ∧ resourceManager w2 = resourceManager w0
                 ∧ progressiveLoader w2 = progressiveLoader w0).
    { unfold w2, w1. cbn [renderer renderOptimizer RenderOptimizer.set_optimizer
                          RenderOptimizer.set_lodObjects with_renderOptimizer].
      destruct (renderer (renderOptimizer w0)); repeat split; try done.
      all: intros [? ?]; done. }
    clearbody w2. clear w1. destruct H2 as (Hl & Hr & Hh & Hs & Hrm & Hpl).
    rewrite Hs. destruct (optimizer_scene (renderOptimizer w0)) as [scene|].
    - cbn [heap with_heap renderOptimizer resourceManager progressiveLoader].
      rewrite Hh.
      destruct (show_all_visible (Three.traverse (heap w0) scene) (heap w0))
        as (Hv & _ & Hshow).
      repeat split; try done.
      intros scene' x [= <-] Hx. apply Hshow; [done|].
      by apply traverse_fuel_objects in Hx.
    - rewrite Hh. repeat split; try done. apply visibility_only_refl. }
  cbv zeta. destruct (Hreset w) as (H1 & H2 & H3 & H4 & H5 & H6).
  split; [done|]. split; [done|]. split; [done|]. split; [|done].
  intros scene x Hs Hx. split; [by eapply H4|].
  destruct (Hreset (RenderOptimizer.performFrustumCulling intersectsObject w))
    as (_ & _ & _ & H4' & _).
  assert (Hc : visibility_only (heap w)
                 (heap (RenderOptimizer.performFrustumCulling intersectsObject w))
               ∧ optimizer_scene
                   (renderOptimizer (RenderOptimizer.performFrustumCulling intersectsObject w))
                 = optimizer_scene (renderOptimizer w)).
  { unfold RenderOptimizer.performFrustumCulling.
    destruct (optimizer_camera (renderOptimizer w)); [|split; [apply visibility_only_refl|done]].
    destruct (optimizer_scene (renderOptimizer w)) as [scene0|] eqn:Hs0;
      [|split; [apply visibility_only_refl|done]].
    split; [|exact Hs0].
    by destruct (culling_loop intersectsObject (Three.traverse (heap w) scene0) (heap w) (heap w)
                   (visibility_only_refl _)) as (Hv & _). }
  destruct Hc as [Hc1 Hc2].
  apply (H4' scene); [by rewrite Hc2|]. by rewrite (traverse_visibility_only _ _ _ Hc1).
Qed.

(** * More on the render optimizer *)

(** ** The pixel ratio under adaptive quality *)

Lemma Math_max_spec (a b : Q) :
  (a <= Js.Math_max a b)%Q ∧ (b <= Js.Math_max a b)%Q
  ∧ (Js.Math_max a b = a ∨ Js.Math_max a b = b).
Proof.
  unfold Js.Math_max. destruct (Qle_bool a b) eqn:E.
  - apply Qle_bool_iff in E. repeat split; [done|apply Qle_refl|by right].
  - assert (b < a)%Q by (apply Qnot_le_lt; intros H; apply Qle_bool_iff in H; congruence).
    repeat split; [apply Qle_refl|by apply Qlt_le_weak|by left].
Qed.

Lemma Math_min_spec (a b : Q) :
  (Js.Math_min a b <= a)%Q ∧ (Js.Math_min a b <= b)%Q
  ∧ (Js.Math_min a b = a ∨ Js.Math_min a b = b).
Proof.
  unfold Js.Math_min. destruct (Qle_bool a b) eqn:E.
  - apply Qle_bool_iff in E. repeat split; [apply Qle_refl|done|by left].
  - assert (b < a)%Q by (apply Qnot_le_lt; intros H; apply Qle_bool_iff in H; congruence).
    repeat split; [by apply Qlt_le_weak|apply Qle_refl|by right].
Qed.

Lemma maxPixelRatio_ge_1 (devicePixelRatio : Q) :
  (1 <= devicePixelRatio)%Q → (1 <= RenderOptimizer.maxPixelRatio devicePixelRatio)%Q.
Proof.
  intros H. unfold RenderOptimizer.maxPixelRatio.
  destruct (Math_min_spec devicePixelRatio 2) as (_ & _ & [-> | ->]); [done|by vm_compute].
Qed.

Lemma reduceQuality_in_range devicePixelRatio w r :
  renderer (renderOptimizer w) = Some r →
  (1 <= pixelRatio r)%Q →
  ∃ r', renderer (renderOptimizer (RenderOptimizer.reduceQuality w)) = Some r'
        ∧ (1 <= pixelRatio r')%Q ∧ (pixelRatio r' <= pixelRatio r)%Q
        ∧ (pixelRatio r <= RenderOptimizer.maxPixelRatio devicePixelRatio →
           pixelRatio r' <= RenderOptimizer.maxPixelRatio devicePixelRatio)%Q.
Proof.
  intros Hr H1. unfold RenderOptimizer.reduceQuality. rewrite Hr. cbv zeta.
  eexists. split; [reflexivity|]. cbn [pixelRatio].
  destruct (Js.Qlt_bool 1 (pixelRatio r)) eqn:E.
  - apply Qlt_bool_true in E.
    destruct (Math_max_spec 1 (pixelRatio r * (8 # 10))%Q) as (Ha & Hb & [Heq|Heq]);
      rewrite Heq in Ha, Hb |- *.
    + repeat split; [apply Qle_refl|done|]. intros H. eapply Qle_trans; [exact H1|exact H].
    + assert (Hle : (pixelRatio r * (8 # 10) <= pixelRatio r)%Q) by lra.
      repeat split; [done|done|]. intros H. eapply Qle_trans; [exact Hle|exact H].
  - repeat split; [done|apply Qle_refl|done].
Qed.

Lemma increaseQuality_in_range devicePixelRatio w r :
  renderer (renderOptimizer w) = Some r →
  (1 <= pixelRatio r)%Q →
  (pixelRatio r <= RenderOptimizer.maxPixelRatio devicePixelRatio)%Q →
  ∃ r', renderer (renderOptimizer (RenderOptimizer.increaseQuality devicePixelRatio w))
        = Some r'
        ∧ (pixelRatio r <= pixelRatio r')%Q
        ∧ (pixelRatio r' <= RenderOptimizer.maxPixelRatio devicePixelRatio)%Q.
Proof.
  intros Hr H1 Hcap. unfold RenderOptimizer.increaseQuality. rewrite Hr. cbv zeta.
  eexists. split; [reflexivity|]. cbn [pixelRatio].
  destruct (Js.Qlt_bool (pixelRatio r) (RenderOptimizer.maxPixelRatio devicePixelRatio)) eqn:E.
  - apply Qlt_bool_true in E.
    destruct (Math_min_spec (RenderOptimizer.maxPixelRatio devicePixelRatio)
                            (pixelRatio r * (11 # 10))%Q) as (Ha & Hb & [Heq|Heq]);
      rewrite Heq in Ha, Hb |- *.
    + split; [done|apply Qle_refl].
    + split; [lra|done].
  - split; [apply Qle_refl|done].
Qed.

Lemma adaptiveOptimization_in_range metrics devicePixelRatio w :
  ratio_in_range devicePixelRatio w →
  ratio_in_range devicePixelRatio
                 (RenderOptimizer.adaptiveOptimization metrics devicePixelRatio w).
Proof.
  intros (r & Hr & H1 & Hcap). unfold RenderOptimizer.adaptiveOptimization.
  destruct (negb (adaptiveQuality (settings (renderOptimizer w)))); [by exists r|].
  destruct metrics as [fps|]; [|by exists r]. cbv zeta.
  destruct (Js.Qlt_bool fps _).
  - destruct (reduceQuality_in_range devicePixelRatio w r Hr H1) as (r' & Hr' & Ha & _ & Hb).
    exists r'. split; [done|]. split; [done|]. by apply Hb.
  - destruct (Js.Qlt_bool _ fps); [|by exists r].
    destruct (increaseQuality_in_range devicePixelRatio w r Hr H1 Hcap) as (r' & Hr' & Ha & Hb).
    exists r'. split; [done|]. split; [|done]. eapply Qle_trans; [exact H1|exact Ha].
Qed.

(** X17: on a device whose pixel ratio is at least 1, the renderer's pixel
    ratio is between 1 and the cap min(devicePixelRatio, 2) after
    [initialize] and after any number of adaptive-quality evaluations,
    whatever the frame rates sampled (or missing) and whatever the
    settings. *)
Theorem adaptive_ratio_in_range
        (r0 : WebGLRenderer) (scene camera : Three.ref) (devicePixelRatio : Q)
        (samples : list (option Q)) (w : World) :
  (1 <= devicePixelRatio)%Q →
  ratio_in_range
    devicePixelRatio
    (foldl (λ acc metrics, RenderOptimizer.adaptiveOptimization metrics devicePixelRatio acc)
           (RenderOptimizer.initialize r0 scene camera devicePixelRatio w) samples).
Proof.
  intros Hdpr.
  assert (H0 : ratio_in_range devicePixelRatio
                 (RenderOptimizer.initialize r0 scene camera devicePixelRatio w)).
  { eexists. split; [reflexivity|]. cbn [pixelRatio].
    split; [by apply maxPixelRatio_ge_1|apply Qle_refl]. }
  revert H0. generalize (RenderOptimizer.initialize r0 scene camera devicePixelRatio w).
  induction samples as [|metrics samples IH]; intros w0 H0; [done|].
  cbn [foldl]. by apply IH, adaptiveOptimization_in_range.
Qed.

Lemma adaptive_ratio_in_range_witness :
  ratio_in_range
    (3 # 2)
    (foldl (λ acc metrics, RenderOptimizer.adaptiveOptimization metrics (3 # 2) acc)
           (RenderOptimizer.initialize (mkWebGLRenderer 1 false) 0 10 (3 # 2) Sample.world)
           [Some 10%Q; None; Some 90%Q]).
Proof.
  apply (adaptive_ratio_in_range (mkWebGLRenderer 1 false) 0 10 (3 # 2)
                                 [Some 10%Q; None; Some 90%Q] Sample.world).
  by vm_compute.
Defined.

(** ** LOD variants are new objects *)

Lemma le_foldr_max (k : nat) (l : list nat) : k ∈ l → k ≤ foldr Nat.max 0 l.
Proof.
  induction l as [|y l IH]; [by intros H%elem_of_nil|].
  intros [->|H]%elem_of_cons; simpl; [lia|]. specialize (IH H). lia.
Qed.

Lemma fresh_unused h : Three.deref h (Three.fresh h) = None.
Proof.
  unfold Three.deref. destruct (Three.cells h !! Three.fresh h) as [o|] eqn:E; [|done].
  exfalso. apply elem_of_map_to_list in E.
  assert (Hin : Three.fresh h ∈ (fst <$> map_to_list (Three.cells h))).
  { apply list_elem_of_fmap. by exists (Three.fresh h, o). }
  apply le_foldr_max in Hin.
  pose proof (Nat.le_max_r (Three.next h)
                (S (foldr Nat.max 0 (fst <$> map_to_list (Three.cells h))))) as Hmax.
  fold (Three.fresh h) in Hmax.
  exact (Nat.lt_irrefl _ (Nat.lt_le_trans _ _ _ Hmax Hin)).
Qed.

Lemma extends_refl h : extends h h.
Proof. by intros x _. Qed.

Lemma extends_trans h1 h2 h3 : extends h1 h2 → extends h2 h3 → extends h1 h3.
Proof.
  intros H12 H23 x Hx. rewrite <- (H12 x Hx). apply H23. by rewrite (H12 x Hx).
Qed.

Lemma alloc_extends o h :
  extends h (snd (Three.alloc o h))
  ∧ Three.deref h (fst (Three.alloc o h)) = None
  ∧ Three.deref (snd (Three.alloc o h)) (fst (Three.alloc o h)) = Some o.
Proof.
  unfold Three.alloc. simpl. split; [|split].
  - intros x [y Hx]. unfold Three.deref. simpl.
    rewrite lookup_insert_ne; [done|]. intros <-. by rewrite fresh_unused in Hx.
  - apply fresh_unused.
  - unfold Three.deref. simpl. by rewrite lookup_insert_eq.
Qed.

Lemma unused_extends h h' x :
  extends h h' → Three.deref h' x = None → Three.deref h x = None.
Proof.
  intros He Hx. destruct (Three.deref h x) as [o|] eqn:E; [|done].
  rewrite He in Hx by (by rewrite E). congruence.
Qed.

Lemma simplifyGeometry_extends new_uuid geometry reduction h :
  let r := RenderOptimizer.simplifyGeometry new_uuid geometry reduction h in
  extends h (snd r)
  ∧ (fst r = geometry ∨ Three.deref h (fst r) = None)
  ∧ (is_Some (Three.deref h geometry) → is_Some (Three.deref (snd r) (fst r))).
Proof.
  cbv zeta. unfold RenderOptimizer.simplifyGeometry.
  destruct (Three.deref h geometry) as [[geo| | |]|] eqn:E;
    try (split; [apply extends_refl|]; split; [by left|]; simpl; by rewrite E).
  destruct (list_find _ (Three.attributes geo));
    [|split; [apply extends_refl|]; split; [by left|]; simpl; by rewrite E].
  destruct (Three.index geo) as [indices|];
    [|split; [apply extends_refl|]; split; [by left|]; simpl; by rewrite E].
  cbv zeta.
  match goal with |- context [Three.alloc ?o h] =>
    destruct (alloc_extends o h) as (He & Hnew & Hget) end.
  split; [exact He|]. split; [by right|]. intros _. rewrite Hget. by eexists.
Qed.

Lemma simplifyMaterial_extends new_uuid material h :
  extends h (snd (RenderOptimizer.simplifyMaterial new_uuid material h)).
Proof.
  unfold RenderOptimizer.simplifyMaterial. cbv zeta.
  destruct (match material with
            | Three.NoMaterial => None
            | Three.OneMaterial m => Some m
            | Three.MaterialArray ms => head ms
            end) as [m|]; [|apply extends_refl].
  destruct (Three.deref h m) as [[|mat| |]|]; try apply extends_refl.
  destruct (Three.isMeshStandardMaterial mat); [|apply extends_refl].
  unfold RenderOptimizer.new_MeshBasicMaterial.
  match goal with |- context [Three.alloc ?o h] =>
    destruct (alloc_extends o h) as (He & _) end.
  by destruct (Three.alloc _ h).
Qed.

Lemma new_Mesh_extends new_uuid geometry material h :
  let r := RenderOptimizer.new_Mesh new_uuid geometry material h in
  extends h (snd r)
  ∧ Three.deref h (fst r) = None
  ∧ ∃ o, Three.getObject3D (snd r) (fst r) = Some o
         ∧ Three.userData_isLOD o = true
         ∧ Three.visible o = true
         ∧ Three.parent o = None
         ∧ ∃ material', Three.kind o = Three.KMesh (Some geometry) material'.
Proof.
  cbv zeta. unfold RenderOptimizer.new_Mesh.
  set (p := match material with
            | Three.NoMaterial =>
                let '(m, h') :=
                  RenderOptimizer.new_MeshBasicMaterial new_uuid 16777215 false 1 h in
                (Three.OneMaterial m, h')
            | _ => (material, h)
            end).
  assert (Hp : extends h (snd p)).
  { unfold p. destruct material; try apply extends_refl.
    unfold RenderOptimizer.new_MeshBasicMaterial.
    match goal with |- context [Three.alloc ?o h] =>
      destruct (alloc_extends o h) as (He & _) end.
    by destruct (Three.alloc _ h). }
  destruct p as [material1 h1]. simpl in Hp.
  match goal with |- context [Three.alloc ?o h1] =>
    destruct (alloc_extends o h1) as (He & Hnew & Hget) end.
  split; [by eapply extends_trans|]. split; [by eapply unused_extends|].
  unfold Three.getObject3D. rewrite Hget. eexists. split; [reflexivity|].
  simpl. repeat split. by eexists.
Qed.

(** X18: a LOD variant is a new object.  [createSimplifiedMesh] leaves
    every existing cell of the scene as it is; when it returns a mesh, that
    mesh and its geometry did not exist before, the mesh is marked
    [isLOD], visible and without parent; it returns nothing, and changes
    nothing, exactly when the original is not a mesh with a geometry. *)
Theorem simplified_mesh_is_new
        (new_uuid : Three.ref → string) (originalMesh : Three.ref) (reduction : Js.number)
        (simplify : bool) (h : Three.Heap) :
  let r := RenderOptimizer.createSimplifiedMesh new_uuid originalMesh reduction simplify h in
  extends h (snd r)
  ∧ match fst r with
    | Some m =>
        Three.deref h m = None
        ∧ ∃ o g material,
            Three.getObject3D (snd r) m = Some o
            ∧ Three.userData_isLOD o = true ∧ Three.visible o = true
            ∧ Three.parent o = None
            ∧ Three.kind o = Three.KMesh (Some g) material
            ∧ Three.deref h g = None
            ∧ is_Some (Three.deref (snd r) g)
    | None => snd r = h
    end
  ∧ (fst r = None ↔
     ¬ ∃ o g material geo,
         Three.getObject3D h originalMesh = Some o
         ∧ Three.kind o = Three.KMesh (Some g) material
         ∧ Three.deref h g = Some (Three.HGeometry geo)).
Proof.
  cbv zeta. unfold RenderOptimizer.createSimplifiedMesh.
  destruct (Three.getObject3D h originalMesh) as [o|] eqn:Eo;
    [|split; [apply extends_refl|]; split; [done|]; split; [|done];
      intros _ (? & ? & ? & ? & ? & _); done].
  destruct (Three.kind o) as [[g|] material| | | | |] eqn:Ek;
    try (split; [apply extends_refl|]; split; [done|]; split; [|done];
         intros _ (? & ? & ? & ? & [= <-] & ? & _); congruence).
  destruct (Three.deref h g) as [[geo| | |]|] eqn:Eg;
    try (split; [apply extends_refl|]; split; [done|]; split; [|done];
         intros _ (? & ? & ? & ? & [= <-] & ? & ?); congruence).
  unfold RenderOptimizer.clone_geometry.
  match goal with |- context [Three.alloc ?c h] =>
    destruct (alloc_extends c h) as (He1 & Hnew1 & Hget1);
    destruct (Three.alloc c h) as [g1 h1] end.
  simpl in He1, Hnew1, Hget1.
  set (p2 := if Js.gt reduction (Js.of_Z 0)
             then RenderOptimizer.simplifyGeometry new_uuid g1 reduction h1
             else (g1, h1)).
  assert (H2 : extends h1 (snd p2)
               ∧ (fst p2 = g1 ∨ Three.deref h1 (fst p2) = None)
               ∧ is_Some (Three.deref (snd p2) (fst p2))).
  { unfold p2. destruct (Js.gt reduction (Js.of_Z 0)).
    - destruct (simplifyGeometry_extends new_uuid g1 reduction h1) as (Ha & Hb & Hc).
      split; [done|]. split; [done|]. apply Hc. by rewrite Hget1.
    - split; [apply extends_refl|]. split; [by left|]. simpl. by rewrite Hget1. }
  destruct p2 as [g2 h2]. simpl in H2. destruct H2 as (He2 & Hg2 & Hin2).
  set (p3 := if simplify
             then let '(m, h') := RenderOptimizer.simplifyMaterial new_uuid material h2 in
                  (match m with Some m0 => Three.OneMaterial m0 | None => Three.NoMaterial end,
                   h')
             else (material, h2)).
  assert (H3 : extends h2 (snd p3)).
  { unfold p3. destruct simplify; [|apply extends_refl].
    pose proof (simplifyMaterial_extends new_uuid material h2) as H.
    by destruct (RenderOptimizer.simplifyMaterial new_uuid material h2). }
  destruct p3 as [material3 h3]. simpl in H3.
  destruct (new_Mesh_extends new_uuid g2 material3 h3) as (He4 & Hnew4 & o4 & Ho4 & Hlod & Hvis & Hpar & mat4 & Hk4).
  destruct (RenderOptimizer.new_Mesh new_uuid g2 material3 h3) as [m4 h4].
  simpl in He4, Hnew4, Ho4 |- *.
  assert (He : extends h h3) by (eapply extends_trans; [exact He1|]; by eapply extends_trans).
  split; [by eapply extends_trans|]. split; [|split; [done|]].
  - split; [by eapply unused_extends|].
    exists o4, g2, mat4. repeat split; try done.
    + destruct Hg2 as [->|Hg2]; [done|]. by apply (unused_extends h h1).
    + rewrite He4; [|by rewrite H3]. by rewrite H3.
  - intros H. exfalso. apply H. by exists o, g, material, geo.
Qed.

(** ** Decimation of an index *)

Lemma every_nth_below fuel i step below x :
  x ∈ RenderOptimizer.every_nth fuel i step below → below x = true.
Proof.
  revert i. induction fuel as [|fuel IH]; intros i; simpl; [by intros H%elem_of_nil|].
  destruct (below i) eqn:E; [|by intros H%elem_of_nil].
  intros [->|H]%elem_of_cons; [done|by eapply IH].
Qed.

Lemma every_nth_length fuel i step below :
  length (RenderOptimizer.every_nth fuel i step below) ≤ fuel.
Proof.
  revert i. induction fuel as [|fuel IH]; intros i; simpl; [done|].
  destruct (below i); simpl; [|lia]. specialize (IH (i + step)). lia.
Qed.

(** With a step of at least 1 the last position visited is at least the
    number of positions visited before it. *)
Lemma every_nth_count fuel i step k len :
  1 ≤ step →
  let l := RenderOptimizer.every_nth fuel i step (λ x, x * k <? len) in
  length l = 0 ∨ (length l + i) * k < len + k.
Proof.
  intros Hstep. revert i. induction fuel as [|fuel IH]; intros i; simpl; [by left|].
  destruct (i * k <? len) eqn:E; [|by left].
  apply Nat.ltb_lt in E. right. simpl.
  destruct (IH (i + step)) as [H0|H]; [rewrite H0; lia|nia].
Qed.

Lemma decimate_step_positive count reduction step :
  RenderOptimizer.decimate_step count reduction = Some step → 1 ≤ step.
Proof.
  unfold RenderOptimizer.decimate_step. cbv zeta.
  destruct (Js.integer_value _); intros [= <-]; lia.
Qed.

Lemma getX_original (a : Three.BufferAttribute) (i : nat) :
  Three.below_count a i = true → Three.getX a i ∈ Three.array a.
Proof.
  unfold Three.below_count, Three.getX. intros Hi%Nat.ltb_lt.
  by apply list_elem_of_In, nth_In.
Qed.

(** X19: simplifying a geometry invents no vertex and adds no index value:
    every value of the decimated index is a value of the original index,
    and there are at most as many of them as index entries before: not
    more than the array has elements, not more than the count rounded up,
    and not more than the count when the item size divides the length of
    the array (as it does for an index, whose item size is 1). *)
Theorem decimate_keeps_original_values (indices : Three.BufferAttribute)
        (reduction : Js.number) :
  let kept := RenderOptimizer.decimate indices reduction in
  (∀ v, v ∈ kept → v ∈ Three.array indices)
  ∧ length kept ≤ length (Three.array indices)
  ∧ length kept * Three.itemSize indices
    ≤ length (Three.array indices) + (Three.itemSize indices - 1)
  ∧ (Nat.divide (Three.itemSize indices) (length (Three.array indices)) →
     length kept ≤ length (Three.array indices) / Three.itemSize indices).
Proof.
  intros kept.
  assert (Hvalues : ∀ v, v ∈ kept → v ∈ Three.array indices).
  { unfold kept, RenderOptimizer.decimate.
    destruct (RenderOptimizer.decimate_step _ _) as [step|].
    - intros v (i & -> & Hi)%list_elem_of_fmap. apply getX_original.
      by apply every_nth_below in Hi.
    - destruct (Three.below_count indices 0) eqn:E; [|by intros v H%elem_of_nil].
      intros v ->%list_elem_of_singleton. by apply getX_original. }
  assert (Hlength : length kept ≤ length (Three.array indices)).
  { unfold kept, RenderOptimizer.decimate.
    destruct (RenderOptimizer.decimate_step _ _) as [step|].
    - rewrite length_fmap. apply every_nth_length.
    - unfold Three.below_count. destruct (0 * _ <? _) eqn:E; simpl; [|lia].
      apply Nat.ltb_lt in E. lia. }
  assert (Hcount : length kept * Three.itemSize indices
                   ≤ length (Three.array indices) + (Three.itemSize indices - 1)).
  { destruct (Three.itemSize indices) as [|k] eqn:Ek; [lia|].
    unfold kept, RenderOptimizer.decimate.
    destruct (RenderOptimizer.decimate_step _ _) as [step|] eqn:Es.
    - rewrite length_fmap. unfold Three.below_count. rewrite Ek.
      pose proof (every_nth_count (length (Three.array indices)) 0 step (S k)
                    (length (Three.array indices))
                    (decimate_step_positive _ _ _ Es)) as H.
      simpl in H. destruct H as [H|H]; [rewrite H; lia|lia].
    - unfold Three.below_count. destruct (0 * _ <? _) eqn:E; simpl; [|lia].
      apply Nat.ltb_lt in E. lia. }
  split; [exact Hvalues|]. split; [exact Hlength|]. split; [exact Hcount|].
  intros [c Hc]. rewrite Hc in Hcount |- *.
  destruct (Three.itemSize indices) as [|k]; [rewrite Nat.mul_0_r in Hc; simpl; lia|].
  rewrite Nat.div_mul by done. nia.
Qed.

(** The arithmetic of the step, on doubles: [20 * (1 - 0.9)] is
    1.9999999999999996, the target is 1 and the step 20, so one value of
    twenty is kept; with a reduction of 0.5 every second one is. *)
Example decimate_rounds_as_doubles :
  let indices := Three.mkBufferAttribute true (seqZ 100 20) 1 2 in
  RenderOptimizer.decimate indices (Js.decimal 9 10) = [100%Z]
  ∧ RenderOptimizer.decimate indices (Js.decimal 5 10)
    = [100; 102; 104; 106; 108; 110; 112; 114; 116; 118]%Z
  ∧ RenderOptimizer.decimate indices (Js.of_Z 1) = [100%Z]
  ∧ RenderOptimizer.decimate (Three.mkBufferAttribute true [] 1 2) (Js.decimal 5 10) = [].
Proof. cbv zeta. repeat split; reflexivity. Qed.

(** * Change detection of the status service *)

Lemma Map_get_set `{EqDecision K} {V} (j k : K) (v : V) (m : list (K * V)) :
  StatusUpdate.Map_get j (Js.Map_set k v m)
  = if decide (j = k) then Some v else StatusUpdate.Map_get j m.
Proof.
  induction m as [|[k' v'] m IH]; simpl.
  - destruct (decide (k = j)), (decide (j = k)); congruence.
  - destruct (decide (k' = k)) as [->|Hne]; simpl.
    + destruct (decide (k = j)), (decide (j = k)); congruence.
    + destruct (decide (k' = j)) as [->|Hne'].
      * by rewrite decide_False.
      * exact IH.
Qed.

Lemma Map_set_NoDup `{EqDecision K} {V} (k : K) (v : V) (m : list (K * V)) :
  NoDup (fst <$> m) → NoDup (fst <$> Js.Map_set k v m).
Proof.
  induction m as [|[k' v'] m IH]; simpl; intros Hnd.
  - apply NoDup_singleton.
  - apply NoDup_cons in Hnd as [Hk' Hnd].
    destruct (decide (k' = k)) as [->|Hne]; simpl.
    + by apply NoDup_cons.
    + apply NoDup_cons. split; [|by apply IH].
      rewrite Map_set_keys. intros [?|?]; done.
Qed.

Lemma Map_get_elem `{EqDecision K} {V} (k : K) (v : V) (m : list (K * V)) :
  NoDup (fst <$> m) → ((k, v) ∈ m ↔ StatusUpdate.Map_get k m = Some v).
Proof.
  induction m as [|[k' v'] m IH]; simpl; intros Hnd.
  - split; [by intros H%elem_of_nil|done].
  - apply NoDup_cons in Hnd as [Hk' Hnd]. rewrite elem_of_cons.
    destruct (decide (k' = k)) as [->|Hne].
    + split; [|intros [= ->]; by left].
      intros [[= ->]|Hin]; [done|].
      exfalso. apply Hk'. apply list_elem_of_fmap. by exists (k, v).
    + rewrite <- (IH Hnd). split; [|by right]. intros [[= ? ?]|?]; [congruence|done].
Qed.

Lemma Map_get_keys `{EqDecision K} {V} (k : K) (m : list (K * V)) :
  is_Some (StatusUpdate.Map_get k m) ↔ k ∈ (fst <$> m).
Proof.
  induction m as [|[k' v'] m IH]; simpl.
  - rewrite elem_of_nil. split; [by intros [? ?]|done].
  - rewrite elem_of_cons. destruct (decide (k' = k)) as [->|Hne].
    + split; [by left|by eexists].
    + rewrite IH. split; [by right|]. intros [?|?]; [congruence|done].
Qed.

Lemma status_map_snoc data p :
  StatusUpdate.status_map (data ++ [p])
  = Js.Map_set (StatusUpdate.panel_id p) p (StatusUpdate.status_map data).
Proof. unfold StatusUpdate.status_map. by rewrite foldl_snoc. Qed.

Lemma status_map_NoDup data : status_map_ok (StatusUpdate.status_map data).
Proof.
  unfold status_map_ok. induction data as [|p data IH] using rev_ind; [apply NoDup_nil_2|].
  rewrite status_map_snoc. by apply Map_set_NoDup.
Qed.

(** The map built from a poll holds, for each id, the last entry. *)
Lemma Map_get_status_map data k :
  StatusUpdate.Map_get k (StatusUpdate.status_map data) = latest data k.
Proof.
  unfold latest. induction data as [|p data IH] using rev_ind; [done|].
  rewrite status_map_snoc, Map_get_set, filter_app, filter_cons, filter_nil.
  destruct (decide (k = StatusUpdate.panel_id p)) as [->|Hne].
  - rewrite decide_True by done. by rewrite last_snoc.
  - rewrite decide_False by done. by rewrite app_nil_r.
Qed.

Lemma status_map_entry data k p :
  (k, p) ∈ StatusUpdate.status_map data ↔ latest data k = Some p.
Proof.
  rewrite <- Map_get_status_map. apply Map_get_elem, status_map_NoDup.
Qed.

Lemma omap_nil {A B} (f : A → option B) (l : list A) :
  (∀ x, x ∈ l → f x = None) → omap f l = [].
Proof.
  induction l as [|x l IH]; [done|]. intros H. simpl.
  rewrite (H x) by (by left). apply IH. intros y Hy. apply H. by right.
Qed.

(** X20: a poll that has just been applied shows no change: after
    [updatePreviousStatusMap] with some data, [detectChanges] on the same
    data is empty, repeated ids in the data included. *)
Theorem applied_poll_shows_no_change
        (newPanelData : list StatusUpdate.PanelStatus) (s : StatusUpdate.StatusUpdateService) :
  StatusUpdate.detectChanges newPanelData
                             (StatusUpdate.updatePreviousStatusMap newPanelData s) = [].
Proof.
  unfold StatusUpdate.detectChanges. cbv zeta.
  rewrite !omap_nil; [done| |].
  - intros [k p] Hin. cbn [fst snd StatusUpdate.previousStatusMap
                           StatusUpdate.updatePreviousStatusMap] in *.
    unfold StatusUpdate.Map_has. rewrite bool_decide_eq_true_2; [done|].
    apply Map_get_keys, list_elem_of_fmap. by exists (k, p).
  - intros [k p] Hin. cbn [fst snd]. unfold StatusUpdate.previous_status.
    cbn [StatusUpdate.previousStatusMap StatusUpdate.updatePreviousStatusMap].
    apply Map_get_elem in Hin; [|apply status_map_NoDup]. rewrite Hin.
    by rewrite decide_True.
Qed.

(** X21: what [detectChanges] reports.  With each id once in the previous
    map, a change is reported exactly in two cases: the id is in the poll
    and the status of its last entry differs from the previous one
    ([undefined] for an id not seen before); or the id is not in the poll
    but in the previous map, and is reported with new status [null].  The
    mesh is the first mapping of the id.  No id is reported twice. *)
Theorem detectChanges_reports
        (newPanelData : list StatusUpdate.PanelStatus) (s : StatusUpdate.StatusUpdateService) :
  status_map_ok (StatusUpdate.previousStatusMap s) →
  (∀ c, c ∈ StatusUpdate.detectChanges newPanelData s ↔
        StatusUpdate.change_mesh c = StatusUpdate.find_mesh s (StatusUpdate.panelId c)
        ∧ match latest newPanelData (StatusUpdate.panelId c) with
          | Some p =>
              StatusUpdate.newStatus c = StatusUpdate.a_status (StatusUpdate.status p)
              ∧ StatusUpdate.oldStatus c
                = StatusUpdate.previous_status s (StatusUpdate.panelId c)
              ∧ StatusUpdate.oldStatus c ≠ StatusUpdate.newStatus c
          | None =>
              StatusUpdate.newStatus c = StatusUpdate.js_null
              ∧ ∃ q, StatusUpdate.getCurrentStatus (StatusUpdate.panelId c) s = Some q
                     ∧ StatusUpdate.oldStatus c
                       = StatusUpdate.a_status (StatusUpdate.status q)
          end)
  ∧ NoDup (StatusUpdate.panelId <$> StatusUpdate.detectChanges newPanelData s).
Proof.
  intros Hprev. unfold StatusUpdate.detectChanges. cbv zeta. split.
  - intros [k old new mesh]. cbn [StatusUpdate.panelId StatusUpdate.oldStatus
                                  StatusUpdate.newStatus StatusUpdate.change_mesh].
    rewrite elem_of_app, !list_elem_of_omap. split.
    + intros [([k' p] & Hin & Hc)|([k' q] & Hin & Hc)]; cbn [fst snd] in Hc.
      * destruct (decide _) as [|Hne]; [done|]. injection Hc as -> <- <- <-.
        apply status_map_entry in Hin. rewrite Hin. by repeat split.
      * unfold StatusUpdate.Map_has in Hc.
        destruct (bool_decide _) eqn:Hhas; [done|]. injection Hc as -> <- <- <-.
        apply bool_decide_eq_false in Hhas. rewrite Map_get_status_map in Hhas.
        destruct (latest newPanelData k) as [p|]; [exfalso; apply Hhas; by eexists|].
        split; [done|]. split; [done|]. exists q. split; [|done].
        by apply Map_get_elem.
    + intros [-> Hcase]. destruct (latest newPanelData k) as [p|] eqn:Hl.
      * destruct Hcase as (-> & -> & Hne). left. exists (k, p).
        split; [by apply status_map_entry|]. cbn [fst snd].
        by rewrite decide_False.
      * destruct Hcase as (-> & q & Hq & ->). right. exists (k, q).
        split; [by apply Map_get_elem|]. cbn [fst snd].
        unfold StatusUpdate.Map_has. rewrite bool_decide_eq_false_2; [done|].
        rewrite Map_get_status_map, Hl. by intros [? ?].
  - rewrite fmap_app. apply NoDup_app. split; [|split].
    + pose proof (status_map_NoDup newPanelData) as Hnd. unfold status_map_ok in Hnd.
      induction (StatusUpdate.status_map newPanelData) as [|[k p] m IH]; [apply NoDup_nil_2|].
      apply NoDup_cons in Hnd as [Hk Hnd]. cbn [omap list_omap fst snd].
      assert (Hsub : ∀ j, j ∈ (StatusUpdate.panelId <$>
                                 omap (λ entry,
                                         if decide (StatusUpdate.previous_status s entry.1
                                                    = StatusUpdate.a_status
                                                        (StatusUpdate.status entry.2))
                                         then None
                                         else Some (StatusUpdate.mkStatusChange
                                                      entry.1
                                                      (StatusUpdate.previous_status s entry.1)
                                                      (StatusUpdate.a_status
                                                         (StatusUpdate.status entry.2))
                                                      (StatusUpdate.find_mesh s entry.1))) m)
                        → j ∈ (fst <$> m)).
      { intros j (c & -> & Hc)%list_elem_of_fmap.
        apply list_elem_of_omap in Hc as ([k' p'] & Hin & Hc). cbn [fst snd] in Hc.
        destruct (decide _); [done|]. injection Hc as <-. simpl.
        apply list_elem_of_fmap. by exists (k', p'). }
      destruct (decide _); [by apply IH|].
      rewrite fmap_cons. apply NoDup_cons. split; [|by apply IH].
      intros Hin. by apply Hk, Hsub.
    + intros j (c & -> & Hc)%list_elem_of_fmap (c' & Heq & Hc')%list_elem_of_fmap.
      apply list_elem_of_omap in Hc as ([k p] & Hin & Hc). cbn [fst snd] in Hc.
      apply list_elem_of_omap in Hc' as ([k' q] & Hin' & Hc'). cbn [fst snd] in Hc'.
      destruct (decide _); [done|]. injection Hc as <-.
      unfold StatusUpdate.Map_has in Hc'. destruct (bool_decide _) eqn:Hhas; [done|].
      injection Hc' as <-. simpl in Heq. subst k'.
      apply bool_decide_eq_false in Hhas. apply Hhas, Map_get_keys.
      apply list_elem_of_fmap. by exists (k, p).
    + unfold status_map_ok in Hprev.
      induction (StatusUpdate.previousStatusMap s) as [|[k q] m IH]; [apply NoDup_nil_2|].
      apply NoDup_cons in Hprev as [Hk Hnd]. cbn [omap list_omap fst snd].
      assert (Hsub : ∀ j, j ∈ (StatusUpdate.panelId <$>
                                 omap (λ entry,
                                         if StatusUpdate.Map_has
                                              entry.1 (StatusUpdate.status_map newPanelData)
                                         then None
                                         else Some (StatusUpdate.mkStatusChange
                                                      entry.1
                                                      (StatusUpdate.a_status
                                                         (StatusUpdate.status entry.2))
                                                      StatusUpdate.js_null
                                                      (StatusUpdate.find_mesh s entry.1))) m)
                        → j ∈ (fst <$> m)).
      { intros j (c & -> & Hc)%list_elem_of_fmap.
        apply list_elem_of_omap in Hc as ([k' p'] & Hin & Hc). cbn [fst snd] in Hc.
        destruct (StatusUpdate.Map_has _ _); [done|]. injection Hc as <-. simpl.
        apply list_elem_of_fmap. by exists (k', p'). }
      destruct (StatusUpdate.Map_has _ _); [by apply IH|].
      rewrite fmap_cons. apply NoDup_cons. split; [|by apply IH].
      intros Hin. by apply Hk, Hsub.
Qed.

(** A poll against the state left by an earlier one: one panel changed,
    one removed, one new. *)
Lemma detectChanges_reports_witness :
  let p1 := StatusUpdate.mkPanelStatus "PNL-01-001" StatusUpdate.PENDING None None 0 in
  let p2 := StatusUpdate.mkPanelStatus "PNL-01-002" StatusUpdate.INSTALLED (Some 5%Z) None 5 in
  let p1' := StatusUpdate.mkPanelStatus "PNL-01-001" StatusUpdate.INSTALLED (Some 9%Z) None 9 in
  let p3 := StatusUpdate.mkPanelStatus "PNL-01-003" StatusUpdate.ISSUE None (Some "bent") 9 in
  let s := StatusUpdate.updatePreviousStatusMap
             [p1; p2] (StatusUpdate.setMeshPanelMappings [(1, "PNL-01-001")]
                         StatusUpdate.new_StatusUpdateService) in
  NoDup (StatusUpdate.panelId <$> StatusUpdate.detectChanges [p1'; p3] s).
Proof.
  intros p1 p2 p1' p3 s.
  refine (proj2 (detectChanges_reports [p1'; p3] s _)).
  vm_compute. repeat constructor.
  - intros H. apply elem_of_cons in H as [H|H]; [discriminate|by apply elem_of_nil in H].
  - intros H. by apply elem_of_nil in H.
Defined.

(** X22: the last entry of a poll wins.  After [updatePreviousStatusMap],
    [getCurrentStatus] gives for each id the last entry the data has for it
    ([null] when it has none), [hasStatusChanged] is false exactly for the
    status of that entry ([undefined] for an unknown id), and the number of
    tracked panels is the number of distinct ids in the data. *)
Theorem last_entry_wins
        (newPanelData : list StatusUpdate.PanelStatus) (s : StatusUpdate.StatusUpdateService)
        (panelId : string) :
  let s' := StatusUpdate.updatePreviousStatusMap newPanelData s in
  StatusUpdate.getCurrentStatus panelId s' = latest newPanelData panelId
  ∧ (∀ st, StatusUpdate.hasStatusChanged panelId st s' = false ↔
           st = match latest newPanelData panelId with
                | Some p => StatusUpdate.a_status (StatusUpdate.status p)
                | None => StatusUpdate.js_undefined
                end)
  ∧ StatusUpdate.trackedPanels (StatusUpdate.getUpdateStats s')
    = Z.of_nat (length (remove_dups (StatusUpdate.panel_id <$> newPanelData))).
Proof.
  cbv zeta. unfold StatusUpdate.getCurrentStatus, StatusUpdate.hasStatusChanged,
              StatusUpdate.previous_status.
  cbn [StatusUpdate.previousStatusMap StatusUpdate.updatePreviousStatusMap
       StatusUpdate.getUpdateStats StatusUpdate.trackedPanels].
  rewrite Map_get_status_map. split; [done|]. split.
  - intros st. rewrite bool_decide_eq_false. split.
    + intros H. by destruct (decide (st = match latest newPanelData panelId with
                                          | Some p => StatusUpdate.a_status (StatusUpdate.status p)
                                          | None => StatusUpdate.js_undefined
                                          end)) as [|Hne]; [|exfalso; apply H; congruence].
    + intros -> H. by apply H.
  - f_equal. rewrite <- (length_fmap fst). apply Permutation_length.
    apply NoDup_Permutation; [apply status_map_NoDup|apply NoDup_remove_dups|].
    intros k. rewrite elem_of_remove_dups.
    induction newPanelData as [|p data IH] using rev_ind.
    + done.
    + rewrite status_map_snoc, Map_set_keys, IH, fmap_app, elem_of_app.
      rewrite fmap_cons, fmap_nil, list_elem_of_singleton. tauto.
Qed.

(** * The polling service *)

(** ** The retry policy *)

Lemma clearTimers_retry s :
  Polling.config (Polling.clearTimers s) = Polling.config s
  ∧ Polling.currentRetryCount (Polling.clearTimers s) = Polling.currentRetryCount s
  ∧ Polling.calls (Polling.clearTimers s) = Polling.calls s
  ∧ Polling.isActive (Polling.clearTimers s) = Polling.isActive s
  ∧ Polling.isTabVisible (Polling.clearTimers s) = Polling.isTabVisible s
  ∧ Polling.projectId (Polling.clearTimers s) = Polling.projectId s
  ∧ Polling.inFlight (Polling.clearTimers s) = Polling.inFlight s
  ∧ Polling.next_timer_id (Polling.clearTimers s) = Polling.next_timer_id s.
Proof.
  unfold Polling.clearTimers. destruct (Polling.intervalId s); simpl;
    destruct (Polling.retryTimeoutId s); done.
Qed.

Lemma fetchData_retry s :
  Polling.config (Polling.fetchData s) = Polling.config s
  ∧ Polling.currentRetryCount (Polling.fetchData s) = Polling.currentRetryCount s
  ∧ Polling.calls (Polling.fetchData s) = Polling.calls s
  ∧ Polling.isActive (Polling.fetchData s) = Polling.isActive s
  ∧ Polling.timers (Polling.fetchData s) = Polling.timers s
  ∧ Polling.next_timer_id (Polling.fetchData s) = Polling.next_timer_id s
  ∧ Polling.intervalId (Polling.fetchData s) = Polling.intervalId s.
Proof. unfold Polling.fetchData. by destruct (_ || _). Qed.

Lemma scheduleNextPoll_retry b s :
  Polling.config (Polling.scheduleNextPoll b s) = Polling.config s
  ∧ Polling.currentRetryCount (Polling.scheduleNextPoll b s) = Polling.currentRetryCount s
  ∧ Polling.calls (Polling.scheduleNextPoll b s) = Polling.calls s
  ∧ Polling.isActive (Polling.scheduleNextPoll b s) = Polling.isActive s.
Proof.
  unfold Polling.scheduleNextPoll. destruct (negb (Polling.isActive s)); [done|].
  destruct (clearTimers_retry s) as (H1 & H2 & H3 & H4 & _). cbv zeta. simpl.
  by rewrite H1, H2, H3, H4.
Qed.

Lemma retry_ok_frame c s s' :
  Polling.config s' = Polling.config s →
  Polling.currentRetryCount s' = Polling.currentRetryCount s →
  Polling.calls s' = Polling.calls s →
  retry_ok c s → retry_ok c s'.
Proof. unfold retry_ok. by intros -> -> ->. Qed.

Lemma retry_ok_reset c s s' :
  (0 ≤ Polling.maxRetries c)%Z →
  Polling.config s' = Polling.config s →
  Polling.currentRetryCount s' = 0%Z →
  Polling.calls s' = Polling.calls s ∨ Polling.calls s' = Polling.calls s ++ [Polling.onData]
  ∨ Polling.calls s' = Polling.calls s ++ [Polling.onError] →
  retry_ok c s → retry_ok c s'.
Proof.
  unfold retry_ok. intros Hmax -> -> Hcalls (Hc & _ & Hall).
  split; [done|]. split; [lia|].
  destruct Hcalls as [->|[->| ->]]; [done|apply Forall_app..]; by repeat constructor.
Qed.

Lemma backoffDelay_capped c n :
  (Polling.backoffDelay c n <= Polling.maxBackoffDelay c)%Q.
Proof. unfold Polling.backoffDelay. apply Math_min_spec. Qed.

Lemma fetch_rejected_retry c s :
  (0 ≤ Polling.maxRetries c)%Z →
  retry_ok c s → retry_ok c (Polling.fetch_rejected s).
Proof.
  intros Hmax (Hc & Hcount & Hall). unfold Polling.fetch_rejected. cbv zeta.
  assert (Hall' : Forall (callback_ok c) (Polling.calls s ++ [Polling.onError])).
  { apply Forall_app. by repeat constructor. }
  cbn [Polling.call Polling.currentRetryCount Polling.config].
  destruct (bool_decide _) eqn:Hlt.
  - apply bool_decide_eq_true in Hlt.
    unfold Polling.scheduleRetry.
    change (Polling.isActive (Polling.call Polling.onError s)) with (Polling.isActive s).
    destruct (negb (Polling.isActive s)); [split; [done|]; split; [done|exact Hall']|].
    cbn [Polling.call Polling.currentRetryCount Polling.config] in Hlt. rewrite Hc in Hlt.
    cbv zeta. simpl. rewrite Hc. split; [done|]. split; [simpl; lia|]. simpl.
    apply Forall_app. split; [done|]. constructor; [|done].
    split; [lia|]. split; [done|]. apply backoffDelay_capped.
  - eapply retry_ok_frame; [apply scheduleNextPoll_retry..|].
    split; [done|]. split; [simpl; lia|exact Hall'].
Qed.

Lemma exec_retry c ev s s' :
  (0 ≤ Polling.maxRetries c)%Z →
  Polling.exec ev s = Some s' → retry_ok c s → retry_ok c s'.
Proof.
  intros Hmax Hexec Hok.
  destruct ev as [p| |p| |id| | |hidden| | | |]; simpl in Hexec.
  - injection Hexec as <-. unfold Polling.start.
    eapply (retry_ok_reset c s); [done| | | |done].
    + destruct (scheduleNextPoll_retry false
                  (Polling.fetchData
                     (Polling.set_currentRetryCount 0
                        (Polling.set_isActive true (Polling.set_projectId (Some p) s)))))
        as (-> & _). by destruct (fetchData_retry
                  (Polling.set_currentRetryCount 0
                     (Polling.set_isActive true (Polling.set_projectId (Some p) s))))
        as (-> & _).
    + destruct (scheduleNextPoll_retry false
                  (Polling.fetchData
                     (Polling.set_currentRetryCount 0
                        (Polling.set_isActive true (Polling.set_projectId (Some p) s)))))
        as (_ & -> & _). by destruct (fetchData_retry
                  (Polling.set_currentRetryCount 0
                     (Polling.set_isActive true (Polling.set_projectId (Some p) s))))
        as (_ & -> & _).
    + left. destruct (scheduleNextPoll_retry false
                  (Polling.fetchData
                     (Polling.set_currentRetryCount 0
                        (Polling.set_isActive true (Polling.set_projectId (Some p) s)))))
        as (_ & _ & -> & _). by destruct (fetchData_retry
                  (Polling.set_currentRetryCount 0
                     (Polling.set_isActive true (Polling.set_projectId (Some p) s))))
        as (_ & _ & -> & _).
  - injection Hexec as <-. unfold Polling.stop.
    eapply retry_ok_frame; [apply clearTimers_retry..|done].
  - injection Hexec as <-. unfold Polling.updateProject.
    destruct (decide _); [done|]. cbv zeta.
    set (s1 := Polling.set_currentRetryCount 0 (Polling.set_projectId (Some p) s)).
    assert (H1 : retry_ok c s1) by (eapply (retry_ok_reset c s); [done..|by left|done]).
    destruct (Polling.isActive s1); [|done].
    eapply retry_ok_frame; [apply scheduleNextPoll_retry..|].
    eapply retry_ok_frame; [apply fetchData_retry..|].
    eapply retry_ok_frame; [apply clearTimers_retry..|done].
  - injection Hexec as <-. unfold Polling.refresh.
    destruct (Polling.truthy _); [|done].
    eapply retry_ok_frame; [apply fetchData_retry..|done].
  - destruct (Polling.take_timer id (Polling.timers s)) as [[t rest]|]; [|done].
    injection Hexec as <-.
    assert (H1 : retry_ok c (Polling.set_timers rest s)) by done.
    destruct (Polling.timer_kind t).
    + unfold Polling.poll_fired.
      eapply retry_ok_frame; [apply scheduleNextPoll_retry..|].
      eapply retry_ok_frame; [apply fetchData_retry..|done].
    + unfold Polling.retry_fired. cbv zeta.
      assert (H2 : retry_ok c (Polling.fetchData (Polling.set_timers rest s)))
        by (eapply retry_ok_frame; [apply fetchData_retry..|done]).
      destruct (decide _); [|done].
      eapply retry_ok_frame; [apply scheduleNextPoll_retry..|done].
  - destruct (Polling.inFlight s) as [|n]; [done|]. injection Hexec as <-.
    unfold Polling.fetch_resolved.
    eapply (retry_ok_reset c s); [done..| |done]. right. by left.
  - destruct (Polling.inFlight s) as [|n]; [done|]. injection Hexec as <-.
    by apply fetch_rejected_retry.
  - injection Hexec as <-. unfold Polling.handleVisibilityChange. cbv zeta.
    destruct (_ && _); [|done].
    eapply retry_ok_frame; [apply scheduleNextPoll_retry..|].
    assert (H2 : retry_ok c (Polling.clearTimers (Polling.set_isTabVisible (negb hidden) s)))
      by (eapply retry_ok_frame; [apply clearTimers_retry..|done]).
    destruct (_ && _); [|done].
    eapply retry_ok_frame; [apply fetchData_retry..|done].
  - injection Hexec as <-. unfold Polling.on_focus. cbv zeta.
    destruct (negb _); [|done]. destruct (Polling.isActive _); [|done].
    eapply retry_ok_frame; [apply scheduleNextPoll_retry..|].
    assert (H2 : retry_ok c (Polling.clearTimers (Polling.set_isTabVisible true s)))
      by (eapply retry_ok_frame; [apply clearTimers_retry..|done]).
    destruct (bool_decide _); [|done].
    eapply retry_ok_frame; [apply fetchData_retry..|done].
  - injection Hexec as <-. unfold Polling.on_blur. cbv zeta.
    destruct (Polling.isTabVisible s); [|done]. destruct (Polling.isActive _); [|done].
    eapply retry_ok_frame; [apply scheduleNextPoll_retry..|].
    eapply retry_ok_frame; [apply clearTimers_retry..|done].
  - injection Hexec as <-. unfold Polling.on_online.
    destruct (_ && _); [|done].
    eapply retry_ok_frame; [apply fetchData_retry..|].
    eapply retry_ok_frame; [apply clearTimers_retry..|done].
  - injection Hexec as <-. unfold Polling.on_offline.
    destruct (Polling.isActive s); [|done].
    destruct Hok as (Hc & Hcount & Hall). split; [done|]. split; [done|].
    apply Forall_app. by repeat constructor.
Qed.

Lemma run_retry c evs s s' :
  (0 ≤ Polling.maxRetries c)%Z →
  Polling.run evs s = Some s' → retry_ok c s → retry_ok c s'.
Proof.
  intros Hmax. revert s. induction evs as [|ev evs IH]; intros s Hrun Hok; simpl in Hrun.
  - by injection Hrun as <-.
  - destruct (Polling.exec ev s) as [s1|] eqn:Hexec; [|done].
    apply (IH s1 Hrun). by eapply exec_retry.
Qed.

(** X23: the retry policy.  With [maxRetries] not negative, whatever
    happens to a polling service (calls of its methods, timeouts firing,
    requests succeeding or failing in any order, window events), its retry
    count stays between 0 and [maxRetries], and every retry it announces
    has a number between 1 and [maxRetries] and the delay
    min(interval × multiplier^(number − 1), maxBackoffDelay). *)
Theorem retry_count_bounded
        (c : Polling.PollingConfig) (evs : list Polling.Event) (s : Polling.State) :
  (0 ≤ Polling.maxRetries c)%Z →
  Polling.run evs (Polling.new_PollingService c) = Some s →
  (0 ≤ Polling.currentRetryCount s ≤ Polling.maxRetries c)%Z
  ∧ ∀ attempt delay,
      Polling.onRetry attempt delay ∈ Polling.calls s →
      (1 ≤ attempt ≤ Polling.maxRetries c)%Z
      ∧ delay = Js.Math_min (Polling.interval c
                             * Qpower (Polling.backoffMultiplier c) (attempt - 1))%Q
                            (Polling.maxBackoffDelay c)
      ∧ (delay <= Polling.maxBackoffDelay c)%Q.
Proof.
  intros Hmax Hrun.
  assert (H0 : retry_ok c (Polling.new_PollingService c)).
  { split; [done|]. split; [simpl; lia|constructor]. }
  destruct (run_retry c evs _ s Hmax Hrun H0) as (_ & Hcount & Hall).
  split; [done|]. intros attempt delay Hin.
  rewrite Forall_forall in Hall. exact (Hall _ Hin).
Qed.

Lemma retry_count_bounded_witness :
  ∃ s, Polling.run [Polling.ev_start "p"; Polling.ev_rejected; Polling.ev_timer 2;
                    Polling.ev_rejected]
                   (Polling.new_PollingService Polling.defaultConfig) = Some s
       ∧ Polling.calls s = [Polling.onError; Polling.onRetry 1 30000; Polling.onError;
                            Polling.onRetry 2 60000]
       ∧ (0 ≤ Polling.currentRetryCount s ≤ 5)%Z.
Proof.
  eexists. split; [vm_compute; reflexivity|]. split; [reflexivity|].
  refine (proj1 (retry_count_bounded
                   Polling.defaultConfig
                   [Polling.ev_start "p"; Polling.ev_rejected; Polling.ev_timer 2;
                    Polling.ev_rejected] _ _ _)).
  - by vm_compute.
  - vm_compute. reflexivity.
Defined.

(** ** The next poll *)

Lemma take_timer_spec id ts t rest :
  Polling.take_timer id ts = Some (t, rest) →
  Polling.timer_id t = id ∧ ts ≡ₚ t :: rest.
Proof.
  revert t rest. induction ts as [|t0 ts IH]; intros t rest; simpl; [done|].
  destruct (decide (Polling.timer_id t0 = id)) as [Hid|Hid].
  - by intros [= -> ->].
  - destruct (Polling.take_timer id ts) as [[t' rest']|]; [|done].
    intros [= -> <-]. destruct (IH _ _ eq_refl) as [Ht Hp]. split; [done|].
    rewrite Hp. apply perm_swap.
Qed.

Lemma timers_ok_sub s s' :
  Polling.timers s' ⊆+ Polling.timers s →
  Polling.next_timer_id s' = Polling.next_timer_id s →
  timers_ok s → timers_ok s'.
Proof.
  intros Hsub Hnext [Hfresh Hnd]. split.
  - rewrite Hnext. rewrite Forall_forall in Hfresh |- *. intros t Ht.
    apply Hfresh. by eapply elem_of_submseteq.
  - apply (fmap_submseteq Polling.timer_id) in Hsub.
    apply submseteq_sublist_l in Hsub as (l2 & Hsl & Hperm).
    eapply sublist_NoDup; [|exact Hsl]. by rewrite Hperm.
Qed.

Lemma clearTimeout_sub id s :
  Polling.timers (Polling.clearTimeout id s) ⊆+ Polling.timers s.
Proof. unfold Polling.clearTimeout. simpl. apply sublist_submseteq, sublist_filter. Qed.

Lemma clearTimers_sub s :
  Polling.timers (Polling.clearTimers s) ⊆+ Polling.timers s.
Proof.
  unfold Polling.clearTimers.
  destruct (Polling.intervalId s) as [i|]; simpl;
    destruct (Polling.retryTimeoutId s) as [r|]; simpl; try done.
  - etrans; apply sublist_submseteq, sublist_filter.
  - apply sublist_submseteq, sublist_filter.
  - apply sublist_submseteq, sublist_filter.
Qed.

Lemma clearTimers_ok s : timers_ok s → timers_ok (Polling.clearTimers s).
Proof.
  apply timers_ok_sub; [apply clearTimers_sub|apply clearTimers_retry].
Qed.

Lemma fetchData_ok s : timers_ok s → timers_ok (Polling.fetchData s).
Proof.
  destruct (fetchData_retry s) as (_ & _ & _ & _ & Ht & Hn & _).
  apply timers_ok_sub; [by rewrite Ht|done].
Qed.

Lemma setTimeout_ok k d s :
  timers_ok s →
  timers_ok (snd (Polling.setTimeout k d s))
  ∧ Polling.timers (snd (Polling.setTimeout k d s))
    = Polling.timers s ++ [Polling.mkTimer (fst (Polling.setTimeout k d s)) k d].
Proof.
  intros [Hfresh Hnd]. unfold timers_ok, Polling.setTimeout.
  cbn [snd fst Polling.timers Polling.next_timer_id]. split; [|done]. split.
  - apply Forall_app. split.
    + eapply Forall_impl; [exact Hfresh|]. simpl. lia.
    + repeat constructor; simpl; lia.
  - rewrite fmap_app. apply NoDup_app. split; [done|]. split; [|apply NoDup_singleton].
    intros i Hi ->%list_elem_of_singleton. simpl in Hi.
    apply list_elem_of_fmap in Hi as (t & Hid & Ht).
    rewrite Forall_forall in Hfresh. specialize (Hfresh t Ht). lia.
Qed.

(** An active service that schedules its next poll has it pending. *)
Lemma scheduleNextPoll_scheduled b s :
  timers_ok s → poll_scheduled (Polling.scheduleNextPoll b s) ∨ Polling.isActive s = false.
Proof.
  intros Hok. destruct (Polling.isActive s) eqn:Hact; [left|by right].
  unfold Polling.scheduleNextPoll. rewrite Hact. cbv zeta. cbn [negb].
  pose proof (clearTimers_ok s Hok) as Hok1.
  set (s1 := Polling.clearTimers s) in *.
  set (d := if b then _ else _).
  assert (Hd : d = Polling.interval (Polling.config s1)
               ∨ d = Polling.reducedInterval (Polling.config s1)
               ∨ d = Polling.maxBackoffDelay (Polling.config s1)).
  { unfold d. destruct b; [by do 2 right|]. destruct (negb _); [right; by left|by left]. }
  clearbody d.
  destruct (setTimeout_ok Polling.poll_timer d s1 Hok1) as [Hok2 Ht].
  destruct (Polling.setTimeout Polling.poll_timer d s1) as [id s2] eqn:Hset.
  simpl in Hok2, Ht. split; [done|]. intros _.
  exists (Polling.mkTimer id Polling.poll_timer d). simpl. rewrite Ht.
  split; [apply elem_of_app; right; by left|]. split; [done|]. split; [done|].
  unfold Polling.setTimeout in Hset. injection Hset as _ <-. exact Hd.
Qed.

Lemma scheduleNextPoll_poll_scheduled b s :
  timers_ok s → (Polling.isActive s = false → poll_scheduled s) →
  poll_scheduled (Polling.scheduleNextPoll b s).
Proof.
  intros Hok Hinact. destruct (scheduleNextPoll_scheduled b s Hok) as [H|H]; [done|].
  unfold Polling.scheduleNextPoll. rewrite H. simpl. by apply Hinact.
Qed.

Lemma inactive_scheduled s :
  timers_ok s → Polling.isActive s = false → poll_scheduled s.
Proof. intros Hok Hact. split; [done|]. congruence. Qed.

Lemma poll_scheduled_frame s s' :
  Polling.timers s' = Polling.timers s →
  Polling.next_timer_id s' = Polling.next_timer_id s →
  Polling.intervalId s' = Polling.intervalId s →
  Polling.isActive s' = Polling.isActive s →
  Polling.config s' = Polling.config s →
  poll_scheduled s → poll_scheduled s'.
Proof.
  intros Ht Hn Hi Ha Hc [Hok Hp]. split.
  - apply (timers_ok_sub s); [|exact Hn|exact Hok]. by rewrite Ht.
  - rewrite Ha. intros Hact. destruct (Hp Hact) as (t & H1 & H2 & H3 & H4).
    exists t. by rewrite Ht, Hi, Hc.
Qed.

Lemma fetchData_scheduled s : poll_scheduled s → poll_scheduled (Polling.fetchData s).
Proof.
  destruct (fetchData_retry s) as (Hc & _ & _ & Ha & Ht & Hn & Hi).
  by apply poll_scheduled_frame.
Qed.

Lemma scheduleRetry_scheduled s : poll_scheduled s → poll_scheduled (Polling.scheduleRetry s).
Proof.
  intros [Hok Hp]. unfold Polling.scheduleRetry.
  destruct (negb (Polling.isActive s)) eqn:Hact; [done|]. cbv zeta.
  apply negb_false_iff in Hact. destruct (Hp Hact) as (t & H1 & H2 & H3 & H4).
  match goal with |- context [Polling.setTimeout ?k ?d ?s0] =>
    assert (Hok0 : timers_ok s0) by done;
    destruct (setTimeout_ok k d s0 Hok0) as [Hok2 Ht];
    destruct (Polling.setTimeout k d s0) as [id s2] eqn:Hset end.
  simpl in Hok2, Ht. split; [done|]. intros _. exists t.
  unfold Polling.setTimeout in Hset. injection Hset as _ <-. simpl.
  split; [apply elem_of_app; by left|done].
Qed.

Lemma exec_scheduled ev s s' :
  ev ≠ Polling.ev_online →
  Polling.exec ev s = Some s' → poll_scheduled s → poll_scheduled s'.
Proof.
  intros Hev Hexec Hs. pose proof Hs as [Hok Hp].
  destruct ev as [p| |p| |id| | |hidden| | | |]; simpl in Hexec; try done.
  - injection Hexec as <-. unfold Polling.start. cbv zeta.
    destruct (scheduleNextPoll_scheduled false
                (Polling.fetchData
                   (Polling.set_currentRetryCount 0
                      (Polling.set_isActive true (Polling.set_projectId (Some p) s)))))
      as [H|H]; [by apply fetchData_ok|done|].
    destruct (fetchData_retry (Polling.set_currentRetryCount 0
                      (Polling.set_isActive true (Polling.set_projectId (Some p) s))))
      as (_ & _ & _ & Ha & _). rewrite Ha in H. done.
  - injection Hexec as <-. unfold Polling.stop. apply inactive_scheduled.
    + by apply clearTimers_ok.
    + by destruct (clearTimers_retry (Polling.set_isActive false s)) as (_ & _ & _ & -> & _).
  - injection Hexec as <-. unfold Polling.updateProject.
    destruct (decide _); [done|]. cbv zeta.
    set (s1 := Polling.set_currentRetryCount 0 (Polling.set_projectId (Some p) s)).
    destruct (Polling.isActive s1) eqn:Hact; [|done].
    destruct (scheduleNextPoll_scheduled false (Polling.fetchData (Polling.clearTimers s1)))
      as [H|H]; [by apply fetchData_ok, clearTimers_ok|done|].
    destruct (fetchData_retry (Polling.clearTimers s1)) as (_ & _ & _ & Ha & _).
    destruct (clearTimers_retry s1) as (_ & _ & _ & Ha' & _). congruence.
  - injection Hexec as <-. unfold Polling.refresh.
    destruct (Polling.truthy _); [|done]. by apply fetchData_scheduled.
  - destruct (Polling.take_timer id (Polling.timers s)) as [[t rest]|] eqn:Htake; [|done].
    injection Hexec as <-. apply take_timer_spec in Htake as [Hid Hperm].
    assert (Hok1 : timers_ok (Polling.set_timers rest s)).
    { apply (timers_ok_sub s); [|done|exact Hok]. simpl. rewrite Hperm. by apply submseteq_cons. }
    destruct (Polling.timer_kind t) eqn:Hkind.
    + unfold Polling.poll_fired. apply scheduleNextPoll_poll_scheduled.
      * by apply fetchData_ok.
      * intros Hact. apply inactive_scheduled; [by apply fetchData_ok|done].
    + assert (Hs1 : poll_scheduled (Polling.set_timers rest s)).
      { split; [done|]. simpl. intros Hact. destruct (Hp Hact) as (t0 & H1 & H2 & H3 & H4).
        exists t0. simpl. split; [|done].
        rewrite Hperm in H1. apply elem_of_cons in H1 as [->|H1]; [congruence|done]. }
      unfold Polling.retry_fired. cbv zeta.
      pose proof (fetchData_scheduled _ Hs1) as Hs2.
      destruct (decide _); [|done].
      apply scheduleNextPoll_poll_scheduled; [apply Hs2|]. intros _. exact Hs2.
  - destruct (Polling.inFlight s) as [|n]; [done|]. injection Hexec as <-.
    by apply (poll_scheduled_frame s).
  - destruct (Polling.inFlight s) as [|n]; [done|]. injection Hexec as <-.
    unfold Polling.fetch_rejected. cbv zeta.
    assert (Hs1 : poll_scheduled (Polling.call Polling.onError (Polling.set_inFlight n s)))
      by (by apply (poll_scheduled_frame s)).
    destruct (bool_decide _).
    + by apply scheduleRetry_scheduled.
    + apply scheduleNextPoll_poll_scheduled; [apply Hs1|].
      intros Hact. apply inactive_scheduled; [apply Hs1|done].
  - injection Hexec as <-. unfold Polling.handleVisibilityChange. cbv zeta.
    assert (Hs1 : poll_scheduled (Polling.set_isTabVisible (negb hidden) s))
      by (by apply (poll_scheduled_frame s)).
    destruct (_ && _); [|done].
    pose proof (clearTimers_ok _ (proj1 Hs1)) as Hok2.
    set (s2 := Polling.clearTimers _) in *.
    assert (Hok3 : timers_ok (if Polling.isTabVisible s2
                                 && bool_decide (0 < Polling.currentRetryCount s2)%Z
                              then Polling.fetchData s2 else s2)).
    { destruct (_ && _); [by apply fetchData_ok|done]. }
    apply scheduleNextPoll_poll_scheduled; [done|].
    intros Hact. by apply inactive_scheduled.
  - injection Hexec as <-. unfold Polling.on_focus. cbv zeta.
    destruct (negb _); [|done].
    assert (Hs1 : poll_scheduled (Polling.set_isTabVisible true s))
      by (by apply (poll_scheduled_frame s)).
    destruct (Polling.isActive _); [|done].
    pose proof (clearTimers_ok _ (proj1 Hs1)) as Hok2.
    set (s2 := Polling.clearTimers _) in *.
    assert (Hok3 : timers_ok (if bool_decide (0 < Polling.currentRetryCount s2)%Z
                              then Polling.fetchData s2 else s2)).
    { destruct (bool_decide _); [by apply fetchData_ok|done]. }
    apply scheduleNextPoll_poll_scheduled; [done|].
    intros Hact. by apply inactive_scheduled.
  - injection Hexec as <-. unfold Polling.on_blur. cbv zeta.
    destruct (Polling.isTabVisible s); [|done].
    assert (Hs1 : poll_scheduled (Polling.set_isTabVisible false s))
      by (by apply (poll_scheduled_frame s)).
    destruct (Polling.isActive _); [|done].
    pose proof (clearTimers_ok _ (proj1 Hs1)) as Hok2.
    apply scheduleNextPoll_poll_scheduled; [done|].
    intros Hact. by apply inactive_scheduled.
  - injection Hexec as <-. unfold Polling.on_offline.
    destruct (Polling.isActive s) eqn:Hact; [|done].
    by apply (poll_scheduled_frame s).
Qed.

(** X24: as long as the window reports no [online] event, an active
    polling service always has its next poll pending: the timeout
    [intervalId] refers to has not fired, it runs the poll callback, and
    its delay is the polling interval, the reduced interval or
    [maxBackoffDelay]; this whatever else happens (requests failing,
    retries, visibility changes, project changes). *)
Theorem next_poll_always_pending
        (c : Polling.PollingConfig) (evs : list Polling.Event) (s : Polling.State) :
  Polling.ev_online ∉ evs →
  Polling.run evs (Polling.new_PollingService c) = Some s →
  Polling.isActive s = true →
  ∃ t, t ∈ Polling.timers s
       ∧ Polling.intervalId s = Some (Polling.timer_id t)
       ∧ Polling.timer_kind t = Polling.poll_timer
       ∧ (Polling.timer_delay t = Polling.interval (Polling.config s)
          ∨ Polling.timer_delay t = Polling.reducedInterval (Polling.config s)
          ∨ Polling.timer_delay t = Polling.maxBackoffDelay (Polling.config s)).
Proof.
  intros Hev Hrun.
  assert (H0 : poll_scheduled (Polling.new_PollingService c)).
  { apply inactive_scheduled; [|done]. split; [constructor|apply NoDup_nil_2]. }
  revert Hev Hrun H0. generalize (Polling.new_PollingService c).
  induction evs as [|ev evs IH]; intros s0 Hev Hrun H0; simpl in Hrun.
  - injection Hrun as <-. apply H0.
  - apply not_elem_of_cons in Hev as [Hne Hev].
    destruct (Polling.exec ev s0) as [s1|] eqn:Hexec; [|done].
    apply (IH s1 Hev Hrun). eapply exec_scheduled; [|exact Hexec|exact H0]. congruence.
Qed.

Lemma next_poll_always_pending_witness :
  ∃ s t, Polling.run [Polling.ev_start "p"; Polling.ev_rejected; Polling.ev_blur;
                      Polling.ev_timer 3]
                     (Polling.new_PollingService Polling.defaultConfig) = Some s
         ∧ t ∈ Polling.timers s
         ∧ Polling.intervalId s = Some (Polling.timer_id t).
Proof.
  destruct (next_poll_always_pending
              Polling.defaultConfig
              [Polling.ev_start "p"; Polling.ev_rejected; Polling.ev_blur; Polling.ev_timer 3]
              (Polling.mkState Polling.defaultConfig (Some 4%nat) None 1 true false (Some "p")
                               [Polling.mkTimer 4 Polling.poll_timer 120000] 5 1
                               [Polling.onError; Polling.onRetry 1 30000]))
    as (t & Ht & Hi & _).
  - intros H. repeat (apply elem_of_cons in H as [H|H]; [discriminate|]).
    by apply elem_of_nil in H.
  - vm_compute. reflexivity.
  - reflexivity.
  - eexists _, t. split; [vm_compute; reflexivity|]. by split.
Defined.

(** X25: recovery through the [online] listener stops the polling.  In an
    active service in an error state (retry count above 0, a project set),
    whose pending timeouts are the ones it holds the ids of, and with no
    request in flight: after an [online] event and the success of the
    request it sends, the service is still active, its retry count is 0,
    and neither a timeout nor a request is pending; nothing polls again
    until a method is called or the window changes visibility. *)
Theorem online_recovery_leaves_no_timer (s : Polling.State) :
  Polling.isActive s = true →
  (0 < Polling.currentRetryCount s)%Z →
  Polling.truthy (Polling.projectId s) = true →
  Polling.inFlight s = 0 →
  (∀ t, t ∈ Polling.timers s →
        Polling.intervalId s = Some (Polling.timer_id t)
        ∨ Polling.retryTimeoutId s = Some (Polling.timer_id t)) →
  ∃ s', Polling.run [Polling.ev_online; Polling.ev_resolved] s = Some s'
        ∧ Polling.isActive s' = true
        ∧ Polling.currentRetryCount s' = 0%Z
        ∧ Polling.timers s' = []
        ∧ Polling.inFlight s' = 0
        ∧ Polling.calls s' = Polling.calls s ++ [Polling.onData].
Proof.
  intros Hact Hcount Hp Hfl Htimers.
  assert (Hclear : Polling.timers (Polling.clearTimers s) = []).
  { apply elem_of_nil_inv. intros t Ht.
    assert (Hin : t ∈ Polling.timers s
                  ∧ Polling.intervalId s ≠ Some (Polling.timer_id t)
                  ∧ Polling.retryTimeoutId s ≠ Some (Polling.timer_id t)).
    { revert Ht. unfold Polling.clearTimers, Polling.clearTimeout.
      destruct (Polling.intervalId s) as [i|]; simpl;
        destruct (Polling.retryTimeoutId s) as [r|]; simpl;
        rewrite ?list_elem_of_filter; intros H; repeat split; try tauto; try done;
        intros [= ->]; intuition congruence. }
    destruct Hin as (Hin & Hi & Hr). destruct (Htimers t Hin); done. }
  destruct (clearTimers_retry s) as (Hc & Hcnt & Hcalls & Ha & Hv & Hpid & Hfl' & Hn).
  simpl. unfold Polling.on_online. rewrite Hact, bool_decide_eq_true_2 by done. simpl.
  unfold Polling.fetchData. rewrite Hpid, Ha, Hp, Hact. simpl. rewrite Hfl', Hfl.
  eexists. split; [reflexivity|]. simpl. by rewrite Ha, Hclear, Hcalls.
Qed.

(** The state after a failed first request, and the recovery from it. *)
Lemma online_recovery_leaves_no_timer_witness :
  let s := Polling.mkState Polling.defaultConfig (Some 1%nat) (Some 2%nat) 1 true true
                           (Some "p")
                           [Polling.mkTimer 1 Polling.poll_timer 30000;
                            Polling.mkTimer 2 Polling.retry_timer 30000]
                           3 0 [Polling.onError; Polling.onRetry 1 30000] in
  Polling.run [Polling.ev_start "p"; Polling.ev_rejected]
              (Polling.new_PollingService Polling.defaultConfig) = Some s
  ∧ ∃ s', Polling.run [Polling.ev_online; Polling.ev_resolved] s = Some s'
          ∧ Polling.isActive s' = true
          ∧ Polling.timers s' = [].
Proof.
  intros s. split; [vm_compute; reflexivity|].
  destruct (online_recovery_leaves_no_timer s) as (s' & Hrun & Ha & _ & Ht & _).
  - reflexivity.
  - reflexivity.
  - reflexivity.
  - reflexivity.
  - intros t Ht. apply elem_of_cons in Ht as [->|Ht]; [by left|].
    apply list_elem_of_singleton in Ht as ->. by right.
  - by exists s'.
Defined.

(** * The performance monitor *)

Lemma Qle_bool_not_lt (a b : Q) : Qle_bool a b = negb (Js.Qlt_bool b a).
Proof. unfold Js.Qlt_bool. by rewrite negb_involutive. Qed.

(** X26: [isPerformanceAcceptable] and [checkPerformanceThresholds] agree:
    with no metrics collected yet the performance is acceptable; otherwise
    it is acceptable exactly when the check of the current metrics reports
    no issue. *)
Theorem acceptable_iff_no_issue (s : PerformanceMonitor.State) :
  PerformanceMonitor.isPerformanceAcceptable s
  = match PerformanceMonitor.getCurrentMetrics s with
    | None => true
    | Some current =>
        bool_decide (PerformanceMonitor.checkPerformanceThresholds current s = [])
    end.
Proof.
  unfold PerformanceMonitor.isPerformanceAcceptable,
    PerformanceMonitor.checkPerformanceThresholds.
  destruct (PerformanceMonitor.getCurrentMetrics s) as [m|]; [|done]. cbv zeta.
  rewrite !Qle_bool_not_lt.
  destruct (Js.Qlt_bool _ (PerformanceMonitor.totalMB _)); [done|].
  destruct (Js.Qlt_bool (PerformanceMonitor.fps _) _); [done|].
  destruct (Js.Qlt_bool _ (PerformanceMonitor.frameTime _)); [done|].
  destruct (Js.Qlt_bool _ (PerformanceMonitor.drawCalls _)); [done|].
  by destruct (Js.Qlt_bool _ (PerformanceMonitor.triangles _)).
Qed.

(** X27: the status of [getPerformanceSummary], for thresholds that are
    not negative.  It is [critical] exactly
    when the frame rate is below [minFPS], or the memory is above
    [maxMemoryMB] while the frame rate is at least 1.2 × [minFPS]; it is
    [good] exactly when the memory is at most 0.8 × [maxMemoryMB] and the
    frame rate at least 1.2 × [minFPS].  So a memory above its threshold is
    reported as [warning] when the frame rate lies between [minFPS] and
    1.2 × [minFPS]: the second check overwrites the first.  Acceptable
    performance is never [critical]. *)
Theorem summary_status (s : PerformanceMonitor.State) (m : PerformanceMonitor.PerformanceMetrics) :
  PerformanceMonitor.getCurrentMetrics s = Some m →
  (0 <= PerformanceMonitor.maxMemoryMB (PerformanceMonitor.thresholds s))%Q →
  (0 <= PerformanceMonitor.minFPS (PerformanceMonitor.thresholds s))%Q →
  let t := PerformanceMonitor.thresholds s in
  let memory := PerformanceMonitor.totalMB (PerformanceMonitor.memoryUsage m) in
  let rate := PerformanceMonitor.fps (PerformanceMonitor.renderingStats m) in
  let status := fst (fst (PerformanceMonitor.getPerformanceSummary s)) in
  (status = PerformanceMonitor.critical ↔
   (rate < PerformanceMonitor.minFPS t)%Q
   ∨ ((PerformanceMonitor.maxMemoryMB t < memory)%Q
      ∧ (PerformanceMonitor.minFPS t * (12 # 10) <= rate)%Q))
  ∧ (status = PerformanceMonitor.good ↔
     (memory <= PerformanceMonitor.maxMemoryMB t * (8 # 10))%Q
     ∧ (PerformanceMonitor.minFPS t * (12 # 10) <= rate)%Q)
  ∧ ((PerformanceMonitor.maxMemoryMB t < memory)%Q →
     (PerformanceMonitor.minFPS t <= rate)%Q →
     (rate < PerformanceMonitor.minFPS t * (12 # 10))%Q →
     status = PerformanceMonitor.warning)
  ∧ (PerformanceMonitor.isPerformanceAcceptable s = true →
     status ≠ PerformanceMonitor.critical).
Proof.
  intros Hm Hmem Hfps t memory rate status. fold t in Hmem, Hfps.
  unfold status, PerformanceMonitor.getPerformanceSummary,
    PerformanceMonitor.isPerformanceAcceptable.
  rewrite Hm. cbv zeta. fold t memory rate.
  clearbody t memory rate.
  destruct (Js.Qlt_bool (PerformanceMonitor.maxMemoryMB t * (8 # 10)) memory) eqn:E1;
    destruct (Js.Qlt_bool (PerformanceMonitor.maxMemoryMB t) memory) eqn:E2;
    destruct (Js.Qlt_bool rate (PerformanceMonitor.minFPS t * (12 # 10))) eqn:E3;
    destruct (Js.Qlt_bool rate (PerformanceMonitor.minFPS t)) eqn:E4;
    cbn [fst snd];
    repeat split; unfold not; intros;
    repeat match goal with
           | H : Js.Qlt_bool _ _ = true |- _ => apply Qlt_bool_true in H
           | H : Js.Qlt_bool _ _ = false |- _ => apply Qlt_bool_false in H
           | H : _ ∨ _ |- _ => destruct H
           | H : _ ∧ _ |- _ => destruct H
           | H : _ && _ = true |- _ => apply andb_true_iff in H
           | H : Qle_bool _ _ = true |- _ => apply Qle_bool_iff in H
           end;
    try discriminate; try reflexivity;
    first [lra | left; lra | right; split; lra | exfalso; lra].
Qed.

(** Memory above its threshold at a frame rate between [minFPS] and
    1.2 × [minFPS]: the summary says [warning]. *)
Lemma summary_status_witness :
  let m := PerformanceMonitor.mkPerformanceMetrics
             (PerformanceMonitor.mkMemoryUsage 10 300 4 600)
             (PerformanceMonitor.mkRenderingStats 32 31 10 1000)
             (PerformanceMonitor.mkSceneStats 5 3 1 1) 1000 in
  let s := PerformanceMonitor.mkState
             None None false [m] 100 [] 0
             (PerformanceMonitor.mkPerformanceThresholds 512 30 33 100 100000) in
  fst (fst (PerformanceMonitor.getPerformanceSummary s)) = PerformanceMonitor.warning.
Proof.
  intros m s.
  destruct (summary_status s m) as (_ & _ & H & _).
  - reflexivity.
  - by vm_compute.
  - by vm_compute.
  - apply H; by vm_compute.
Defined.

Lemma push_capped_length {A} (cap : nat) (x : A) (l : list A) :
  length l ≤ cap → 1 ≤ cap →
  length (PerformanceMonitor.push_capped cap x l) ≤ cap
  ∧ last (PerformanceMonitor.push_capped cap x l) = Some x.
Proof.
  intros Hl Hcap. unfold PerformanceMonitor.push_capped. cbv zeta.
  rewrite length_app. simpl.
  destruct (cap <? length l + 1) eqn:E.
  - apply Nat.ltb_lt in E. destruct l as [|y l]; simpl in *; [exfalso; lia|].
    rewrite length_app. simpl. split; [lia|]. by rewrite last_snoc.
  - apply Nat.ltb_ge in E. rewrite length_app. simpl. split; [lia|]. by rewrite last_snoc.
Qed.

Lemma exec_histories c s :
  histories_bounded s → histories_bounded (PerformanceMonitor.exec c s).
Proof.
  intros (Hmax & Hm & Hf).
  destruct c as [r scene|now| |now info h|t|now|now]; simpl.
  - done.
  - unfold PerformanceMonitor.startMonitoring.
    destruct (PerformanceMonitor.isMonitoring s),
      (PerformanceMonitor.monitor_renderer s), (PerformanceMonitor.monitor_scene s);
      try done.
    split; [done|]. split; [done|]. simpl. lia.
  - unfold PerformanceMonitor.stopMonitoring.
    by destruct (PerformanceMonitor.isMonitoring s).
  - unfold PerformanceMonitor.collectMetrics.
    destruct (PerformanceMonitor.monitor_renderer s), (PerformanceMonitor.monitor_scene s);
      try done.
    cbv zeta. cbn [snd]. split; [done|].
    cbn [PerformanceMonitor.metrics PerformanceMonitor.frameTimeHistory
         PerformanceMonitor.maxMetricsHistory]. rewrite Hmax. split.
    + apply push_capped_length; lia.
    + apply push_capped_length; lia.
  - done.
  - split; [done|]. simpl. lia.
  - unfold PerformanceMonitor.dispose. cbv zeta. split.
    + simpl. unfold PerformanceMonitor.stopMonitoring.
      by destruct (PerformanceMonitor.isMonitoring s).
    + simpl. lia.
Qed.

(** X28: the monitor's histories are bounded, and a collection is
    current.  After any calls of the monitor's methods, it holds at most
    100 metrics and at most 60 frame times; and whenever [collectMetrics]
    then returns metrics, these are what [getCurrentMetrics] returns
    next, with the issues reported for them being those of the
    thresholds in force. *)
Theorem histories_stay_bounded
        (cs : list PerformanceMonitor.Call) (now : Q) (info : PerformanceMonitor.RendererInfo)
        (h : Three.Heap) :
  let s := PerformanceMonitor.run cs PerformanceMonitor.new_PerformanceMonitorService in
  let r := PerformanceMonitor.collectMetrics now info h s in
  length (PerformanceMonitor.metrics s) ≤ 100
  ∧ length (PerformanceMonitor.frameTimeHistory s) ≤ 60
  ∧ (∀ m, fst (fst r) = Some m →
          PerformanceMonitor.getCurrentMetrics (snd r) = Some m
          ∧ PerformanceMonitor.timestamp m = now
          ∧ snd (fst r) = PerformanceMonitor.checkPerformanceThresholds m s)
  ∧ (fst (fst r) = None ↔
     PerformanceMonitor.monitor_renderer s = None ∨ PerformanceMonitor.monitor_scene s = None).
Proof.
  cbv zeta.
  assert (Hs : histories_bounded
                 (PerformanceMonitor.run cs PerformanceMonitor.new_PerformanceMonitorService)).
  { unfold PerformanceMonitor.run.
    assert (H0 : histories_bounded PerformanceMonitor.new_PerformanceMonitorService).
    { split; [done|]. simpl. lia. }
    revert H0. generalize PerformanceMonitor.new_PerformanceMonitorService.
    induction cs as [|c cs IH]; intros s0 H0; [done|]. simpl.
    by apply IH, exec_histories. }
  destruct Hs as (Hmax & Hm & Hf).
  set (s := PerformanceMonitor.run cs PerformanceMonitor.new_PerformanceMonitorService) in *.
  split; [done|]. split; [done|].
  unfold PerformanceMonitor.collectMetrics.
  destruct (PerformanceMonitor.monitor_renderer s) as [r|] eqn:Hr;
    [destruct (PerformanceMonitor.monitor_scene s) as [scene|] eqn:Hsc|].
  - cbv zeta. cbn [fst snd]. split.
    + intros m [= <-]. split; [|done].
      unfold PerformanceMonitor.getCurrentMetrics.
      cbn [PerformanceMonitor.metrics PerformanceMonitor.maxMetricsHistory].
      rewrite Hmax. apply push_capped_length; lia.
    + split; [done|]. intros [?|?]; done.
  - cbn [fst snd]. split; [done|]. split; [by right|done].
  - cbn [fst snd]. split; [done|]. split; [by left|done].
Qed.
